(** * sqlite3-examples: a model of [src/example.c] and of the engine it drives

    [example.c] is glue code over the SQLite C API.  The development has
    three layers:

    - the C data the program manipulates (machine integers, the accumulator
      struct and its byte image, C strings);
    - a small executable model of the part of the engine the program uses
      (connections, schemas, prepared statements, user functions, the
      serializer), with failures of the environment supplied as a script;
    - the functions of [example.c], written in a state monad over the
      program's world so that each reads like its C text. *)

From Stdlib Require Import ZArith List String Ascii Bool Lia DecimalString.
From Stdlib.Strings Require Import Byte.
From Stdlib.Sorting Require Import Sorted.
Import ListNotations.
Local Open Scope string_scope.
Local Open Scope list_scope.
Local Open Scope Z_scope.

(** ** C integer types *)

(** [int]: 32 bits, two's complement.  C leaves signed overflow undefined;
    the model wraps, as the conversion of an out-of-range value does. *)
Definition int_wrap (z : Z) : Z := (z + 2147483648) mod 4294967296 - 2147483648.

(** [uint32_t], [uint64_t] and [sqlite3_int64]. *)
Definition uint32_wrap (z : Z) : Z := z mod 4294967296.
Definition uint64_wrap (z : Z) : Z := z mod 18446744073709551616.
Definition int64_wrap (z : Z) : Z :=
  (z + 9223372036854775808) mod 18446744073709551616 - 9223372036854775808.

Definition INT_MIN : Z := -2147483648.
Definition INT_MAX : Z := 2147483647.
Definition in_int (z : Z) : Prop := INT_MIN <= z <= INT_MAX.

(** ** Bytes and the little-endian image of an [int] *)

Definition byte_of_Z (z : Z) : byte :=
  match Byte.of_N (Z.to_N (z mod 256)) with
  | Some b => b
  | None => x00
  end.

Definition Z_of_byte (b : byte) : Z := Z.of_N (Byte.to_N b).

Definition store_int (z : Z) : list byte :=
  [byte_of_Z z; byte_of_Z (z / 256); byte_of_Z (z / 65536); byte_of_Z (z / 16777216)].

(** Reading an [int] needs four bytes; [None] is a read past the end of the
    object, which C leaves undefined. *)
Definition load_int (b : list byte) : option Z :=
  match b with
  | b0 :: b1 :: b2 :: b3 :: _ =>
      Some (int_wrap (Z_of_byte b0 + 256 * Z_of_byte b1
                      + 65536 * Z_of_byte b2 + 16777216 * Z_of_byte b3))
  | _ => None
  end.

Definition bytes_of_string (s : string) : list byte :=
  map byte_of_ascii (list_ascii_of_string s).

(** ** C strings *)

(** A [string] stands for the bytes of a character array without its final
    terminator; [strlen] stops at the first NUL inside it, if any. *)
Fixpoint c_str (s : string) : string :=
  match s with
  | EmptyString => EmptyString
  | String c s' => if (N_of_ascii c =? 0)%N then EmptyString else String c (c_str s')
  end.

Definition strlen (s : string) : Z := Z.of_nat (String.length (c_str s)).

(** ** Constants of [example.c] *)

Definition EXAMPLE_SENTINEL : Z := 8090.
Definition EXAMPLE_AGG_F_SENTINEL : Z := 8091.
Definition EXAMPLE_MAX_QUERY_LOOP_STEPS : Z := 1048576.

(** ** [struct example_agg_f_s] *)

Record example_agg_f_s := {
  sentinel : Z;
  aggregate : Z
}.

Definition sizeof_example_agg_f_s : Z := 8.

(** The struct as it lies in memory: [sentinel] at offset 0, [aggregate] at
    offset 4. *)
Definition example_agg_f_s_bytes (a : example_agg_f_s) : list byte :=
  store_int (sentinel a) ++ store_int (aggregate a).

Record timespec := {
  tv_sec : Z;
  tv_nsec : Z
}.

(** ** syslog *)

Definition LOG_ERR : Z := 3.
Definition LOG_INFO : Z := 6.

(** A [%d] argument of a log line; [ArgUndef] marks a value read from
    outside the object it was read from. *)
Inductive log_arg :=
| ArgInt (z : Z)
| ArgUndef.

(** One [syslog] call: priority, [__func__], the text after the
    [file:line:func] prefix, and the integer arguments.  The engine's own
    message text ([%s]) is not modelled. *)
Record log_entry := {
  prio : Z;
  func : string;
  msg : string;
  args : list log_arg
}.

(** ** Engine: result codes and flags (from [sqlite3.h]) *)

Definition SQLITE_OK : Z := 0.
Definition SQLITE_ERROR : Z := 1.
Definition SQLITE_CANTOPEN : Z := 14.
Definition SQLITE_CONSTRAINT : Z := 19.
Definition SQLITE_MISUSE : Z := 21.
Definition SQLITE_RANGE : Z := 25.
Definition SQLITE_ROW : Z := 100.
Definition SQLITE_DONE : Z := 101.

Definition SQLITE_OPEN_READONLY : Z := 1.
Definition SQLITE_OPEN_READWRITE : Z := 2.
Definition SQLITE_OPEN_CREATE : Z := 4.
Definition SQLITE_OPEN_MEMORY : Z := 128.

Definition SQLITE_UTF8 : Z := 1.
Definition SQLITE_DETERMINISTIC : Z := 2048.
Definition SQLITE_PREPARE_NORMALIZE : Z := 2.

(** ** Engine: values, schemas, tables *)

(** The values of the model: NULL, integers, texts and blobs.  Floating
    point values are not modelled: what is proved of stored values is
    proved of these four classes. *)
Inductive value :=
| VNull
| VInt (z : Z)
| VText (s : string)
| VBlob (b : list byte).

Fixpoint bytes_eqb (a b : list byte) : bool :=
  match a, b with
  | [], [] => true
  | x :: a', y :: b' => Byte.eqb x y && bytes_eqb a' b'
  | _, _ => false
  end.

Definition value_eqb (a b : value) : bool :=
  match a, b with
  | VNull, VNull => true
  | VInt x, VInt y => x =? y
  | VText x, VText y => String.eqb x y
  | VBlob x, VBlob y => bytes_eqb x y
  | _, _ => false
  end.

(** Bytes in the order of [memcmp], a proper prefix coming first. *)
Fixpoint bytes_compare (a b : list byte) : comparison :=
  match a, b with
  | [], [] => Eq
  | [], _ :: _ => Lt
  | _ :: _, [] => Gt
  | x :: a', y :: b' =>
      match Z.compare (Z_of_byte x) (Z_of_byte y) with
      | Eq => bytes_compare a' b'
      | Lt => Lt
      | Gt => Gt
      end
  end.

(** The engine's order of values: NULL first, then the integers by value,
    then the texts and then the blobs, both bytewise (the columns of the
    schemas have the default collation, BINARY). *)
Definition value_compare (a b : value) : comparison :=
  match a, b with
  | VNull, VNull => Eq
  | VNull, _ => Lt
  | _, VNull => Gt
  | VInt x, VInt y => Z.compare x y
  | VInt _, _ => Lt
  | _, VInt _ => Gt
  | VText x, VText y => bytes_compare (bytes_of_string x) (bytes_of_string y)
  | VText _, _ => Lt
  | _, VText _ => Gt
  | VBlob x, VBlob y => bytes_compare x y
  end.

Fixpoint insert_value (v : value) (l : list value) : list value :=
  match l with
  | [] => [v]
  | u :: l' =>
      match value_compare v u with
      | Gt => u :: insert_value v l'
      | _ => v :: l
      end
  end.

(** Ascending in that order. *)
Definition sort_values (l : list value) : list value := fold_right insert_value [] l.

(** The two shapes of [check] constraint the schemas use:
    [check (length(col)==n)] and [check (lo <= col)]. *)
Inductive check_expr :=
| CheckLengthEq (col : string) (n : Z)
| CheckLe (lo : Z) (col : string).

Record column := {
  cname : string;
  ctype : string;
  notnull : bool;
  ccheck : option check_expr;
  cdefault : option string
}.

Record foreign_key := {
  fk_cols : list string;
  fk_table : string;
  fk_refs : list string
}.

Record table_def := {
  tname : string;
  columns : list column;
  primary_key : list string;
  fkeys : list foreign_key;
  without_rowid : bool
}.

Record table := {
  tdef : table_def;
  rows : list (list value)
}.

Record database := {
  user_version : Z;
  tables : list table
}.

Definition empty_database : database := {| user_version := 0; tables := [] |}.

Fixpoint find_table (n : string) (ts : list table) : option table :=
  match ts with
  | [] => None
  | t :: ts' => if String.eqb (tname (tdef t)) n then Some t else find_table n ts'
  end.

Fixpoint replace_table (t : table) (ts : list table) : list table :=
  match ts with
  | [] => []
  | u :: ts' =>
      if String.eqb (tname (tdef u)) (tname (tdef t)) then t :: ts'
      else u :: replace_table t ts'
  end.

Fixpoint column_index (n : string) (cs : list column) : option nat :=
  match cs with
  | [] => None
  | c :: cs' =>
      if String.eqb (cname c) n then Some O
      else option_map S (column_index n cs')
  end.

Fixpoint column_indexes (ns : list string) (cs : list column) : option (list nat) :=
  match ns with
  | [] => Some []
  | n :: ns' =>
      match column_index n cs, column_indexes ns' cs with
      | Some i, Some is' => Some (i :: is')
      | _, _ => None
      end
  end.

Definition project (idx : list nat) (row : list value) : list value :=
  map (fun i => nth i row VNull) idx.

(** ** Engine: the SQL the program issues *)

Inductive sql :=
| SqlBegin
| SqlCommit
| SqlCreateTable (schema : string) (def : table_def)
| SqlPragmaSetUserVersion (n : Z)
| SqlPragmaUserVersion
| SqlPragmaForeignKeys (on : bool)
| SqlAttachMemory (alias : string)
    (* attach ':memory:' as alias *)
| SqlInsert (tbl : string) (cols : list string)
    (* insert into tbl(cols) values (?, ..., ?) *)
| SqlSelectAgg (fn : string) (fargs : list string) (tbl : string) (group_by : string).
    (* select fn(fargs) from tbl group by tbl.group_by *)

(** ** Engine: user functions *)

Inductive ctx_result :=
| ResultNone
| ResultError (m : string)
| ResultValue (v : value).

(** [sqlite3_context] of one aggregate group or one scalar call: the memory
    handed out by [sqlite3_aggregate_context] (absent until first asked
    for) and the result set by the callback. *)
Record sqlite3_context := {
  agg_mem : option example_agg_f_s;
  result : ctx_result
}.

Definition new_context : sqlite3_context := {| agg_mem := None; result := ResultNone |}.

Definition sqlite3_result_error (ctx : sqlite3_context) (m : string) : sqlite3_context :=
  {| agg_mem := agg_mem ctx; result := ResultError m |}.

Definition sqlite3_result_blob (ctx : sqlite3_context) (b : list byte) : sqlite3_context :=
  {| agg_mem := agg_mem ctx; result := ResultValue (VBlob b) |}.

Definition sqlite3_result_int64 (ctx : sqlite3_context) (z : Z) : sqlite3_context :=
  {| agg_mem := agg_mem ctx; result := ResultValue (VInt z) |}.

(** [sqlite3_aggregate_context(ctx, sizeof(struct example_agg_f_s))]: on the
    first call for a group the engine allocates zeroed memory; later calls
    return the same memory. *)
Definition sqlite3_aggregate_context (ctx : sqlite3_context)
  : example_agg_f_s * sqlite3_context :=
  match agg_mem ctx with
  | Some a => (a, ctx)
  | None =>
      let a := {| sentinel := 0; aggregate := 0 |} in
      (a, {| agg_mem := Some a; result := result ctx |})
  end.

Definition set_agg_mem (a : example_agg_f_s) (ctx : sqlite3_context) : sqlite3_context :=
  {| agg_mem := Some a; result := result ctx |}.

(** Text to integer, as the engine converts a text or blob value
    ([sqlite3Atoi64]): leading white space, an optional sign, then the
    leading decimal digits; what follows them is ignored, and a number
    beyond 64 bits becomes the nearest 64-bit integer. *)
Fixpoint digits_value (acc : Z) (s : string) : Z :=
  match s with
  | EmptyString => acc
  | String c s' =>
      let n := Z.of_N (N_of_ascii c) in
      if (48 <=? n) && (n <=? 57) then digits_value (10 * acc + (n - 48)) s' else acc
  end.

(** The characters the engine takes for white space: blank, and tab to
    carriage return. *)
Definition is_space (c : ascii) : bool :=
  let n := Z.of_N (N_of_ascii c) in
  (n =? 32) || ((9 <=? n) && (n <=? 13)).

Fixpoint skip_spaces (s : string) : string :=
  match s with
  | EmptyString => EmptyString
  | String c s' => if is_space c then skip_spaces s' else s
  end.

Definition text_int64 (s : string) : Z :=
  let v := match skip_spaces s with
           | String "-"%char s' => - digits_value 0 s'
           | String "+"%char s' => digits_value 0 s'
           | s' => digits_value 0 s'
           end in
  Z.max (-9223372036854775808) (Z.min 9223372036854775807 v).

Definition string_of_bytes (b : list byte) : string :=
  string_of_list_ascii (map ascii_of_byte b).

(** [sqlite3_value_int64]: NULL is 0, an integer is itself, and the bytes
    of a text or of a blob are read as decimal text. *)
Definition sqlite3_value_int64 (v : value) : Z :=
  match v with
  | VNull => 0
  | VInt z => z
  | VText s => text_int64 s
  | VBlob b => text_int64 (string_of_bytes b)
  end.

(** [sqlite3_value_int]: the 64-bit value converted to [int]. *)
Definition sqlite3_value_int (v : value) : Z := int_wrap (sqlite3_value_int64 v).

Definition step_callback : Type :=
  sqlite3_context -> list value -> sqlite3_context * list log_entry.
Definition final_callback : Type :=
  sqlite3_context -> sqlite3_context * list log_entry.
(** A scalar callback also receives what [clock_gettime] answers: its
    return value and the [timespec] it fills in. *)
Definition scalar_callback : Type :=
  Z * timespec -> sqlite3_context -> list value -> sqlite3_context * list log_entry.

Record function_def := {
  fname : string;
  nargs : Z;
  fflags : Z;
  xfunc : option scalar_callback;
  xstep : option step_callback;
  xfinal : option final_callback
}.

(** ** Engine: prepared statements and connections *)

Inductive step_result :=
| SRow (r : list value)
| SErr (rc : Z).

(** What a statement still has to deliver: a result that is ready, or a
    group of the aggregate select whose callbacks have not run yet. *)
Inductive cursor_item :=
| Ready (r : step_result)
| Group (f : function_def) (argvs : list (list value)).

Record sqlite3_stmt := {
  stmt_id : nat;
  stmt_sql : sql;
  bound : list (Z * value);
  pending : option (list cursor_item);
  current : list value;
  history : list Z
}.

Record sqlite3 := {
  backing : option string;
  main_db : database;
  attached : list (string * database);
  autocommit : bool;
  foreign_keys : bool;
  functions : list function_def;
  stmts : list sqlite3_stmt;
  next_stmt : nat
}.

Definition set_main_db (d : database) (c : sqlite3) : sqlite3 :=
  {| backing := backing c; main_db := d; attached := attached c;
     autocommit := autocommit c; foreign_keys := foreign_keys c;
     functions := functions c; stmts := stmts c; next_stmt := next_stmt c |}.

Definition set_attached (a : list (string * database)) (c : sqlite3) : sqlite3 :=
  {| backing := backing c; main_db := main_db c; attached := a;
     autocommit := autocommit c; foreign_keys := foreign_keys c;
     functions := functions c; stmts := stmts c; next_stmt := next_stmt c |}.

Definition set_autocommit (b : bool) (c : sqlite3) : sqlite3 :=
  {| backing := backing c; main_db := main_db c; attached := attached c;
     autocommit := b; foreign_keys := foreign_keys c;
     functions := functions c; stmts := stmts c; next_stmt := next_stmt c |}.

Definition set_foreign_keys (b : bool) (c : sqlite3) : sqlite3 :=
  {| backing := backing c; main_db := main_db c; attached := attached c;
     autocommit := autocommit c; foreign_keys := b;
     functions := functions c; stmts := stmts c; next_stmt := next_stmt c |}.

Definition set_functions (f : list function_def) (c : sqlite3) : sqlite3 :=
  {| backing := backing c; main_db := main_db c; attached := attached c;
     autocommit := autocommit c; foreign_keys := foreign_keys c;
     functions := f; stmts := stmts c; next_stmt := next_stmt c |}.

Definition set_stmts (s : list sqlite3_stmt) (c : sqlite3) : sqlite3 :=
  {| backing := backing c; main_db := main_db c; attached := attached c;
     autocommit := autocommit c; foreign_keys := foreign_keys c;
     functions := functions c; stmts := s; next_stmt := next_stmt c |}.

Definition new_connection (b : option string) (d : database) : sqlite3 :=
  {| backing := b; main_db := d; attached := [];
     autocommit := true; foreign_keys := false;
     functions := []; stmts := []; next_stmt := O |}.

Fixpoint find_stmt (id : nat) (l : list sqlite3_stmt) : option sqlite3_stmt :=
  match l with
  | [] => None
  | s :: l' => if Nat.eqb (stmt_id s) id then Some s else find_stmt id l'
  end.

Fixpoint update_stmt (s : sqlite3_stmt) (l : list sqlite3_stmt) : list sqlite3_stmt :=
  match l with
  | [] => []
  | u :: l' => if Nat.eqb (stmt_id u) (stmt_id s) then s :: l' else u :: update_stmt s l'
  end.

Fixpoint remove_stmt (id : nat) (l : list sqlite3_stmt) : list sqlite3_stmt :=
  match l with
  | [] => []
  | u :: l' => if Nat.eqb (stmt_id u) id then l' else u :: remove_stmt id l'
  end.

Fixpoint find_function (n : string) (k : Z) (fs : list function_def) : option function_def :=
  match fs with
  | [] => None
  | f :: fs' =>
      if String.eqb (fname f) n && (nargs f =? k) then Some f else find_function n k fs'
  end.

Fixpoint find_attached (n : string) (a : list (string * database)) : option database :=
  match a with
  | [] => None
  | (m, d) :: a' => if String.eqb m n then Some d else find_attached n a'
  end.

Fixpoint replace_attached (n : string) (d : database) (a : list (string * database))
  : list (string * database) :=
  match a with
  | [] => []
  | (m, e) :: a' =>
      if String.eqb m n then (m, d) :: a' else (m, e) :: replace_attached n d a'
  end.

Definition get_schema (n : string) (c : sqlite3) : option database :=
  if String.eqb n "main" then Some (main_db c) else find_attached n (attached c).

Definition set_schema (n : string) (d : database) (c : sqlite3) : sqlite3 :=
  if String.eqb n "main" then set_main_db d c
  else set_attached (replace_attached n d (attached c)) c.

(** ** Engine: constraints and inserts *)

Definition decimal_text (z : Z) : string := NilEmpty.string_of_int (Z.to_int z).

(** SQL [length()] of text: the characters before the first NUL, where the
    continuation bytes that follow a UTF-8 lead byte are not counted. *)
Fixpoint sql_length_text (lead : bool) (s : string) : Z :=
  match s with
  | EmptyString => 0
  | String c s' =>
      let n := Z.of_N (N_of_ascii c) in
      if n =? 0 then 0
      else if lead && (128 <=? n) && (n <? 192) then sql_length_text true s'
      else 1 + sql_length_text (192 <=? n) s'
  end.

(** [None] is SQL NULL. *)
Definition sql_length (v : value) : option Z :=
  match v with
  | VNull => None
  | VInt z => Some (sql_length_text false (decimal_text z))
  | VText s => Some (sql_length_text false s)
  | VBlob b => Some (Z.of_nat (List.length b))
  end.

(** A [check] constraint fails only when its expression is false; NULL
    passes.  Text and blobs compare greater than every integer. *)
Definition check_holds (cs : list column) (row : list value) (k : check_expr) : bool :=
  match k with
  | CheckLengthEq col n =>
      match column_index col cs with
      | Some i =>
          match sql_length (nth i row VNull) with
          | Some l => l =? n
          | None => true
          end
      | None => false
      end
  | CheckLe lo col =>
      match column_index col cs with
      | Some i =>
          match nth i row VNull with
          | VInt z => lo <=? z
          | _ => true
          end
      | None => false
      end
  end.

Definition is_null (v : value) : bool :=
  match v with
  | VNull => true
  | _ => false
  end.

Fixpoint values_eqb (a b : list value) : bool :=
  match a, b with
  | [], [] => true
  | x :: a', y :: b' => value_eqb x y && values_eqb a' b'
  | _, _ => false
  end.

Definition column_ok (cs : list column) (row : list value) (i : nat) (c : column) : bool :=
  (negb (notnull c) || negb (is_null (nth i row VNull)))
  && match ccheck c with
     | Some k => check_holds cs row k
     | None => true
     end.

Fixpoint columns_ok (cs : list column) (row : list value) (i : nat) (l : list column) : bool :=
  match l with
  | [] => true
  | c :: l' => column_ok cs row i c && columns_ok cs row (S i) l'
  end.

(** The row repeats the primary key of a row already in the table. *)
Definition key_conflict (t : table) (row : list value) : bool :=
  match primary_key (tdef t), column_indexes (primary_key (tdef t)) (columns (tdef t)) with
  | [], _ => false
  | _, None => false
  | _, Some ik => existsb (fun r => values_eqb (project ik r) (project ik row)) (rows t)
  end.

(** The row's foreign key [k] has a parent row (or a NULL in the key). *)
Definition fkey_ok (ts : list table) (t : table) (row : list value) (k : foreign_key) : bool :=
  match column_indexes (fk_cols k) (columns (tdef t)), find_table (fk_table k) ts with
  | Some ic, Some p =>
      let child := project ic row in
      existsb is_null child
      || match column_indexes (fk_refs k) (columns (tdef p)) with
         | Some ip => existsb (fun r => values_eqb (project ip r) child) (rows p)
         | None => false
         end
  | Some ic, None => existsb is_null (project ic row)
  | None, _ => false
  end.

Fixpoint index_of (n : string) (l : list string) : option nat :=
  match l with
  | [] => None
  | m :: l' => if String.eqb m n then Some O else option_map S (index_of n l')
  end.

Fixpoint lookup_param (i : Z) (b : list (Z * value)) : value :=
  match b with
  | [] => VNull
  | (j, v) :: b' => if j =? i then v else lookup_param i b'
  end.

(** The row of [insert into t(cols) values (?, ..., ?)]: column [cols_k]
    receives parameter [k+1]; columns not named receive NULL (an unbound
    parameter is NULL too).  Values are stored as bound: the program binds
    text to a text column, where type affinity changes nothing. *)
Definition insert_values (cols : list string) (b : list (Z * value)) (d : table_def)
  : list value :=
  map (fun c => match index_of (cname c) cols with
                | Some k => lookup_param (Z.of_nat k + 1) b
                | None => VNull
                end) (columns d).

Fixpoint resolve_attached (n : string) (a : list (string * database))
  : option (string * database * table) :=
  match a with
  | [] => None
  | (m, d) :: a' =>
      match find_table n (tables d) with
      | Some t => Some (m, d, t)
      | None => resolve_attached n a'
      end
  end.

(** An unqualified table name: schema main first, then the attached
    databases in the order they were attached. *)
Definition resolve_table (n : string) (c : sqlite3) : option (string * database * table) :=
  match find_table n (tables (main_db c)) with
  | Some t => Some ("main", main_db c, t)
  | None => resolve_attached n (attached c)
  end.

Definition all_columns (ns : list string) (d : table_def) : bool :=
  match column_indexes ns (columns d) with
  | Some _ => true
  | None => false
  end.

(** [None]: a constraint refuses the row. *)
Definition insert_row (tbl : string) (cols : list string) (b : list (Z * value)) (c : sqlite3)
  : option sqlite3 :=
  match resolve_table tbl c with
  | None => None
  | Some (sch, d, t) =>
      let row := insert_values cols b (tdef t) in
      if columns_ok (columns (tdef t)) row O (columns (tdef t))
         && negb (key_conflict t row)
         && (negb (foreign_keys c) || forallb (fkey_ok (tables d) t row) (fkeys (tdef t)))
      then
        let t' := {| tdef := tdef t; rows := rows t ++ [row] |} in
        Some (set_schema sch {| user_version := user_version d;
                                tables := replace_table t' (tables d) |} c)
      else None
  end.

(** ** Engine: statements without parameters or rows *)

Definition apply_sql (s : sql) (c : sqlite3) : Z * sqlite3 :=
  match s with
  | SqlBegin =>
      if autocommit c then (SQLITE_OK, set_autocommit false c) else (SQLITE_ERROR, c)
  | SqlCommit =>
      if autocommit c then (SQLITE_ERROR, c) else (SQLITE_OK, set_autocommit true c)
  | SqlCreateTable sch def =>
      match get_schema sch c with
      | None => (SQLITE_ERROR, c)
      | Some d =>
          match find_table (tname def) (tables d) with
          | Some _ => (SQLITE_ERROR, c)
          | None =>
              (SQLITE_OK,
               set_schema sch {| user_version := user_version d;
                                 tables := tables d ++ [{| tdef := def; rows := [] |}] |} c)
          end
      end
  | SqlPragmaSetUserVersion n =>
      (SQLITE_OK,
       set_main_db {| user_version := int_wrap n; tables := tables (main_db c) |} c)
  | SqlPragmaForeignKeys on =>
      (* a no-op inside a transaction *)
      (SQLITE_OK, if autocommit c then set_foreign_keys on c else c)
  | SqlAttachMemory alias =>
      (* allowed inside a transaction as well *)
      if String.eqb alias "main" || String.eqb alias "temp" then (SQLITE_ERROR, c)
      else match find_attached alias (attached c) with
           | Some _ => (SQLITE_ERROR, c)
           | None => (SQLITE_OK, set_attached (attached c ++ [(alias, empty_database)]) c)
           end
  | _ => (SQLITE_OK, c)
  end.

(** ** Engine: running an aggregate over one group *)

Definition is_error (r : ctx_result) : bool :=
  match r with
  | ResultError _ => true
  | _ => false
  end.

(** The step callback once per row of the group; an error set by the
    callback stops the statement. *)
Fixpoint aggregate_steps (step : step_callback) (ctx : sqlite3_context)
  (argvs : list (list value)) : sqlite3_context * list log_entry :=
  match argvs with
  | [] => (ctx, [])
  | argv :: rest =>
      let (ctx1, l1) := step ctx argv in
      if is_error (result ctx1) then (ctx1, l1)
      else let (ctx2, l2) := aggregate_steps step ctx1 rest in (ctx2, l1 ++ l2)
  end.

Definition aggregate_group (f : function_def) (argvs : list (list value))
  : step_result * list log_entry :=
  match xstep f, xfinal f with
  | Some step, Some final =>
      let (ctx, l1) := aggregate_steps step new_context argvs in
      if is_error (result ctx) then (SErr SQLITE_ERROR, l1)
      else
        let (ctx', l2) := final ctx in
        match result ctx' with
        | ResultError _ => (SErr SQLITE_ERROR, l1 ++ l2)
        | ResultValue v => (SRow [v], l1 ++ l2)
        | ResultNone => (SRow [VNull], l1 ++ l2)
        end
  | _, _ => (SErr SQLITE_ERROR, [])
  end.

Definition deliver (it : cursor_item) : step_result * list log_entry :=
  match it with
  | Ready r => (r, [])
  | Group f argvs => aggregate_group f argvs
  end.

(** The distinct values of a list, in order of first occurrence. *)
Fixpoint dedup (seen : list value) (l : list value) : list value :=
  match l with
  | [] => []
  | v :: l' =>
      if existsb (value_eqb v) seen then dedup seen l'
      else v :: dedup (v :: seen) l'
  end.

(** The groups of [select fn(fargs) from tbl group by g]: one per distinct
    value of [g], each with the argument rows of its members.  The tables
    of the schemas have no index on the grouping column alone, so the
    engine sorts the rows by it to form the groups, and they come out in
    ascending order of [g]. *)
Definition select_groups (f : function_def) (ia : list nat) (ig : nat) (rs : list (list value))
  : list cursor_item :=
  map (fun k => Group f (map (project ia)
                           (filter (fun r => value_eqb (nth ig r VNull) k) rs)))
      (sort_values (dedup [] (map (fun r => nth ig r VNull) rs))).

Definition is_aggregate (f : function_def) : bool :=
  match xstep f, xfinal f with
  | Some _, Some _ => true
  | _, _ => false
  end.

(** What the first [sqlite3_step] of a statement sets up. *)
Definition open_cursor (s : sql) (b : list (Z * value)) (c : sqlite3)
  : list cursor_item * sqlite3 :=
  match s with
  | SqlPragmaUserVersion => ([Ready (SRow [VInt (user_version (main_db c))])], c)
  | SqlInsert tbl cols =>
      match insert_row tbl cols b c with
      | Some c' => ([], c')
      | None => ([Ready (SErr SQLITE_CONSTRAINT)], c)
      end
  | SqlSelectAgg fn fargs tbl g =>
      match resolve_table tbl c, find_function fn (Z.of_nat (List.length fargs)) (functions c) with
      | Some (_, _, t), Some f =>
          match column_indexes fargs (columns (tdef t)), column_index g (columns (tdef t)) with
          | Some ia, Some ig => (select_groups f ia ig (rows t), c)
          | _, _ => ([Ready (SErr SQLITE_ERROR)], c)
          end
      | _, _ => ([Ready (SErr SQLITE_ERROR)], c)
      end
  | _ =>
      let (rc, c') := apply_sql s c in
      (if rc =? SQLITE_OK then [] else [Ready (SErr rc)], c')
  end.

(** Whether [sqlite3_prepare_v3] accepts the statement: the tables, columns
    and functions it names exist. *)
Definition compiles (s : sql) (c : sqlite3) : bool :=
  match s with
  | SqlInsert tbl cols =>
      match resolve_table tbl c with
      | Some (_, _, t) => all_columns cols (tdef t)
      | None => false
      end
  | SqlSelectAgg fn fargs tbl g =>
      match resolve_table tbl c, find_function fn (Z.of_nat (List.length fargs)) (functions c) with
      | Some (_, _, t), Some f =>
          is_aggregate f && all_columns (g :: fargs) (tdef t)
      | _, _ => false
      end
  | _ => true
  end.

(** Run a cursor to its end, as [sqlite3_exec] without a callback does. *)
Fixpoint drain (q : list cursor_item) : Z * list log_entry :=
  match q with
  | [] => (SQLITE_OK, [])
  | it :: q' =>
      match deliver it with
      | (SRow _, l1) => let (rc, l2) := drain q' in (rc, l1 ++ l2)
      | (SErr rc, l1) => (rc, l1)
      end
  end.

(** ** The program's world *)

(** [struct example_s]; [db] is [None] while the handle is NULL. *)
Record example_s := {
  s_sentinel : Z;
  db : option sqlite3
}.

(** Everything a run can read or change: the [example] struct of [main],
    the database files on disk, what went to syslog and to standard output,
    and the script of failures the environment will cause: each engine call
    that can fail for reasons outside the program takes the next entry,
    [SQLITE_OK] (or an exhausted script) meaning that nothing goes wrong. *)
Record world := {
  example : example_s;
  files : list (string * database);
  log : list log_entry;
  stdout : list (string * Z);
  faults : list Z
}.

Definition set_db (o : option sqlite3) (w : world) : world :=
  {| example := {| s_sentinel := s_sentinel (example w); db := o |};
     files := files w; log := log w; stdout := stdout w; faults := faults w |}.

Definition set_files (f : list (string * database)) (w : world) : world :=
  {| example := example w; files := f; log := log w; stdout := stdout w;
     faults := faults w |}.

Definition add_log (l : list log_entry) (w : world) : world :=
  {| example := example w; files := files w; log := log w ++ l; stdout := stdout w;
     faults := faults w |}.

Definition add_stdout (l : list (string * Z)) (w : world) : world :=
  {| example := example w; files := files w; log := log w; stdout := stdout w ++ l;
     faults := faults w |}.

Definition set_faults (f : list Z) (w : world) : world :=
  {| example := example w; files := files w; log := log w; stdout := stdout w;
     faults := f |}.

Definition initial_world (fs : list (string * database)) (script : list Z) : world :=
  {| example := {| s_sentinel := 0; db := None |};
     files := fs; log := []; stdout := []; faults := script |}.

Fixpoint find_file (p : string) (fs : list (string * database)) : option database :=
  match fs with
  | [] => None
  | (q, d) :: fs' => if String.eqb q p then Some d else find_file p fs'
  end.

Fixpoint write_file (p : string) (d : database) (fs : list (string * database))
  : list (string * database) :=
  match fs with
  | [] => [(p, d)]
  | (q, e) :: fs' =>
      if String.eqb q p then (q, d) :: fs' else (q, e) :: write_file p d fs'
  end.

(** Statements that change a database; [commit] makes the changes of its
    transaction durable. *)
Definition writes (s : sql) : bool :=
  match s with
  | SqlCommit | SqlCreateTable _ _ | SqlPragmaSetUserVersion _ | SqlInsert _ _ => true
  | _ => false
  end.

(** Put the connection back after statement [s]; a connection backed by a
    file writes schema main through to it when [s] writes and no
    transaction is open. *)
Definition store_conn (s : sql) (c : sqlite3) (w : world) : world :=
  let w' := set_db (Some c) w in
  match backing c with
  | Some p =>
      if writes s && autocommit c
      then set_files (write_file p (main_db c) (files w)) w' else w'
  | None => w'
  end.

(** ** State monad over the world *)

Definition M (A : Type) : Type := world -> A * world.

Definition Return {A : Type} (a : A) : M A := fun w => (a, w).

Definition bind {A B : Type} (m : M A) (k : A -> M B) : M B :=
  fun w => let (a, w') := m w in k a w'.

Notation "x <- c ;; k" := (bind c (fun x => k))
  (at level 61, c at next level, right associativity).
Notation "' p <- c ;; k" := (bind c (fun x => let p := x in k))
  (at level 61, p pattern, c at next level, right associativity).
Notation "c ;; k" := (bind c (fun _ => k))
  (at level 61, right associativity).

Definition syslog (p : Z) (f m : string) (a : list log_arg) : M unit :=
  fun w => (tt, add_log [{| prio := p; func := f; msg := m; args := a |}] w).

Definition printf (fmt : string) (a : Z) : M unit :=
  fun w => (tt, add_stdout [(fmt, a)] w).

(** The next entry of the failure script. *)
Definition inject : M Z :=
  fun w =>
    match faults w with
    | [] => (SQLITE_OK, w)
    | f :: fs => (f, set_faults fs w)
    end.

(** ** Engine: the API calls of [example.c] *)

Definition sqlite3_initialize : M Z := inject.

(** [SQLITE_OPEN_MEMORY] makes the database memory-resident and the file
    name is then not used; otherwise the file is opened, and created when
    it is absent and [SQLITE_OPEN_CREATE] is given.  Read-only opens are
    outside the model and are refused. *)
Definition sqlite3_open_v2 (path : string) (flags : Z) : M Z :=
  f <- inject ;;
  fun w =>
    if negb (f =? SQLITE_OK) then (f, w)
    else if Z.land flags SQLITE_OPEN_READWRITE =? 0 then (SQLITE_MISUSE, w)
    else if negb (Z.land flags SQLITE_OPEN_MEMORY =? 0)
    then (SQLITE_OK, set_db (Some (new_connection None empty_database)) w)
    else
      match find_file path (files w) with
      | Some d => (SQLITE_OK, set_db (Some (new_connection (Some path) d)) w)
      | None =>
          if negb (Z.land flags SQLITE_OPEN_CREATE =? 0)
          then (SQLITE_OK,
                set_db (Some (new_connection (Some path) empty_database))
                       (set_files (write_file path empty_database (files w)) w))
          else (SQLITE_CANTOPEN, w)
      end.

(** Statements run in order; the first failure stops the batch and leaves
    what the earlier statements did, an open transaction included. *)
Fixpoint exec_all (l : list sql) (c : sqlite3) (w : world) : Z * world :=
  match l with
  | [] => (SQLITE_OK, w)
  | s :: l' =>
      let (q, c') := open_cursor s [] c in
      let (rc, lg) := drain q in
      let w' := add_log lg (store_conn s c' w) in
      if rc =? SQLITE_OK then exec_all l' c' w' else (rc, w')
  end.

Definition sqlite3_exec (l : list sql) : M Z :=
  f <- inject ;;
  fun w =>
    if negb (f =? SQLITE_OK) then (f, w)
    else match db (example w) with
         | None => (SQLITE_MISUSE, w)
         | Some c => exec_all l c w
         end.

Definition new_stmt (id : nat) (s : sql) : sqlite3_stmt :=
  {| stmt_id := id; stmt_sql := s; bound := [];
     pending := None; current := []; history := [] |}.

Definition push_stmt (st : sqlite3_stmt) (c : sqlite3) : sqlite3 :=
  {| backing := backing c; main_db := main_db c;
     attached := attached c; autocommit := autocommit c;
     foreign_keys := foreign_keys c; functions := functions c;
     stmts := st :: stmts c; next_stmt := S (next_stmt c) |}.

(** Returns the result code and the statement handle. *)
Definition sqlite3_prepare_v3 (s : sql) (flags : Z) : M (Z * nat) :=
  f <- inject ;;
  fun w =>
    if negb (f =? SQLITE_OK) then ((f, O), w)
    else match db (example w) with
         | None => ((SQLITE_MISUSE, O), w)
         | Some c =>
             if compiles s c then
               ((SQLITE_OK, next_stmt c),
                set_db (Some (push_stmt (new_stmt (next_stmt c) s) c)) w)
             else ((SQLITE_ERROR, O), w)
         end.

Definition parameter_count (s : sql) : Z :=
  match s with
  | SqlInsert _ cols => Z.of_nat (List.length cols)
  | _ => 0
  end.

(** [n] is the C [int] length argument: negative means up to the
    terminator, otherwise exactly the first [n] bytes. *)
Definition sqlite3_bind_text (stmt : nat) (i : Z) (text : string) (n : Z) : M Z :=
  f <- inject ;;
  fun w =>
    if negb (f =? SQLITE_OK) then (f, w)
    else match db (example w) with
         | None => (SQLITE_MISUSE, w)
         | Some c =>
             match find_stmt stmt (stmts c) with
             | None => (SQLITE_MISUSE, w)
             | Some st =>
                 if (1 <=? i) && (i <=? parameter_count (stmt_sql st)) then
                   let v := VText (if n <? 0 then c_str text
                                   else substring 0 (Z.to_nat n) text) in
                   let st' := {| stmt_id := stmt_id st; stmt_sql := stmt_sql st;
                                 bound := (i, v) :: bound st; pending := pending st;
                                 current := current st; history := history st |} in
                   (SQLITE_OK, set_db (Some (set_stmts (update_stmt st' (stmts c)) c)) w)
                 else (SQLITE_RANGE, w)
             end
         end.

(** One step: the first one opens the cursor (and so runs an insert); each
    one delivers the next item.  The code returned is kept in the
    statement's history. *)
Definition sqlite3_step (stmt : nat) : M Z :=
  f <- inject ;;
  fun w =>
    match db (example w) with
    | None => (SQLITE_MISUSE, w)
    | Some c =>
        match find_stmt stmt (stmts c) with
        | None => (SQLITE_MISUSE, w)
        | Some st =>
            if negb (f =? SQLITE_OK) then
              let st' := {| stmt_id := stmt_id st; stmt_sql := stmt_sql st;
                            bound := bound st; pending := pending st;
                            current := current st; history := f :: history st |} in
              (f, set_db (Some (set_stmts (update_stmt st' (stmts c)) c)) w)
            else
              let (q, c1) := match pending st with
                             | Some q => (q, c)
                             | None => open_cursor (stmt_sql st) (bound st) c
                             end in
              let '(rc, q', cur, lg) :=
                match q with
                | [] => (SQLITE_DONE, [], current st, [])
                | it :: rest =>
                    match deliver it with
                    | (SRow r, lg) => (SQLITE_ROW, rest, r, lg)
                    | (SErr e, lg) => (e, [], current st, lg)
                    end
                end in
              let st' := {| stmt_id := stmt_id st; stmt_sql := stmt_sql st;
                            bound := bound st; pending := Some q';
                            current := cur; history := rc :: history st |} in
              (rc, add_log lg (store_conn (stmt_sql st)
                                      (set_stmts (update_stmt st' (stmts c1)) c1) w))
        end
    end.

Definition current_row (stmt : nat) (w : world) : list value :=
  match db (example w) with
  | Some c =>
      match find_stmt stmt (stmts c) with
      | Some st => current st
      | None => []
      end
  | None => []
  end.

Definition sqlite3_column_int (stmt : nat) (i : nat) : M Z :=
  fun w => (sqlite3_value_int (nth i (current_row stmt w) VNull), w).

(** The bytes behind the pointer [sqlite3_column_blob] returns; [None] is
    the NULL pointer (SQL NULL or a zero-length blob). *)
Definition sqlite3_column_blob (stmt : nat) (i : nat) : M (option (list byte)) :=
  fun w =>
    (match nth i (current_row stmt w) VNull with
     | VNull => None
     | VInt z => Some (bytes_of_string (decimal_text z))
     | VText s => Some (bytes_of_string s)
     | VBlob [] => None
     | VBlob b => Some b
     end, w).

(** The statement is destroyed whatever the code returned, which is the
    error of its last step if that step failed. *)
Definition sqlite3_finalize (stmt : nat) : M Z :=
  f <- inject ;;
  fun w =>
    match db (example w) with
    | None => (SQLITE_MISUSE, w)
    | Some c =>
        match find_stmt stmt (stmts c) with
        | None => (SQLITE_MISUSE, w)
        | Some st =>
            let rc := if negb (f =? SQLITE_OK) then f
                      else match history st with
                           | r :: _ =>
                               if (r =? SQLITE_ROW) || (r =? SQLITE_DONE)
                               then SQLITE_OK else r
                           | [] => SQLITE_OK
                           end in
            (rc, set_db (Some (set_stmts (remove_stmt stmt (stmts c)) c)) w)
        end
    end.

(** Registers (or replaces) the function of that name and arity: a scalar
    has [xfunc] only, an aggregate has [xstep] and [xfinal] only. *)
Definition sqlite3_create_function_v2 (name : string) (n : Z) (flags : Z)
  (xf : option scalar_callback) (xs : option step_callback) (xfi : option final_callback)
  : M Z :=
  f <- inject ;;
  fun w =>
    if negb (f =? SQLITE_OK) then (f, w)
    else match db (example w) with
         | None => (SQLITE_MISUSE, w)
         | Some c =>
             let fd := {| fname := name; nargs := n; fflags := flags;
                          xfunc := xf; xstep := xs; xfinal := xfi |} in
             let shape := match xf, xs, xfi with
                          | Some _, None, None => true
                          | None, Some _, Some _ => true
                          | _, _, _ => false
                          end in
             if shape && (-1 <=? n) && (n <=? 127) then
               (SQLITE_OK,
                set_db (Some (set_functions
                                (fd :: filter (fun g => negb (String.eqb (fname g) name
                                                              && (nargs g =? n)))
                                              (functions c)) c)) w)
             else (SQLITE_MISUSE, w)
         end.

Section Serializer.

(** The engine's serialized image of a database is its file format, which
    the program never looks into; it stays a parameter. *)
Variable image : database -> list byte.

(** Returns the buffer and the length written through [piSize]; the
    length is [-1] when the engine cannot serialize. *)
Definition sqlite3_serialize (schema : string) (mflags : Z) : M (option (list byte) * Z) :=
  f <- inject ;;
  fun w =>
    if negb (f =? SQLITE_OK) then ((None, -1), w)
    else match db (example w) with
         | None => ((None, -1), w)
         | Some c =>
             match get_schema schema c with
             | None => ((None, -1), w)
             | Some d => ((Some (image d), Z.of_nat (List.length (image d))), w)
             end
         end.

End Serializer.

(** ** [example.c]: the schemas *)

Definition col (n t : string) (nn : bool) (k : option check_expr) : column :=
  {| cname := n; ctype := t; notnull := nn; ccheck := k; cdefault := None |}.

(** create table devices (
      deviceid text not null check (length(deviceid)==12),
      primary key (deviceid)
    ) without rowid; *)
Definition devices_table : table_def :=
  {| tname := "devices";
     columns := [col "deviceid" "text" true (Some (CheckLengthEq "deviceid" 12))];
     primary_key := ["deviceid"];
     fkeys := [];
     without_rowid := true |}.

(** create table outputs (
      deviceid text not null,
      outputid int not null check (0 <= outputid),
      foreign key (deviceid) references devices(deviceid),
      primary key (deviceid, outputid)
    ) without rowid; *)
Definition outputs_table : table_def :=
  {| tname := "outputs";
     columns := [col "deviceid" "text" true None;
                 col "outputid" "int" true (Some (CheckLe 0 "outputid"))];
     primary_key := ["deviceid"; "outputid"];
     fkeys := [{| fk_cols := ["deviceid"]; fk_table := "devices";
                  fk_refs := ["deviceid"] |}];
     without_rowid := true |}.

(** create table groups (
      deviceid text not null,
      outputid int not null,
      groupid int not null,
      foreign key (deviceid, outputid) references outputs(deviceid, outputid),
      primary key (deviceid, outputid, groupid)
    ) without rowid; *)
Definition groups_table : table_def :=
  {| tname := "groups";
     columns := [col "deviceid" "text" true None;
                 col "outputid" "int" true None;
                 col "groupid" "int" true None];
     primary_key := ["deviceid"; "outputid"; "groupid"];
     fkeys := [{| fk_cols := ["deviceid"; "outputid"]; fk_table := "outputs";
                  fk_refs := ["deviceid"; "outputid"] |}];
     without_rowid := true |}.

(** begin; create table devices ...; create table outputs ...;
    create table groups ...; pragma user_version = 1; commit; *)
Definition example_schema_full : list sql :=
  [SqlBegin;
   SqlCreateTable "main" devices_table;
   SqlCreateTable "main" outputs_table;
   SqlCreateTable "main" groups_table;
   SqlPragmaSetUserVersion 1;
   SqlCommit].

(** create table state.measured (
      deviceid text not null check (length(deviceid)==12),
      outputid int not null check (0 <= outputid),
      timestamp int not null default (now_monotonic()),
      state bool not null,
      level int,
      primary key (deviceid, outputid)
    ) without rowid; *)
Definition measured_table : table_def :=
  {| tname := "measured";
     columns := [col "deviceid" "text" true (Some (CheckLengthEq "deviceid" 12));
                 col "outputid" "int" true (Some (CheckLe 0 "outputid"));
                 {| cname := "timestamp"; ctype := "int"; notnull := true;
                    ccheck := None; cdefault := Some "now_monotonic()" |};
                 col "state" "bool" true None;
                 col "level" "int" false None];
     primary_key := ["deviceid"; "outputid"];
     fkeys := [];
     without_rowid := true |}.

(** create table state.setpoint (
      deviceid text not null check (length(deviceid)==12),
      outputid int not null check (0 <= outputid),
      setstate bool not null,
      setlevel int,
      primary key (deviceid, outputid)
    ) without rowid; *)
Definition setpoint_table : table_def :=
  {| tname := "setpoint";
     columns := [col "deviceid" "text" true (Some (CheckLengthEq "deviceid" 12));
                 col "outputid" "int" true (Some (CheckLe 0 "outputid"));
                 col "setstate" "bool" true None;
                 col "setlevel" "int" false None];
     primary_key := ["deviceid"; "outputid"];
     fkeys := [];
     without_rowid := true |}.

Definition example_memory_schema : list sql :=
  [SqlBegin;
   SqlCreateTable "state" measured_table;
   SqlCreateTable "state" setpoint_table;
   SqlCommit].

(** ** [example.c]: the callbacks *)

Definition entry (p : Z) (f m : string) (a : list log_arg) : log_entry :=
  {| prio := p; func := f; msg := m; args := a |}.

(** [argc] is the length of [argv].  The struct is reached through the
    pointer [sqlite3_aggregate_context] returns, so every assignment to
    [agg_f] is an assignment to the context's memory. *)
Definition example_agg_f_step (ctx : sqlite3_context) (argv : list value)
  : sqlite3_context * list log_entry :=
  let argc := Z.of_nat (List.length argv) in
  if negb (argc =? 3) then
    (sqlite3_result_error ctx "wrong number of arguments",
     [entry LOG_ERR "example_agg_f_step"
            "example_agg_f_step takes 3 arguments, but given %d" [ArgInt argc]])
  else
    let nodeid := sqlite3_value_int (nth 0 argv VNull) in
    let outputid := sqlite3_value_int (nth 1 argv VNull) in
    let groupid := sqlite3_value_int (nth 2 argv VNull) in
    let (agg_f, ctx) := sqlite3_aggregate_context ctx in
    let agg_f :=
      if 0 =? sentinel agg_f
      then {| sentinel := EXAMPLE_AGG_F_SENTINEL; aggregate := 80 |}
      else agg_f in
    let ctx := set_agg_mem agg_f ctx in
    if negb (EXAMPLE_AGG_F_SENTINEL =? sentinel agg_f) then
      (sqlite3_result_error ctx "sentinel value is wrong",
       [entry LOG_ERR "example_agg_f_step"
              "aggregate structure sentinel is wrong! memory corrupt?" []])
    else
      (set_agg_mem {| sentinel := sentinel agg_f;
                      aggregate := int_wrap (aggregate agg_f + groupid) |} ctx,
       []).

Definition example_agg_f_final (ctx : sqlite3_context) : sqlite3_context * list log_entry :=
  let (agg, ctx) := sqlite3_aggregate_context ctx in
  (sqlite3_result_blob ctx (example_agg_f_s_bytes agg), []).

(** The local [uint64_t time] of [example_now_monotonic] after its three
    assignments. *)
Definition now_monotonic_time (tp : timespec) : Z :=
  let time := uint64_wrap (Z.land (tv_sec tp) 4294967295) in
  let time := uint64_wrap (Z.shiftl time 32) in
  uint64_wrap (Z.lor time (Z.land (tv_nsec tp) 4294967295)).

(** [clock] is what [clock_gettime(CLOCK_MONOTONIC, &tp)] answers: its
    return value and [tp].  The [uint64_t] is handed to
    [sqlite3_result_int64] as a signed 64-bit integer. *)
Definition example_now_monotonic (clock : Z * timespec) (ctx : sqlite3_context)
  (argv : list value) : sqlite3_context * list log_entry :=
  let (ret, tp) := clock in
  if -1 =? ret then
    (sqlite3_result_error ctx "clock_gettime returned -1",
     [entry LOG_ERR "example_now_monotonic" "clock_gettime: %s" []])
  else
    (sqlite3_result_int64 ctx (int64_wrap (now_monotonic_time tp)), []).

(** ** [example.c]: initialisation *)

Definition example_init_schema_migration_full : M Z :=
  ret <- sqlite3_exec example_schema_full ;;
  if negb (SQLITE_OK =? ret) then
    syslog LOG_ERR "example_init_schema_migration_full"
           "sqlite3_exec returned %d: %s" [ArgInt ret] ;;
    Return (-1)
  else Return 0.

Definition example_init_schema_migration : M Z :=
  ' (ret, stmt) <- sqlite3_prepare_v3 SqlPragmaUserVersion SQLITE_PREPARE_NORMALIZE ;;
  if negb (SQLITE_OK =? ret) then
    syslog LOG_ERR "example_init_schema_migration"
           "sqlite3_prepare_v2 returned %d: %s" [ArgInt ret] ;;
    Return (-1)
  else
  ret <- sqlite3_step stmt ;;
  if negb (SQLITE_ROW =? ret) then
    syslog LOG_ERR "example_init_schema_migration"
           "sqlite3_step returned %d: %s" [ArgInt ret] ;;
    Return (-1)
  else
  sqlite3_user_version <- sqlite3_column_int stmt 0 ;;
  ret <- sqlite3_finalize stmt ;;
  if negb (SQLITE_OK =? ret) then
    syslog LOG_ERR "example_init_schema_migration"
           "sqlite3_finalize returned %d: %s" [ArgInt ret] ;;
    Return (-1)
  else
  if 0 =? sqlite3_user_version then
    syslog LOG_INFO "example_init_schema_migration" "doing full schema migration" [] ;;
    ret <- example_init_schema_migration_full ;;
    if -1 =? ret then
      syslog LOG_ERR "example_init_schema_migration"
             "example_init_schema_migration_full returned -1" [] ;;
      Return (-1)
    else Return 0
  else
  if 1 =? sqlite3_user_version then Return 0
  else
  syslog LOG_ERR "example_init_schema_migration"
         "sqlite3 schema version is too new; giving up" [] ;;
  Return (-1).

Definition example_init_schema_memory : M Z :=
  ret <- sqlite3_exec [SqlAttachMemory "state"] ;;
  if negb (SQLITE_OK =? ret) then
    syslog LOG_ERR "example_init_schema_memory"
           "sqlite3_exec returned %d: %s" [ArgInt ret] ;;
    Return (-1)
  else
  ret <- sqlite3_exec example_memory_schema ;;
  if negb (SQLITE_OK =? ret) then
    syslog LOG_ERR "example_init_schema_memory"
           "sqlite3_exec returned %d: %s" [ArgInt ret] ;;
    Return (-1)
  else Return 0.

Definition example_init_custom_agg_function : M Z :=
  ret <- sqlite3_create_function_v2 "example_agg_f" 3
           (Z.lor SQLITE_UTF8 SQLITE_DETERMINISTIC)
           None (Some example_agg_f_step) (Some example_agg_f_final) ;;
  if negb (SQLITE_OK =? ret) then
    syslog LOG_ERR "example_init_custom_agg_function"
           "sqlite3_create_function_v2 returned %d: %s" [ArgInt ret] ;;
    Return (-1)
  else Return 0.

Definition example_init_custom_now_monotonic_function : M Z :=
  ret <- sqlite3_create_function_v2 "now_monotonic" 0
           (Z.lor SQLITE_UTF8 SQLITE_DETERMINISTIC)
           (Some example_now_monotonic) None None ;;
  if negb (SQLITE_OK =? ret) then
    syslog LOG_ERR "example_init_custom_now_monotonic_function"
           "sqlite3_create_function_v2 returned %d: %s" [ArgInt ret] ;;
    Return (-1)
  else Return 0.

(** The flags [example_init] passes to [sqlite3_open_v2]. *)
Definition example_open_flags : Z :=
  Z.lor (Z.lor SQLITE_OPEN_READWRITE SQLITE_OPEN_CREATE) SQLITE_OPEN_MEMORY.

(** [example_init] with the arguments of its [sqlite3_open_v2] call made
    explicit. *)
Definition example_init_with (path : string) (flags : Z) : M Z :=
  ret <- sqlite3_initialize ;;
  if negb (SQLITE_OK =? ret) then
    syslog LOG_ERR "example_init" "sqlite3_initialize returned %d" [ArgInt ret] ;;
    Return (-1)
  else
  ret <- sqlite3_open_v2 path flags ;;
  if negb (SQLITE_OK =? ret) then
    syslog LOG_ERR "example_init" "sqlite3_open_v2 returned %d: %s" [ArgInt ret] ;;
    Return (-1)
  else
  ret <- sqlite3_exec [SqlPragmaForeignKeys true] ;;
  if negb (SQLITE_OK =? ret) then
    syslog LOG_ERR "example_init" "sqlite3_exec returned %d: %s" [ArgInt ret] ;;
    Return (-1)
  else
  ret <- example_init_schema_migration ;;
  if -1 =? ret then
    syslog LOG_ERR "example_init" "example_init_schema_migration returned -1" [] ;;
    Return (-1)
  else
  ret <- example_init_schema_memory ;;
  if -1 =? ret then
    syslog LOG_ERR "example_init" "example_init_schema_memory returned -1" [] ;;
    Return (-1)
  else
  ret <- example_init_custom_agg_function ;;
  if -1 =? ret then
    syslog LOG_ERR "example_init" "example_init_custom_agg_function returned -1" [] ;;
    Return (-1)
  else Return 0.

Definition example_init : M Z := example_init_with "db.sqlite" example_open_flags.

(** ** [example.c]: the operations *)

(** [deviceid_len] is a [uint32_t]; [sqlite3_bind_text] takes an [int]. *)
Definition example_device_new (deviceid : string) (deviceid_len : Z) : M Z :=
  ' (ret, stmt) <- sqlite3_prepare_v3 (SqlInsert "devices" ["deviceid"])
                     SQLITE_PREPARE_NORMALIZE ;;
  if negb (SQLITE_OK =? ret) then
    syslog LOG_ERR "example_device_new" "sqlite3_prepare_v2 returned %d: %s" [ArgInt ret] ;;
    Return (-1)
  else
  ret <- sqlite3_bind_text stmt 1 deviceid (int_wrap (uint32_wrap deviceid_len)) ;;
  if -1 =? ret then
    syslog LOG_ERR "example_device_new" "sqlite3_bind_text returned %d: %s" [ArgInt ret] ;;
    Return (-1)
  else
  ret <- sqlite3_step stmt ;;
  if negb (SQLITE_DONE =? ret) then
    syslog LOG_ERR "example_device_new" "sqlite3_step returned %d: %s" [ArgInt ret] ;;
    Return (-1)
  else
  ret <- sqlite3_finalize stmt ;;
  if negb (SQLITE_OK =? ret) then
    syslog LOG_ERR "example_device_new" "sqlite3_finalize returned %d: %s" [ArgInt ret] ;;
    Return (-1)
  else Return 0.

(** [res->aggregate] for the pointer [sqlite3_column_blob] returned: the
    [int] at offset 4 of whatever bytes are there. *)
Definition res_aggregate (res : option (list byte)) : log_arg :=
  match res with
  | Some b =>
      match load_int (skipn 4 b) with
      | Some z => ArgInt z
      | None => ArgUndef
      end
  | None => ArgUndef
  end.

(** The [for] loop of [example_custom_aggregate_query] with [n] iterations
    left; [inl r] is a [return r] from inside the loop, [inr ret] is the
    value of [ret] when the loop is left by [break] or by its condition. *)
Fixpoint example_custom_aggregate_query_loop (n : nat) (stmt : nat) (ret : Z) : M (Z + Z) :=
  match n with
  | O => Return (inr ret)
  | S n' =>
      ret <- sqlite3_step stmt ;;
      if SQLITE_DONE =? ret then Return (inr ret)
      else
      if negb (SQLITE_ROW =? ret) then
        syslog LOG_ERR "example_custom_aggregate_query"
               "sqlite3_step returned %d: %s" [ArgInt ret] ;;
        Return (inl (-1))
      else
      res <- sqlite3_column_blob stmt 0 ;;
      syslog LOG_INFO "example_custom_aggregate_query"
             "res->aggregate=%d" [res_aggregate res] ;;
      example_custom_aggregate_query_loop n' stmt ret
  end.

Definition example_custom_aggregate_query : M Z :=
  ' (ret, stmt) <- sqlite3_prepare_v3
                     (SqlSelectAgg "example_agg_f" ["deviceid"; "outputid"; "groupid"]
                                   "groups" "groupid")
                     SQLITE_PREPARE_NORMALIZE ;;
  if negb (SQLITE_OK =? ret) then
    syslog LOG_ERR "example_custom_aggregate_query"
           "sqlite3_prepare_v3 returned %d: %s" [ArgInt ret] ;;
    Return (-1)
  else
  r <- example_custom_aggregate_query_loop
         (Z.to_nat EXAMPLE_MAX_QUERY_LOOP_STEPS) stmt ret ;;
  match r with
  | inl v => Return v
  | inr ret =>
      if negb (SQLITE_DONE =? ret) then
        syslog LOG_ERR "example_custom_aggregate_query"
               "sqlite3_step returned %d: %s" [ArgInt ret] ;;
        Return (-1)
      else Return 0
  end.

Section Program.

Variable image : database -> list byte.

Definition example_serialize : M Z :=
  ' (db, db_len) <- sqlite3_serialize image "main" 0 ;;
  if -1 =? db_len then
    syslog LOG_ERR "example_serialize" "sqlite3_serialize returned -1" [] ;;
    Return (-1)
  else
  printf "db_len=%lld" db_len ;;
  Return 0.

Definition main : M Z :=
  ret <- example_init ;;
  if -1 =? ret then
    syslog LOG_ERR "main" "example_init returned -1" [] ;;
    Return (-1)
  else
  ret <- example_device_new "0123456789012" 12 ;;
  if -1 =? ret then
    syslog LOG_ERR "main" "example_device_new returned -1" [] ;;
    Return (-1)
  else
  ret <- example_custom_aggregate_query ;;
  if -1 =? ret then
    syslog LOG_ERR "main" "example_custom_aggregate_query returned -1" [] ;;
    Return (-1)
  else
  ret <- example_serialize ;;
  if -1 =? ret then
    syslog LOG_ERR "main" "example_serialize returned -1" [] ;;
    Return (-1)
  else
  syslog LOG_INFO "main" "ok" [] ;;
  Return 0.

End Program.

(** One run of the process from the files on disk: the exit status and the
    files it leaves. *)
Definition run (image : database -> list byte) (fs : list (string * database))
  (script : list Z) : Z * list (string * database) :=
  let (r, w) := main image (initial_world fs script) in (r, files w).

(** ** Notions the properties are stated with *)

(** The aggregate as [example_init_custom_agg_function] registers it. *)
Definition example_agg_f : function_def :=
  {| fname := "example_agg_f"; nargs := 3;
     fflags := Z.lor SQLITE_UTF8 SQLITE_DETERMINISTIC;
     xfunc := None;
     xstep := Some example_agg_f_step;
     xfinal := Some example_agg_f_final |}.

(** A row of table groups, (deviceid, outputid, groupid), as the three
    arguments the select passes to the aggregate. *)
Definition groups_argv (r : string * Z * Z) : list value :=
  let '(d, o, g) := r in [VText d; VInt o; VInt g].

Definition groupid_of (r : string * Z * Z) : Z := snd r.

Definition sum_groupid (rs : list (string * Z * Z)) : Z :=
  fold_right Z.add 0 (map groupid_of rs).

(** The running-sum field of the blob the engine returns for a group with
    these rows: every step callback, then the final callback. *)
Definition finalized_sum (rs : list (string * Z * Z)) : option Z :=
  match fst (aggregate_group example_agg_f (map groups_argv rs)) with
  | SRow [VBlob b] => load_int (skipn 4 b)
  | _ => None
  end.

(** Every group-index value and every partial sum from [acc] on is an
    [int]. *)
Fixpoint sums_in_int (acc : Z) (gs : list Z) : Prop :=
  match gs with
  | [] => True
  | g :: gs' => in_int g /\ in_int (acc + g) /\ sums_in_int (acc + g) gs'
  end.

(** Order of two readings of the monotonic clock. *)
Definition timespec_le (a b : timespec) : Prop :=
  tv_sec a < tv_sec b \/ (tv_sec a = tv_sec b /\ tv_nsec a <= tv_nsec b).

(** The integer a successful call of the timestamp function returns. *)
Definition now_monotonic_value (tp : timespec) : option Z :=
  match result (fst (example_now_monotonic (0, tp) new_context [])) with
  | ResultValue (VInt v) => Some v
  | _ => None
  end.


(** The world once [example_init] has run from nothing on disk. *)
Definition ready_world : world := snd (example_init (initial_world [] [])).

(** The three tables of [example_schema_full], empty. *)
Definition fresh_tables : list table :=
  [{| tdef := devices_table; rows := [] |};
   {| tdef := outputs_table; rows := [] |};
   {| tdef := groups_table; rows := [] |}].

(** Nothing stored has changed between two worlds: the files, and the
    content and transaction state of the open connection. *)
Definition same_store (w w' : world) : Prop :=
  files w' = files w
  /\ match db (example w), db (example w') with
     | Some c, Some c' =>
         main_db c' = main_db c /\ attached c' = attached c
         /\ autocommit c' = autocommit c /\ foreign_keys c' = foreign_keys c
     | None, None => True
     | _, _ => False
     end.

Definition transaction_control (s : sql) : bool :=
  match s with
  | SqlBegin | SqlCommit => true
  | _ => false
  end.

(** The codes [sqlite3_step] has returned for statement [id], latest
    first; empty when there is no such statement. *)
Definition steps_of (id : nat) (w : world) : list Z :=
  match db (example w) with
  | Some c =>
      match find_stmt id (stmts c) with
      | Some st => history st
      | None => []
      end
  | None => []
  end.

(** The connection of a world that has one. *)
Definition conn_of (w : world) : sqlite3 :=
  match db (example w) with
  | Some c => c
  | None => new_connection None empty_database
  end.

Definition ready_conn : sqlite3 := conn_of ready_world.

(** The handles of the statements that have been prepared and not
    finalized. *)
Definition live_statements (w : world) : list nat :=
  match db (example w) with
  | Some c => map stmt_id (stmts c)
  | None => []
  end.

(** The rows of a table of schema main. *)
Definition rows_of (tbl : string) (w : world) : list (list value) :=
  match db (example w) with
  | Some c =>
      match find_table tbl (tables (main_db c)) with
      | Some t => rows t
      | None => []
      end
  | None => []
  end.

(** The statement of [example_custom_aggregate_query]. *)
Definition aggregate_select : sql :=
  SqlSelectAgg "example_agg_f" ["deviceid"; "outputid"; "groupid"] "groups" "groupid".

(** The cursor [sqlite3_step] works on: the one the statement holds, or
    the one its first step opens. *)
Definition cursor_of (st : sqlite3_stmt) (c : sqlite3) : list cursor_item * sqlite3 :=
  match pending st with
  | Some q => (q, c)
  | None => open_cursor (stmt_sql st) (bound st) c
  end.

(** The log line [example_custom_aggregate_query] writes for a row whose
    blob is [b]. *)
Definition aggregate_line (b : list byte) : log_entry :=
  entry LOG_INFO "example_custom_aggregate_query" "res->aggregate=%d"
        [res_aggregate (Some b)].

(** Item [it] delivers a row holding the non-empty blob [b], its callbacks
    logging nothing. *)
Definition delivers_blob (it : cursor_item) (b : list byte) : Prop :=
  deliver it = (SRow [VBlob b], []) /\ b <> [].

(** Statement [id] of the world's connection, with what is left of its
    cursor. *)
Definition statement_at (id : nat) (w : world) (q : list cursor_item) : Prop :=
  exists c st,
    db (example w) = Some c
    /\ find_stmt id (stmts c) = Some st
    /\ cursor_of st c = (q, c).

(** The groups the aggregate select enumerates on connection [c]. *)
Definition query_items (c : sqlite3) : list cursor_item :=
  fst (open_cursor aggregate_select [] c).

(** A row put into a table through the engine's own insert, constraints
    included; the world is left as it is when the row is refused. *)
Definition insert_into (tbl : string) (cols : list string) (vals : list value) (w : world)
  : world :=
  match db (example w) with
  | Some c =>
      match insert_row tbl cols
              (combine (map (fun k => Z.of_nat k + 1) (seq 0 (List.length vals))) vals) c with
      | Some c' => set_db (Some c') w
      | None => w
      end
  | None => w
  end.

(** The initialised program after [main]'s insert, with one output and one
    group (group index 5) of that device. *)
Definition sample_world : world :=
  insert_into "groups" ["deviceid"; "outputid"; "groupid"]
    [VText "012345678901"; VInt 0; VInt 5]
    (insert_into "outputs" ["deviceid"; "outputid"] [VText "012345678901"; VInt 0]
       (snd (example_device_new "0123456789012" 12 ready_world))).

(** A final callback that hands back four bytes more than the struct. *)
Definition padded_final (ctx : sqlite3_context) : sqlite3_context * list log_entry :=
  let (agg, ctx) := sqlite3_aggregate_context ctx in
  (sqlite3_result_blob ctx (example_agg_f_s_bytes agg ++ [x00; x00; x00; x00]), []).

(** [sample_world] with the aggregate registered again, this time with
    [padded_final]. *)
Definition padded_world : world :=
  snd (sqlite3_create_function_v2 "example_agg_f" 3
         (Z.lor SQLITE_UTF8 SQLITE_DETERMINISTIC)
         None (Some example_agg_f_step) (Some padded_final) sample_world).

(** The flags of an ordinary read-write open that creates the file. *)
Definition file_open_flags : Z := Z.lor SQLITE_OPEN_READWRITE SQLITE_OPEN_CREATE.

(** A database file left by an earlier version of the schema: marker 7. *)
Definition newer_database : database := {| user_version := 7; tables := [] |}.

(** The world of a fault-free run of [main] when it reaches
    [example_serialize], from the files [fs]. *)
Definition before_serialize (fs : list (string * database)) : world :=
  snd (example_custom_aggregate_query
         (snd (example_device_new "0123456789012" 12
                 (snd (example_init (initial_world fs [])))))).

(** The third argument of a row, as the step callback reads it. *)
Definition third_int (argv : list value) : Z := sqlite3_value_int (nth 2 argv VNull).

Definition sum_third (argvs : list (list value)) : Z :=
  fold_right Z.add 0 (map third_int argvs).

(** The accumulator of a group once the step callback has seen its rows,
    when no running sum has left the range of an [int]; with no row the
    memory is as the engine hands it out, zeroed. *)
Definition group_accumulator (argvs : list (list value)) : example_agg_f_s :=
  match argvs with
  | [] => {| sentinel := 0; aggregate := 0 |}
  | _ :: _ => {| sentinel := EXAMPLE_AGG_F_SENTINEL;
                 aggregate := 80 + sum_third argvs |}
  end.

(** The baseline and the magnitudes of the rows' group ids, read as
    [int]s, add up to no more than an [int] holds: in whatever order the
    rows are stepped, no running sum leaves the range. *)
Definition sums_fit (rs : list (list value)) : Prop :=
  80 + fold_right Z.add 0 (map (fun r => Z.abs (third_int r)) rs) <= INT_MAX.

(** The distinct group ids of the rows of table groups, ascending in the
    engine's order of values, and the rows of one group. *)
Definition group_keys (rs : list (list value)) : list value :=
  sort_values (dedup [] (map (fun r => nth 2 r VNull) rs)).

Definition group_members (k : value) (rs : list (list value)) : list (list value) :=
  filter (fun r => value_eqb (nth 2 r VNull) k) rs.

(** The log line of a group with rows [rs]: 80 plus their group ids. *)
Definition group_line (rs : list (list value)) : log_entry :=
  entry LOG_INFO "example_custom_aggregate_query" "res->aggregate=%d"
        [ArgInt (80 + sum_third rs)].

(** [sample_world] with a second output of the device and its group,
    group index 3: the table then lists group 5 before group 3. *)
Definition two_groups_world : world :=
  insert_into "groups" ["deviceid"; "outputid"; "groupid"]
    [VText "012345678901"; VInt 1; VInt 3]
    (insert_into "outputs" ["deviceid"; "outputid"] [VText "012345678901"; VInt 1]
       sample_world).

(** The attached database [example_init_schema_memory] sets up. *)
Definition state_database : database :=
  {| user_version := 0;
     tables := [{| tdef := measured_table; rows := [] |};
                {| tdef := setpoint_table; rows := [] |}] |}.

(** The scalar as [example_init_custom_now_monotonic_function] registers
    it. *)
Definition now_monotonic_function : function_def :=
  {| fname := "now_monotonic"; nargs := 0;
     fflags := Z.lor SQLITE_UTF8 SQLITE_DETERMINISTIC;
     xfunc := Some example_now_monotonic;
     xstep := None;
     xfinal := None |}.

(** Function [f] is the one looked up under its own name and arity, and
    every other lookup answers as it did on [c]. *)
Definition registers (f : function_def) (c c' : sqlite3) : Prop :=
  forall (n : string) (k : Z),
    find_function n k (functions c')
    = if String.eqb (fname f) n && (nargs f =? k) then Some f
      else find_function n k (functions c).

(** ** Notions for whole runs *)

(** Operation [m] keeps relation [R] between the world it starts in and
    the world it leaves. *)
Definition keeps {A : Type} (R : world -> world -> Prop) (m : M A) : Prop :=
  forall w : world, R w (snd (m w)).

(** The log is only ever appended to. *)
Definition log_grows (w w' : world) : Prop :=
  exists l : list log_entry, log w' = log w ++ l.

(** [m] answers 0 or -1, and with -1 the last line it wrote to the log is
    a [LOG_ERR] line of function [name]. *)
Definition reports (name : string) (m : M Z) : Prop :=
  forall w : world,
    exists l : list log_entry,
      log (snd (m w)) = log w ++ l
      /\ (fst (m w) = 0
          \/ (fst (m w) = -1
              /\ exists (l0 : list log_entry) (e : log_entry),
                   l = l0 ++ [e] /\ prio e = LOG_ERR /\ func e = name)).

(** The connection, if there is one, is memory-resident and offers no
    function but example_agg_f. *)
Definition sealed_conn (c : sqlite3) : Prop :=
  backing c = None
  /\ forall g : function_def, In g (functions c) -> fname g = "example_agg_f".

Definition sealed (w : world) : Prop :=
  match db (example w) with
  | Some c => sealed_conn c
  | None => True
  end.

Definition stays_sealed (w w' : world) : Prop :=
  sealed w -> sealed w' /\ files w' = files w.

(** ** Notions for the devices table *)

(** The rows of table devices already hold device id [id]. *)
Definition device_known (id : string) (rs : list (list value)) : bool :=
  existsb (fun r => value_eqb (nth 0 r VNull) (VText id)) rs.

(** Schema main has the table devices of [example_schema_full], with
    rows [rs]. *)
Definition devices_are (rs : list (list value)) (c : sqlite3) : Prop :=
  find_table "devices" (tables (main_db c))
  = Some {| tdef := devices_table; rows := rs |}.

(** The line [example_device_new] logs when its [sqlite3_step] answers
    [rc]. *)
Definition device_step_line (rc : Z) : log_entry :=
  entry LOG_ERR "example_device_new" "sqlite3_step returned %d: %s" [ArgInt rc].
(** * Properties *)

(** ** Machine integers and the byte image of the accumulator *)

Lemma int_wrap_id (z : Z) : in_int z -> int_wrap z = z.
Proof.
  unfold in_int, INT_MIN, INT_MAX, int_wrap. intros H.
  rewrite Z.mod_small; lia.
Qed.

Lemma int_wrap_in_int (z : Z) : in_int (int_wrap z).
Proof.
  unfold in_int, INT_MIN, INT_MAX, int_wrap.
  pose proof (Z.mod_pos_bound (z + 2147483648) 4294967296). lia.
Qed.

Lemma int_wrap_add_l (a b : Z) : int_wrap (int_wrap a + b) = int_wrap (a + b).
Proof.
  unfold int_wrap. f_equal.
  replace ((a + 2147483648) mod 4294967296 - 2147483648 + b + 2147483648)
    with ((a + 2147483648) mod 4294967296 + b) by lia.
  rewrite Zplus_mod_idemp_l. f_equal. lia.
Qed.

Lemma int_wrap_add_r (a b : Z) : int_wrap (a + int_wrap b) = int_wrap (a + b).
Proof. rewrite (Z.add_comm a), int_wrap_add_l. f_equal. lia. Qed.

Lemma Z_of_byte_of_Z (z : Z) : Z_of_byte (byte_of_Z z) = z mod 256.
Proof.
  unfold Z_of_byte, byte_of_Z.
  pose proof (Z.mod_pos_bound z 256 ltac:(lia)) as Hb.
  destruct (Byte.of_N (Z.to_N (z mod 256))) as [b|] eqn:E.
  - apply Byte.to_of_N in E. rewrite E. lia.
  - apply Byte.of_N_None_iff in E. lia.
Qed.

Lemma load_store_int (z : Z) (rest : list byte) :
  load_int (store_int z ++ rest) = Some (int_wrap z).
Proof.
  unfold store_int, load_int. cbn [app].
  rewrite !Z_of_byte_of_Z. f_equal. unfold int_wrap. f_equal.
  Z.div_mod_to_equations. lia.
Qed.

(** The running sum is read back from offset 4 of the struct's image. *)
Lemma load_aggregate (a : example_agg_f_s) :
  load_int (skipn 4 (example_agg_f_s_bytes a)) = Some (int_wrap (aggregate a)).
Proof.
  unfold example_agg_f_s_bytes. change (store_int (sentinel a)) with
    [byte_of_Z (sentinel a); byte_of_Z (sentinel a / 256);
     byte_of_Z (sentinel a / 65536); byte_of_Z (sentinel a / 16777216)].
  cbn [app skipn]. rewrite <- (app_nil_r (store_int (aggregate a))).
  apply load_store_int.
Qed.

Lemma example_agg_f_s_bytes_length (a : example_agg_f_s) :
  Z.of_nat (List.length (example_agg_f_s_bytes a)) = sizeof_example_agg_f_s.
Proof. reflexivity. Qed.

(** ** The aggregate callbacks *)

Lemma step_initialized (r : ctx_result) (acc : Z) (row : string * Z * Z) :
  example_agg_f_step
    {| agg_mem := Some {| sentinel := EXAMPLE_AGG_F_SENTINEL; aggregate := int_wrap acc |};
       result := r |} (groups_argv row)
  = ({| agg_mem := Some {| sentinel := EXAMPLE_AGG_F_SENTINEL;
                           aggregate := int_wrap (acc + groupid_of row) |};
        result := r |}, []).
Proof.
  destruct row as [[d o] g]. unfold example_agg_f_step, groupid_of.
  cbn -[int_wrap Z.add]. unfold sqlite3_value_int. cbn -[int_wrap Z.add].
  rewrite int_wrap_add_l, int_wrap_add_r. reflexivity.
Qed.

Lemma step_first (row : string * Z * Z) :
  example_agg_f_step new_context (groups_argv row)
  = ({| agg_mem := Some {| sentinel := EXAMPLE_AGG_F_SENTINEL;
                           aggregate := int_wrap (80 + groupid_of row) |};
        result := ResultNone |}, []).
Proof.
  destruct row as [[d o] g]. unfold example_agg_f_step, groupid_of.
  cbn -[int_wrap Z.add]. unfold sqlite3_value_int. cbn -[int_wrap Z.add].
  rewrite int_wrap_add_r. reflexivity.
Qed.

Lemma steps_initialized (rs : list (string * Z * Z)) :
  forall (r : ctx_result) (acc : Z),
    is_error r = false ->
    aggregate_steps example_agg_f_step
      {| agg_mem := Some {| sentinel := EXAMPLE_AGG_F_SENTINEL; aggregate := int_wrap acc |};
         result := r |} (map groups_argv rs)
    = ({| agg_mem := Some {| sentinel := EXAMPLE_AGG_F_SENTINEL;
                             aggregate := int_wrap (acc + sum_groupid rs) |};
          result := r |}, []).
Proof.
  induction rs as [|row rs IH]; intros r acc Hr.
  - cbn -[int_wrap Z.add]. rewrite Z.add_0_r. reflexivity.
  - cbn [map aggregate_steps]. rewrite step_initialized. cbn [result]. rewrite Hr.
    rewrite IH by assumption. cbn [app]. unfold sum_groupid. cbn [map fold_right].
    rewrite Z.add_assoc. reflexivity.
Qed.

(** Whatever the rows of a group, the blob the engine returns for it
    carries 80 plus their group indexes, reduced to an [int]. *)
Lemma finalized_sum_wraps (rs : list (string * Z * Z)) :
  rs <> [] -> finalized_sum rs = Some (int_wrap (80 + sum_groupid rs)).
Proof.
  destruct rs as [|row rs]; [congruence | intros _].
  unfold finalized_sum, aggregate_group, example_agg_f.
  cbn [xstep xfinal map aggregate_steps]. rewrite step_first. cbn [result is_error].
  rewrite steps_initialized by reflexivity. cbn [result is_error app fst].
  unfold example_agg_f_final. cbn [sqlite3_aggregate_context agg_mem sqlite3_result_blob result fst].
  rewrite load_aggregate. cbn [aggregate].
  unfold sum_groupid. cbn [map fold_right]. rewrite Z.add_assoc.
  f_equal. apply int_wrap_id, int_wrap_in_int.
Qed.

Lemma sums_in_int_total (gs : list Z) :
  forall acc, gs <> [] -> sums_in_int acc gs -> in_int (acc + fold_right Z.add 0 gs).
Proof.
  induction gs as [|g gs IH]; intros acc Hne H; [congruence|].
  cbn [sums_in_int] in H. destruct H as (_ & Hg & Hrest). cbn [fold_right].
  destruct gs as [|g' gs'].
  - cbn [fold_right]. rewrite Z.add_0_r. exact Hg.
  - rewrite Z.add_assoc. apply IH; [discriminate | exact Hrest].
Qed.

(** C2, as the code has it: for a group of the aggregate query, after the
    step callback has run once per contributing row and the final callback
    once, the running-sum field of the returned blob is 80 plus the sum of
    the rows' group-index values, provided each group-index value and each
    partial running sum is within the range of a C [int]. *)
Theorem aggregate_sum_in_range :
  forall rs : list (string * Z * Z),
    rs <> [] ->
    sums_in_int 80 (map groupid_of rs) ->
    finalized_sum rs = Some (80 + sum_groupid rs).
Proof.
  intros rs Hne Hsum. rewrite finalized_sum_wraps by assumption.
  f_equal. apply int_wrap_id. apply sums_in_int_total; [|exact Hsum].
  destruct rs; [congruence | discriminate].
Qed.

(** A group with one row whose group index is 5 finalizes to 85. *)
Lemma aggregate_sum_in_range_witness :
  finalized_sum [("012345678901", 0, 5)] = Some 85.
Proof.
  apply (aggregate_sum_in_range [("012345678901", 0, 5)]).
  - discriminate.
  - cbn. unfold in_int, INT_MIN, INT_MAX. lia.
Defined.

(** C2 as stated fails: a single row whose group index is 2^32 reaches the
    callback as 0, and the group finalizes to 80. *)
Lemma aggregate_sum_truncates :
  finalized_sum [("012345678901", 0, 4294967296)] = Some 80
  /\ finalized_sum [("012345678901", 0, 4294967296)]
     <> Some (80 + sum_groupid [("012345678901", 0, 4294967296)]).
Proof.
  split; [reflexivity|]. intros H. vm_compute in H. discriminate H.
Qed.

(** C6: a step call that finds the guard set to something other than the
    sentinel sets an error on the context, logs it, leaves the accumulator
    as it was and stops the group; a first call (guard zero, three
    arguments) sets the guard to the sentinel and starts the sum from the
    baseline 80, to which the row's group index is added. *)
Theorem step_guard_integrity :
  forall (ctx : sqlite3_context) (a : example_agg_f_s) (argv : list value),
    (agg_mem ctx = Some a ->
     sentinel a <> 0 -> sentinel a <> EXAMPLE_AGG_F_SENTINEL ->
     is_error (result (fst (example_agg_f_step ctx argv))) = true
     /\ agg_mem (fst (example_agg_f_step ctx argv)) = Some a
     /\ (exists e, snd (example_agg_f_step ctx argv) = [e] /\ prio e = LOG_ERR)
     /\ forall rest,
          aggregate_steps example_agg_f_step ctx (argv :: rest)
          = example_agg_f_step ctx argv)
    /\ (List.length argv = 3%nat ->
        agg_mem ctx = None \/ (agg_mem ctx = Some a /\ sentinel a = 0) ->
        example_agg_f_step ctx argv
        = ({| agg_mem :=
                Some {| sentinel := EXAMPLE_AGG_F_SENTINEL;
                        aggregate := int_wrap (80 + sqlite3_value_int (nth 2 argv VNull)) |};
              result := result ctx |}, [])).
Proof.
  intros ctx a argv. split.
  - intros Hmem Hnz Hns.
    assert (Hstep :
      is_error (result (fst (example_agg_f_step ctx argv))) = true
      /\ agg_mem (fst (example_agg_f_step ctx argv)) = Some a
      /\ (exists e, snd (example_agg_f_step ctx argv) = [e] /\ prio e = LOG_ERR)).
    { unfold example_agg_f_step.
      destruct (Z.of_nat (List.length argv) =? 3); cbn [negb].
      - unfold sqlite3_aggregate_context. rewrite Hmem.
        destruct (Z.eqb_spec 0 (sentinel a)) as [E|_]; [congruence|].
        destruct (Z.eqb_spec EXAMPLE_AGG_F_SENTINEL (sentinel a)) as [E|_]; [congruence|].
        cbn. repeat split. eexists; split; reflexivity.
      - cbn. repeat split; [assumption|]. eexists; split; reflexivity. }
    destruct Hstep as (He & Hm & Hl). repeat split; try assumption.
    intros rest. cbn [aggregate_steps].
    destruct (example_agg_f_step ctx argv) as [ctx1 l1]. cbn [fst] in He.
    rewrite He. reflexivity.
  - intros Hlen Hfirst. unfold example_agg_f_step. rewrite Hlen. cbn [Z.of_nat Z.eqb Pos.eqb negb Pos.of_succ_nat Pos.succ].
    unfold sqlite3_aggregate_context.
    destruct Hfirst as [Hnone | [Hsome Hz]].
    + rewrite Hnone. cbn -[int_wrap Z.add]. reflexivity.
    + rewrite Hsome. rewrite Hz. cbn -[int_wrap Z.add]. reflexivity.
Qed.

Lemma step_guard_integrity_witness :
  let corrupt := {| agg_mem := Some {| sentinel := 1234; aggregate := 85 |};
                    result := ResultNone |} in
  let argv := [VText "012345678901"; VInt 0; VInt 5] in
  (is_error (result (fst (example_agg_f_step corrupt argv))) = true
   /\ agg_mem (fst (example_agg_f_step corrupt argv))
      = Some {| sentinel := 1234; aggregate := 85 |})
  /\ example_agg_f_step new_context argv
     = ({| agg_mem := Some {| sentinel := 8091; aggregate := 85 |};
           result := ResultNone |}, []).
Proof.
  intros corrupt argv. split.
  - destruct (step_guard_integrity corrupt {| sentinel := 1234; aggregate := 85 |} argv)
      as [H _].
    destruct H as (He & Hm & _); [reflexivity | discriminate | discriminate |].
    split; assumption.
  - destruct (step_guard_integrity new_context {| sentinel := 0; aggregate := 0 |} argv)
      as [_ H].
    rewrite H; [reflexivity | reflexivity | left; reflexivity].
Defined.

(** ** The monotonic timestamp *)

Lemma land_low32 (z : Z) : Z.land z 4294967295 = z mod 4294967296.
Proof. change 4294967295 with (Z.ones 32). rewrite Z.land_ones by lia. reflexivity. Qed.

Lemma lor_shiftl32 (a b : Z) :
  0 <= b < 4294967296 -> Z.lor (Z.shiftl a 32) b = a * 4294967296 + b.
Proof.
  intros Hb.
  assert (Hland : Z.land (Z.shiftl a 32) b = 0).
  { apply Z.bits_inj'. intros n Hn. rewrite Z.land_spec, Z.bits_0.
    destruct (Z.ltb_spec n 32) as [Hlt|Hge].
    - rewrite Z.shiftl_spec_low by assumption. reflexivity.
    - rewrite <- (Z.mod_small b (2 ^ 32)) by (change (2 ^ 32) with 4294967296; lia).
      rewrite Z.mod_pow2_bits_high by lia. apply andb_false_r. }
  rewrite <- Z.lxor_lor by assumption.
  rewrite <- Z.add_nocarry_lxor by assumption.
  rewrite Z.shiftl_mul_pow2 by lia. reflexivity.
Qed.

(** The packed word: low 32 bits of the seconds in the high half, low 32
    bits of the nanoseconds in the low half. *)
Lemma now_monotonic_time_packs (tp : timespec) :
  now_monotonic_time tp
  = (tv_sec tp mod 4294967296) * 4294967296 + tv_nsec tp mod 4294967296.
Proof.
  unfold now_monotonic_time, uint64_wrap. rewrite !land_low32.
  pose proof (Z.mod_pos_bound (tv_sec tp) 4294967296 ltac:(lia)) as Hs.
  pose proof (Z.mod_pos_bound (tv_nsec tp) 4294967296 ltac:(lia)) as Hn.
  rewrite (Z.mod_small (tv_sec tp mod 4294967296)) by lia.
  assert (Hsh : Z.shiftl (tv_sec tp mod 4294967296) 32
                = tv_sec tp mod 4294967296 * 4294967296).
  { rewrite Z.shiftl_mul_pow2 by lia. reflexivity. }
  rewrite (Z.mod_small (Z.shiftl _ 32)) by (rewrite Hsh; lia).
  rewrite lor_shiftl32 by assumption.
  apply Z.mod_small. lia.
Qed.

Lemma now_monotonic_value_eq (tp : timespec) :
  now_monotonic_value tp = Some (int64_wrap (now_monotonic_time tp)).
Proof. reflexivity. Qed.

(** C4, as the code has it: the timestamp function packs the low 32 bits
    of the seconds into the high half of a 64-bit word and the low 32 bits
    of the nanoseconds into the low half; for two readings in clock order
    whose seconds lie in [0, 2^32) the packed word does not decrease, and
    when the seconds lie in [0, 2^31) neither does the signed 64-bit integer
    the function returns, which is then the packed word itself. *)
Theorem now_monotonic_nondecreasing :
  forall tp1 tp2 : timespec,
    0 <= tv_nsec tp1 < 1000000000 ->
    0 <= tv_nsec tp2 < 1000000000 ->
    0 <= tv_sec tp1 ->
    timespec_le tp1 tp2 ->
    now_monotonic_time tp1
    = (tv_sec tp1 mod 4294967296) * 4294967296 + tv_nsec tp1 mod 4294967296
    /\ (tv_sec tp2 < 4294967296 -> now_monotonic_time tp1 <= now_monotonic_time tp2)
    /\ (tv_sec tp2 < 2147483648 ->
        exists v1 v2,
          now_monotonic_value tp1 = Some v1 /\ now_monotonic_value tp2 = Some v2
          /\ v1 = now_monotonic_time tp1 /\ v2 = now_monotonic_time tp2
          /\ v1 <= v2).
Proof.
  intros tp1 tp2 Hn1 Hn2 Hs1 Hle.
  assert (Hs12 : tv_sec tp1 <= tv_sec tp2) by (unfold timespec_le in Hle; lia).
  assert (Hmono : tv_sec tp2 < 4294967296 ->
                  now_monotonic_time tp1 <= now_monotonic_time tp2).
  { intros Hs2. rewrite !now_monotonic_time_packs.
    rewrite !Z.mod_small by lia. unfold timespec_le in Hle. lia. }
  split; [apply now_monotonic_time_packs|]. split; [exact Hmono|].
  intros Hs2. exists (now_monotonic_time tp1), (now_monotonic_time tp2).
  rewrite !now_monotonic_value_eq.
  assert (Hsmall : forall tp, 0 <= tv_sec tp < 2147483648 -> 0 <= tv_nsec tp < 1000000000 ->
                   int64_wrap (now_monotonic_time tp) = now_monotonic_time tp).
  { intros tp Hs Hn. rewrite now_monotonic_time_packs. rewrite !Z.mod_small by lia.
    unfold int64_wrap. rewrite Z.mod_small; lia. }
  rewrite !Hsmall by lia.
  repeat split; try reflexivity. apply Hmono. lia.
Qed.

Lemma now_monotonic_nondecreasing_witness :
  now_monotonic_time {| tv_sec := 100; tv_nsec := 999999999 |}
  <= now_monotonic_time {| tv_sec := 101; tv_nsec := 0 |}.
Proof.
  apply (now_monotonic_nondecreasing
           {| tv_sec := 100; tv_nsec := 999999999 |} {| tv_sec := 101; tv_nsec := 0 |});
    cbn [tv_sec tv_nsec]; unfold timespec_le; cbn [tv_sec tv_nsec]; lia.
Defined.

(** C4 as stated fails once the seconds outgrow 32 bits: the reading
    (2^32, 0) comes after (2^31 - 1, 0) and yet returns the smaller value,
    as a signed integer and as an unsigned word. *)
Lemma now_monotonic_rolls_over :
  let tp1 := {| tv_sec := 2147483647; tv_nsec := 0 |} in
  let tp2 := {| tv_sec := 4294967296; tv_nsec := 0 |} in
  timespec_le tp1 tp2
  /\ now_monotonic_value tp1 = Some 9223372032559808512
  /\ now_monotonic_value tp2 = Some 0
  /\ ~ (9223372032559808512 <= 0)
  /\ ~ (now_monotonic_time tp1 <= now_monotonic_time tp2).
Proof.
  cbv zeta. unfold timespec_le. cbn [tv_sec tv_nsec].
  split; [lia|]. split; [reflexivity|]. split; [reflexivity|]. split; [lia|].
  vm_compute. intros H. apply H. reflexivity.
Qed.

(** ** Serialization *)

(** C9: [example_serialize] fails exactly when the engine reports the
    length -1 and succeeds otherwise, printing the length it was given; a
    database the engine did serialize, an empty one included, has a
    non-negative length and is a success. *)
Theorem serialize_failure_detection :
  forall (image : database -> list byte) (w : world),
    let '((buf, db_len), _) := sqlite3_serialize image "main" 0 w in
    let '(ret, w') := example_serialize image w in
    (ret = -1 <-> db_len = -1)
    /\ (ret = 0 <-> db_len <> -1)
    /\ (db_len <> -1 -> stdout w' = stdout w ++ [("db_len=%lld", db_len)])
    /\ (db_len = -1 -> stdout w' = stdout w)
    /\ (forall b, buf = Some b ->
          db_len = Z.of_nat (List.length b) /\ 0 <= db_len /\ ret = 0).
Proof.
  intros image w. unfold example_serialize, bind.
  assert (Hout : stdout (snd (sqlite3_serialize image "main" 0 w)) = stdout w
                 /\ forall b, fst (fst (sqlite3_serialize image "main" 0 w)) = Some b ->
                      snd (fst (sqlite3_serialize image "main" 0 w))
                      = Z.of_nat (List.length b)).
  { unfold sqlite3_serialize, bind, inject.
    destruct (faults w) as [|f fl].
    - cbn. destruct (db (example w)) as [c|]; cbn; [|split; [reflexivity | discriminate]].
      split; [reflexivity|]. intros b Hb. congruence.
    - destruct (negb (f =? SQLITE_OK)); cbn; [split; [reflexivity | discriminate]|].
      destruct (db (example w)) as [c|]; cbn; [|split; [reflexivity | discriminate]].
      split; [reflexivity|]. intros b Hb. congruence. }
  destruct (sqlite3_serialize image "main" 0 w) as [[buf db_len] w1].
  cbn [fst snd] in Hout. destruct Hout as [Hstd Hbuf].
  destruct (Z.eqb_spec (-1) db_len) as [E|E]; cbn.
  - subst db_len.
    split; [split; intros; lia|]. split; [split; intros; lia|].
    split; [intros; lia|]. split; [intros; exact Hstd|].
    intros b Hb. apply Hbuf in Hb. lia.
  - rewrite Hstd.
    split; [split; intros; lia|]. split; [split; intros; congruence|].
    split; [intros; reflexivity|]. split; [intros; lia|].
    intros b Hb. apply Hbuf in Hb. lia.
Qed.

(** With the engine failing the call, the function fails and prints
    nothing; on the initialised program it reports the image's length. *)
Example serialize_fault :
  let w := set_faults [7] ready_world in
  fst (example_serialize (fun _ => []) w) = -1
  /\ stdout (snd (example_serialize (fun _ => []) w)) = [].
Proof. split; reflexivity. Qed.

Example serialize_empty_image :
  fst (example_serialize (fun _ => []) ready_world) = 0
  /\ stdout (snd (example_serialize (fun _ => []) ready_world)) = [("db_len=%lld", 0)].
Proof. split; reflexivity. Qed.

(** ** Schema migration *)

Lemma find_table_app (n : string) (ts : list table) (t : table) :
  find_table n (ts ++ [t])
  = match find_table n ts with
    | Some u => Some u
    | None => if String.eqb (tname (tdef t)) n then Some t else None
    end.
Proof.
  induction ts as [|u ts IH]; cbn [app find_table]; [reflexivity|].
  destruct (String.eqb (tname (tdef u)) n); [reflexivity | exact IH].
Qed.

Ltac run_version_read Hint :=
  unfold example_init_schema_migration, bind, sqlite3_prepare_v3, inject, bind;
  cbn -[int_wrap example_schema_full];
  rewrite ?Nat.eqb_refl; cbn -[int_wrap example_schema_full];
  rewrite ?Nat.eqb_refl;
  unfold sqlite3_column_int, sqlite3_finalize, bind, inject, current_row, sqlite3_value_int;
  cbn -[int_wrap example_schema_full];
  rewrite ?Nat.eqb_refl; cbn -[int_wrap example_schema_full];
  rewrite (int_wrap_id _ Hint).

(** C1, as the code has it: [example_init_schema_migration] dispatches
    on the version marker it reads.  With marker 0 (on a store that has none of the three tables
    and no open transaction) the whole of [example_schema_full], one
    [begin] ... [commit] batch, is applied: the devices, outputs and groups
    tables are added with their constraints, the marker becomes 1 and the
    function returns 0.  With marker 1 it returns 0 and changes nothing
    stored.  With any other marker it returns -1, logs that the schema is
    too new, and changes nothing stored. *)
Theorem schema_version_dispatch :
  forall (w : world) (c : sqlite3),
    db (example w) = Some c ->
    faults w = [] ->
    in_int (user_version (main_db c)) ->
    let v := user_version (main_db c) in
    (v = 0 ->
     autocommit c = true ->
     (forall t, In t fresh_tables ->
                find_table (tname (tdef t)) (tables (main_db c)) = None) ->
     let (ret, w') := example_init_schema_migration w in
     ret = 0
     /\ (exists body, example_schema_full = SqlBegin :: body ++ [SqlCommit]
                      /\ existsb transaction_control body = false)
     /\ exists c',
          db (example w') = Some c'
          /\ main_db c' = {| user_version := 1;
                             tables := tables (main_db c) ++ fresh_tables |}
          /\ autocommit c' = true
          /\ attached c' = attached c
          /\ files w' = match backing c with
                        | Some p => write_file p (main_db c') (files w)
                        | None => files w
                        end)
    /\ (v = 1 ->
        let (ret, w') := example_init_schema_migration w in
        ret = 0 /\ same_store w w' /\ log w' = log w)
    /\ (v <> 0 -> v <> 1 ->
        let (ret, w') := example_init_schema_migration w in
        ret = -1 /\ same_store w w'
        /\ log w' = log w ++ [entry LOG_ERR "example_init_schema_migration"
                                    "sqlite3 schema version is too new; giving up" []]).
Proof.
  intros w c Hdb Hfl Hint v.
  destruct w as [[sent dbo] fs lg out fl]. cbn in Hdb, Hfl. subst dbo fl.
  destruct c as [bk md att ac fk fns sts nx]. cbn in Hint, v.
  cbn [autocommit main_db attached backing files log].
  split; [|split].
  - intros Hv Hac Htab. subst v ac.
    assert (Hd : find_table "devices" (tables md) = None)
      by (apply (Htab {| tdef := devices_table; rows := [] |}); cbn; tauto).
    assert (Ho : find_table "outputs" (tables md) = None)
      by (apply (Htab {| tdef := outputs_table; rows := [] |}); cbn; tauto).
    assert (Hg : find_table "groups" (tables md) = None)
      by (apply (Htab {| tdef := groups_table; rows := [] |}); cbn; tauto).
    destruct bk as [p|].
    all: run_version_read Hint; rewrite Hv.
    all: unfold example_init_schema_migration_full, sqlite3_exec, bind, inject.
    all: cbn -[int_wrap].
    all: rewrite Hd; cbn -[int_wrap].
    all: rewrite find_table_app, Ho; cbn -[int_wrap].
    all: rewrite !find_table_app, Hg; cbn -[int_wrap].
    all: (split; [reflexivity|]).
    all: (split; [exists [SqlCreateTable "main" devices_table;
                          SqlCreateTable "main" outputs_table;
                          SqlCreateTable "main" groups_table;
                          SqlPragmaSetUserVersion 1]; split; reflexivity|]).
    all: eexists; (split; [reflexivity|]).
    all: cbn; rewrite <- !app_assoc; repeat split; reflexivity.
  - intros Hv. subst v.
    destruct bk as [p|].
    all: run_version_read Hint; rewrite Hv; cbn.
    all: unfold same_store; cbn; rewrite ?app_nil_r; repeat split; reflexivity.
  - intros Hv0 Hv1. subst v.
    destruct bk as [p|].
    all: run_version_read Hint.
    all: destruct (user_version md) as [|[q|q|]|q]; try congruence.
    all: cbn; unfold same_store; cbn; rewrite ?app_nil_r; repeat split; reflexivity.
Qed.

Lemma schema_version_dispatch_witness :
  let w := set_db (Some (new_connection None empty_database)) (initial_world [] []) in
  fst (example_init_schema_migration w) = 0.
Proof.
  intros w.
  destruct (schema_version_dispatch w (new_connection None empty_database)) as [H0 _].
  - reflexivity.
  - reflexivity.
  - unfold in_int, INT_MIN, INT_MAX. cbn. lia.
  - destruct (example_init_schema_migration w) as [ret w'].
    apply H0.
    + reflexivity.
    + reflexivity.
    + intros t _. reflexivity.
Defined.

(** C1 as stated fails: a store whose marker reads 0 is not always
    migrated.  When table devices is already there the batch stops at its
    first [create table]: the function returns -1, the marker stays 0 and
    the connection is left inside the transaction the batch opened.  So
    marker 0 does not by itself give success. *)
Lemma marker_zero_migration_fails :
  let d := {| user_version := 0;
              tables := [{| tdef := devices_table; rows := [] |}] |} in
  let w := set_db (Some (new_connection None d)) (initial_world [] []) in
  (fst (example_init_schema_migration w) = -1
   /\ option_map main_db (db (example (snd (example_init_schema_migration w)))) = Some d
   /\ option_map autocommit (db (example (snd (example_init_schema_migration w))))
      = Some false)
  /\ ~ (forall (w : world) (c : sqlite3),
           db (example w) = Some c ->
           faults w = [] ->
           user_version (main_db c) = 0 ->
           fst (example_init_schema_migration w) = 0).
Proof.
  intros d w. split; [repeat split; reflexivity|].
  intros H. specialize (H w (new_connection None d) eq_refl eq_refl eq_refl).
  vm_compute in H. discriminate H.
Qed.

(** Initialising a fresh store and then the migrated store again both
    succeed and leave the marker at 1; a store marked 7 is refused and left
    as it was. *)
Example migration_twice :
  let w0 := set_db (Some (new_connection None empty_database)) (initial_world [] []) in
  let w1 := snd (example_init_schema_migration w0) in
  let w2 := snd (example_init_schema_migration w1) in
  fst (example_init_schema_migration w1) = 0
  /\ option_map (fun c => user_version (main_db c)) (db (example w1)) = Some 1
  /\ option_map main_db (db (example w2)) = option_map main_db (db (example w1)).
Proof. repeat split; reflexivity. Qed.

Example migration_too_new :
  let d := {| user_version := 7; tables := [] |} in
  let w := set_db (Some (new_connection None d)) (initial_world [] []) in
  fst (example_init_schema_migration w) = -1
  /\ option_map main_db (db (example (snd (example_init_schema_migration w)))) = Some d.
Proof. split; reflexivity. Qed.

(** ** Statements: what a step leaves behind *)

Lemma find_stmt_id (l : list sqlite3_stmt) (id : nat) (st : sqlite3_stmt) :
  find_stmt id l = Some st -> stmt_id st = id.
Proof.
  induction l as [|u l IH]; cbn [find_stmt]; [discriminate|].
  destruct (Nat.eqb_spec (stmt_id u) id) as [E|E].
  - intros H. injection H as <-. exact E.
  - exact IH.
Qed.

Lemma find_update_stmt (l : list sqlite3_stmt) (id : nat) (st0 st : sqlite3_stmt) :
  find_stmt id l = Some st0 -> stmt_id st = id ->
  find_stmt id (update_stmt st l) = Some st.
Proof.
  intros Hfind Hid. induction l as [|u l IH]; cbn [find_stmt] in Hfind; [discriminate|].
  cbn [update_stmt]. rewrite Hid.
  destruct (Nat.eqb_spec (stmt_id u) id) as [E|E].
  - cbn [find_stmt]. rewrite Hid, Nat.eqb_refl. reflexivity.
  - cbn [find_stmt]. destruct (Nat.eqb_spec (stmt_id u) id); [contradiction|].
    apply IH. exact Hfind.
Qed.

Lemma set_schema_stmts (n : string) (d : database) (c : sqlite3) :
  stmts (set_schema n d c) = stmts c.
Proof. unfold set_schema. destruct (String.eqb n "main"); reflexivity. Qed.

Lemma insert_row_stmts (tbl : string) (cols : list string) (b : list (Z * value))
  (c c' : sqlite3) :
  insert_row tbl cols b c = Some c' -> stmts c' = stmts c.
Proof.
  unfold insert_row. destruct (resolve_table tbl c) as [[[sch d] t]|]; [|discriminate].
  match goal with |- (if ?g then _ else _) = _ -> _ => destruct g end; [|discriminate].
  intros H. injection H as <-. apply set_schema_stmts.
Qed.

Lemma apply_sql_stmts (s : sql) (c : sqlite3) : stmts (snd (apply_sql s c)) = stmts c.
Proof.
  destruct s; cbn [apply_sql]; try reflexivity.
  - destruct (autocommit c); reflexivity.
  - destruct (autocommit c); reflexivity.
  - destruct (get_schema schema c) as [d|]; [|reflexivity].
    destruct (find_table (tname def) (tables d)); [reflexivity|].
    cbn [snd]. apply set_schema_stmts.
  - destruct (autocommit c); reflexivity.
  - destruct (String.eqb alias "main" || String.eqb alias "temp"); [reflexivity|].
    destruct (find_attached alias (attached c)); reflexivity.
Qed.

Lemma open_cursor_stmts (s : sql) (b : list (Z * value)) (c : sqlite3) :
  stmts (snd (open_cursor s b c)) = stmts c.
Proof.
  destruct s;
    try (unfold open_cursor;
         match goal with
         | |- context [apply_sql ?s c] =>
             pose proof (apply_sql_stmts s c) as H;
             destruct (apply_sql s c) as [rc c']; exact H
         end).
  - reflexivity.
  - cbn [open_cursor]. destruct (insert_row tbl cols b c) as [c'|] eqn:E; [|reflexivity].
    cbn [snd]. eapply insert_row_stmts. exact E.
  - cbn [open_cursor]. destruct (resolve_table tbl c) as [[[sch d] t]|]; [|reflexivity].
    destruct (find_function fn _ (functions c)); [|reflexivity].
    destruct (column_indexes fargs (columns (tdef t))); [|reflexivity].
    destruct (column_index group_by (columns (tdef t))); reflexivity.
Qed.

Lemma steps_of_store_conn (id : nat) (s : sql) (c : sqlite3) (w : world) :
  steps_of id (store_conn s c w)
  = match find_stmt id (stmts c) with
    | Some st => history st
    | None => []
    end.
Proof.
  unfold store_conn. destruct (backing c); [destruct (writes s && autocommit c)|];
    reflexivity.
Qed.

Lemma steps_of_add_log (id : nat) (l : list log_entry) (w : world) :
  steps_of id (add_log l w) = steps_of id w.
Proof. reflexivity. Qed.

(** A step on a live statement puts the code it returns in front of the
    statement's history; on anything else it answers [SQLITE_MISUSE] and
    records nothing. *)
Lemma sqlite3_step_history (id : nat) (w : world) :
  steps_of id (snd (sqlite3_step id w))
  = fst (sqlite3_step id w) :: steps_of id w
  \/ (fst (sqlite3_step id w) = SQLITE_MISUSE
      /\ steps_of id (snd (sqlite3_step id w)) = steps_of id w).
Proof.
  unfold sqlite3_step, bind.
  assert (Hinj : example (snd (inject w)) = example w).
  { unfold inject. destruct (faults w); reflexivity. }
  destruct (inject w) as [f w0]. cbn [snd] in Hinj.
  unfold steps_of at 2 4. rewrite <- Hinj.
  destruct (db (example w0)) as [c|] eqn:Hdb.
  2:{ right. split; [reflexivity|]. unfold steps_of. cbn [snd]. rewrite Hdb. reflexivity. }
  destruct (find_stmt id (stmts c)) as [st|] eqn:Hfind.
  2:{ right. split; [reflexivity|]. unfold steps_of. cbn [snd]. rewrite Hdb, Hfind.
      reflexivity. }
  left. pose proof (find_stmt_id _ _ _ Hfind) as Hid.
  destruct (negb (f =? SQLITE_OK)).
  - cbn [fst snd]. unfold steps_of. cbn.
    erewrite find_update_stmt; [reflexivity | exact Hfind | exact Hid].
  - pose proof (open_cursor_stmts (stmt_sql st) (bound st) c) as Hoc.
    destruct (pending st) as [q|].
    + destruct q as [|it rest].
      * cbn [fst snd]. rewrite steps_of_add_log, steps_of_store_conn. cbn [stmts set_stmts].
        erewrite find_update_stmt; [reflexivity | exact Hfind | exact Hid].
      * destruct (deliver it) as [[r|e] lg]; cbn [fst snd];
          rewrite steps_of_add_log, steps_of_store_conn; cbn [stmts set_stmts];
          (erewrite find_update_stmt; [reflexivity | exact Hfind | exact Hid]).
    + destruct (open_cursor (stmt_sql st) (bound st) c) as [q c1]. cbn [snd] in Hoc.
      destruct q as [|it rest].
      * cbn [fst snd]. rewrite steps_of_add_log, steps_of_store_conn. cbn [stmts set_stmts]. rewrite Hoc.
        erewrite find_update_stmt; [reflexivity | exact Hfind | exact Hid].
      * destruct (deliver it) as [[r|e] lg]; cbn [fst snd];
          rewrite steps_of_add_log, steps_of_store_conn; cbn [stmts set_stmts]; rewrite Hoc;
          (erewrite find_update_stmt; [reflexivity | exact Hfind | exact Hid]).
Qed.

(** ** The bounded loop of the aggregate query *)

Lemma hd_error_app_last (l : list Z) (x : Z) :
  hd_error (l ++ [x]) = match l with
                        | [] => Some x
                        | y :: _ => Some y
                        end.
Proof. destruct l; reflexivity. Qed.

(** The loop with [n] iterations left makes at most [n] steps; it is left
    with [SQLITE_DONE] only when the last step returned it, by [return -1]
    only on a step that returned neither a row nor done, and otherwise
    only after [n] steps that all returned a row. *)
Lemma loop_history (n : nat) :
  forall (id : nat) (ret : Z) (w : world),
    ret <> SQLITE_DONE ->
    exists new : list Z,
      steps_of id (snd (example_custom_aggregate_query_loop n id ret w))
      = new ++ steps_of id w
      /\ (List.length new <= n)%nat
      /\ match fst (example_custom_aggregate_query_loop n id ret w) with
         | inl v => v = -1 /\ hd_error new <> Some SQLITE_DONE
         | inr x =>
             (x = SQLITE_DONE /\ hd_error new = Some SQLITE_DONE)
             \/ (x <> SQLITE_DONE /\ List.length new = n /\ Forall (eq SQLITE_ROW) new)
         end.
Proof.
  induction n as [|n IH]; intros id ret w Hret.
  - exists []. cbn. split; [reflexivity|]. split; [lia|]. right. auto.
  - cbn [example_custom_aggregate_query_loop]. unfold bind.
    pose proof (sqlite3_step_history id w) as Hstep.
    destruct (sqlite3_step id w) as [rc w1]. cbn [fst snd] in Hstep.
    destruct (Z.eqb_spec SQLITE_DONE rc) as [Hdone|Hnd].
    + (* break *)
      cbn [Return fst snd]. subst rc.
      destruct Hstep as [Hrec | [Hmis _]]; [|cbv in Hmis; discriminate Hmis].
      exists [SQLITE_DONE]. split; [exact Hrec|]. split; [cbn; lia|]. left. auto.
    + destruct (Z.eqb_spec SQLITE_ROW rc) as [Hrow|Hnr]; cbn [negb].
      * (* a row: decode, log, next iteration *)
        subst rc. destruct Hstep as [Hrec | [Hmis _]]; [|cbv in Hmis; discriminate Hmis].
        unfold sqlite3_column_blob, syslog. cbv beta iota.
        match goal with
        | |- context [example_custom_aggregate_query_loop n id SQLITE_ROW ?w2] =>
            destruct (IH id SQLITE_ROW w2 ltac:(cbv; discriminate)) as (new & Hnew & Hlen & Hres);
            rewrite steps_of_add_log, Hrec in Hnew
        end.
        exists (new ++ [SQLITE_ROW]). rewrite <- app_assoc. cbn [app].
        split; [exact Hnew|]. split; [rewrite length_app; cbn; lia|].
        revert Hres.
        match goal with
        | |- context [fst ?t] => destruct (fst t) as [v|x]
        end; intros Hres.
        -- destruct Hres as [Hv Hhd]. split; [exact Hv|].
           rewrite hd_error_app_last. destruct new; [discriminate | exact Hhd].
        -- destruct Hres as [[Hx Hhd] | (Hx & Hl & Hall)].
           ++ left. split; [exact Hx|]. rewrite hd_error_app_last.
              destruct new; [discriminate Hhd | exact Hhd].
           ++ right. split; [exact Hx|]. split; [rewrite length_app; cbn; lia|].
              apply Forall_app. split; [exact Hall | repeat constructor].
      * (* any other code: return -1 *)
        unfold syslog. cbn [Return fst snd]. rewrite steps_of_add_log.
        destruct Hstep as [Hrec | [_ Hsame]].
        -- exists [rc]. split; [exact Hrec|]. split; [cbn; lia|].
           split; [reflexivity|]. cbn. intros H. injection H as H. congruence.
        -- exists []. split; [exact Hsame|]. split; [cbn; lia|].
           split; [reflexivity | discriminate].
Qed.

(** C5: the row loop of [example_custom_aggregate_query] steps the
    statement it prepared at most [EXAMPLE_MAX_QUERY_LOOP_STEPS] times;
    the function returns 0 exactly when the last step reported
    [SQLITE_DONE], and returns -1 whenever it did not, in particular when
    the cap was reached on a row. *)
Theorem bounded_iteration_guard :
  forall (w : world) (c : sqlite3),
    db (example w) = Some c ->
    find_stmt (next_stmt c) (stmts c) = None ->
    let id := next_stmt c in
    let (ret, w') := example_custom_aggregate_query w in
    (ret = 0 \/ ret = -1)
    /\ Z.of_nat (List.length (steps_of id w')) <= EXAMPLE_MAX_QUERY_LOOP_STEPS
    /\ (ret = 0 <-> hd_error (steps_of id w') = Some SQLITE_DONE)
    /\ (hd_error (steps_of id w') <> Some SQLITE_DONE -> ret = -1).
Proof.
  intros w c Hdb Hfresh id.
  assert (Hcap : Z.of_nat (Z.to_nat EXAMPLE_MAX_QUERY_LOOP_STEPS)
                 = EXAMPLE_MAX_QUERY_LOOP_STEPS)
    by (apply Z2Nat.id; unfold EXAMPLE_MAX_QUERY_LOOP_STEPS; lia).
  assert (Hold : steps_of id w = []).
  { unfold steps_of. rewrite Hdb. subst id. rewrite Hfresh. reflexivity. }
  assert (Hfail : forall w0 : world,
             steps_of id w0 = [] ->
             (-1 = 0 \/ -1 = -1)
             /\ Z.of_nat (List.length (steps_of id w0)) <= EXAMPLE_MAX_QUERY_LOOP_STEPS
             /\ (-1 = 0 <-> hd_error (steps_of id w0) = Some SQLITE_DONE)
             /\ (hd_error (steps_of id w0) <> Some SQLITE_DONE -> -1 = -1)).
  { intros w0 H0. rewrite H0. cbn. unfold EXAMPLE_MAX_QUERY_LOOP_STEPS.
    repeat split; try lia; try discriminate. }
  unfold example_custom_aggregate_query, bind at 1.
  fold aggregate_select.
  assert (Hprep :
    (fst (fst (sqlite3_prepare_v3 aggregate_select SQLITE_PREPARE_NORMALIZE w)) <> SQLITE_OK
     /\ steps_of id (snd (sqlite3_prepare_v3 aggregate_select SQLITE_PREPARE_NORMALIZE w)) = [])
    \/ (fst (sqlite3_prepare_v3 aggregate_select SQLITE_PREPARE_NORMALIZE w)
        = (SQLITE_OK, id)
        /\ steps_of id (snd (sqlite3_prepare_v3 aggregate_select SQLITE_PREPARE_NORMALIZE w))
           = [])).
  { unfold sqlite3_prepare_v3, bind, inject.
    destruct (faults w) as [|f fl].
    - cbn [negb Z.eqb SQLITE_OK]. rewrite Hdb.
      destruct (compiles aggregate_select c).
      + right. split; [reflexivity|]. unfold steps_of. cbn. subst id.
        rewrite Nat.eqb_refl. reflexivity.
      + left. split; [discriminate | exact Hold].
    - destruct (Z.eqb_spec f SQLITE_OK) as [E|E]; cbn [negb].
      + change (db (example (set_faults fl w))) with (db (example w)). rewrite Hdb.
        destruct (compiles aggregate_select c).
        * right. split; [reflexivity|]. unfold steps_of. cbn. subst id.
          rewrite Nat.eqb_refl. reflexivity.
        * left. split; [discriminate | exact Hold].
      + left. split; [exact E | exact Hold]. }
  destruct (sqlite3_prepare_v3 aggregate_select SQLITE_PREPARE_NORMALIZE w)
    as [[rc stmt] w1].
  cbn [fst snd] in Hprep. destruct Hprep as [[Hrc H1] | [Hrc H1]].
  - destruct (Z.eqb_spec SQLITE_OK rc) as [E|_]; [congruence|]. cbn [negb].
    unfold bind, syslog, Return. apply Hfail. rewrite steps_of_add_log. exact H1.
  - injection Hrc as -> ->. cbn [Z.eqb SQLITE_OK negb]. unfold bind at 1.
    destruct (loop_history (Z.to_nat EXAMPLE_MAX_QUERY_LOOP_STEPS) id SQLITE_OK w1
                ltac:(cbv; discriminate)) as (new & Hnew & Hlen & Hres).
    rewrite H1, app_nil_r in Hnew.
    destruct (example_custom_aggregate_query_loop
                (Z.to_nat EXAMPLE_MAX_QUERY_LOOP_STEPS) id SQLITE_OK w1) as [r w2].
    cbn [fst snd] in Hnew, Hres. destruct r as [v|x].
    + destruct Hres as [-> Hhd]. unfold Return. rewrite Hnew.
      split; [right; reflexivity|]. split; [lia|].
      split; [split; [discriminate | intros H; contradiction]|]. reflexivity.
    + destruct Hres as [[-> Hhd] | (Hx & Hl & Hall)].
      * cbn [Z.eqb SQLITE_DONE Pos.eqb negb]. unfold Return. rewrite Hnew.
        split; [left; reflexivity|]. split; [lia|].
        split; [split; [intros _; exact Hhd | reflexivity]|].
        intros H. contradiction.
      * destruct (Z.eqb_spec SQLITE_DONE x) as [E|_]; [congruence|]. cbn [negb].
        unfold bind, syslog, Return. rewrite steps_of_add_log, Hnew.
        split; [right; reflexivity|]. split; [lia|].
        assert (Hhd : hd_error new <> Some SQLITE_DONE).
        { destruct Hall as [|y l Hy _]; [discriminate|]. cbn. subst y. discriminate. }
        split; [split; [discriminate | intros H; contradiction]|]. reflexivity.
Qed.

Lemma conn_of_some (w : world) :
  match db (example w) with Some _ => true | None => false end = true ->
  db (example w) = Some (conn_of w).
Proof. unfold conn_of. destruct (db (example w)); [reflexivity | discriminate]. Qed.

Lemma bounded_iteration_guard_witness :
  fst (example_custom_aggregate_query ready_world) = 0
  <-> hd_error (steps_of (next_stmt ready_conn)
                         (snd (example_custom_aggregate_query ready_world)))
      = Some SQLITE_DONE.
Proof.
  assert (Hdb : db (example ready_world) = Some ready_conn)
    by (apply conn_of_some; vm_compute; reflexivity).
  assert (Hfresh : find_stmt (next_stmt ready_conn) (stmts ready_conn) = None)
    by (vm_compute; reflexivity).
  pose proof (bounded_iteration_guard ready_world ready_conn Hdb Hfresh) as H.
  cbv zeta in H.
  destruct (example_custom_aggregate_query ready_world) as [ret w'].
  apply H.
Defined.

(** ** Rows of the aggregate query *)

Lemma store_conn_db (s : sql) (c : sqlite3) (w : world) :
  db (example (store_conn s c w)) = Some c.
Proof.
  unfold store_conn. destruct (backing c); [destruct (writes s && autocommit c)|];
    reflexivity.
Qed.

Lemma store_conn_faults (s : sql) (c : sqlite3) (w : world) :
  faults (store_conn s c w) = faults w.
Proof.
  unfold store_conn. destruct (backing c); [destruct (writes s && autocommit c)|];
    reflexivity.
Qed.

Lemma store_conn_log (s : sql) (c : sqlite3) (w : world) :
  log (store_conn s c w) = log w.
Proof.
  unfold store_conn. destruct (backing c); [destruct (writes s && autocommit c)|];
    reflexivity.
Qed.

Lemma add_log_faults (l : list log_entry) (w : world) : faults (add_log l w) = faults w.
Proof. reflexivity. Qed.

Lemma add_log_db (l : list log_entry) (w : world) :
  db (example (add_log l w)) = db (example w).
Proof. reflexivity. Qed.

Lemma add_log_log (l : list log_entry) (w : world) : log (add_log l w) = log w ++ l.
Proof. reflexivity. Qed.

(** A step with a row at the head of the cursor. *)
Lemma sqlite3_step_row (id : nat) (w : world) (it : cursor_item)
  (rest : list cursor_item) (b : list byte) :
  faults w = [] ->
  statement_at id w (it :: rest) ->
  delivers_blob it b ->
  exists w1,
    sqlite3_step id w = (SQLITE_ROW, w1)
    /\ faults w1 = []
    /\ log w1 = log w
    /\ current_row id w1 = [VBlob b]
    /\ statement_at id w1 rest.
Proof.
  intros Hfl (c & st & Hdb & Hfind & Hcur) [Hdel Hne].
  unfold sqlite3_step, bind, inject. rewrite Hfl, Hdb, Hfind.
  cbn [negb Z.eqb SQLITE_OK]. unfold cursor_of in Hcur. rewrite Hcur, Hdel.
  eexists. split; [reflexivity|].
  pose proof (find_stmt_id _ _ _ Hfind) as Hid.
  split; [rewrite add_log_faults, store_conn_faults; exact Hfl|].
  split; [rewrite add_log_log, store_conn_log; apply app_nil_r|].
  split.
  - unfold current_row. rewrite add_log_db, store_conn_db. cbn [stmts set_stmts].
    erewrite find_update_stmt; [reflexivity | exact Hfind | exact Hid].
  - eexists. eexists. rewrite add_log_db, store_conn_db.
    split; [reflexivity|]. cbn [stmts set_stmts].
    split; [eapply find_update_stmt; [exact Hfind | exact Hid]|]. reflexivity.
Qed.

(** A step at the end of the cursor. *)
Lemma sqlite3_step_done (id : nat) (w : world) :
  faults w = [] ->
  statement_at id w [] ->
  exists w1,
    sqlite3_step id w = (SQLITE_DONE, w1)
    /\ faults w1 = [] /\ log w1 = log w /\ statement_at id w1 [].
Proof.
  intros Hfl (c & st & Hdb & Hfind & Hcur).
  unfold sqlite3_step, bind, inject. rewrite Hfl, Hdb, Hfind.
  cbn [negb Z.eqb SQLITE_OK]. unfold cursor_of in Hcur. rewrite Hcur.
  eexists. split; [reflexivity|].
  pose proof (find_stmt_id _ _ _ Hfind) as Hid.
  split; [rewrite add_log_faults, store_conn_faults; exact Hfl|].
  split; [rewrite add_log_log, store_conn_log; apply app_nil_r|].
  eexists. eexists. rewrite add_log_db, store_conn_db.
  split; [reflexivity|]. cbn [stmts set_stmts].
  split; [eapply find_update_stmt; [exact Hfind | exact Hid]|]. reflexivity.
Qed.

(** The loop over a cursor of rows: each row met is read as an accumulator
    and logged, whatever the length of its blob; the loop ends on
    [SQLITE_DONE] when the rows run out first, and on a row when its
    iterations run out first. *)
Lemma loop_over_rows (items : list cursor_item) (bs : list (list byte)) :
  Forall2 delivers_blob items bs ->
  forall (n : nat) (id : nat) (ret : Z) (w : world),
    faults w = [] ->
    statement_at id w items ->
    exists w',
      example_custom_aggregate_query_loop n id ret w
      = (inr (if (List.length bs <? n)%nat then SQLITE_DONE
              else match n with O => ret | S _ => SQLITE_ROW end), w')
      /\ log w' = log w ++ map aggregate_line (firstn n bs).
Proof.
  induction 1 as [|it b items bs Hit Hrest IH]; intros n id ret w Hfl Hst.
  - destruct n as [|n].
    + exists w. cbn. rewrite app_nil_r. auto.
    + destruct (sqlite3_step_done id w Hfl Hst) as (w1 & Hstep & _ & Hlog & _).
      exists w1. cbn [example_custom_aggregate_query_loop]. unfold bind.
      rewrite Hstep. cbn. rewrite app_nil_r. auto.
  - destruct n as [|n].
    + exists w. cbn. rewrite app_nil_r. auto.
    + destruct (sqlite3_step_row id w it items b Hfl Hst Hit)
        as (w1 & Hstep & Hfl1 & Hlog1 & Hcur1 & Hst1).
      cbn [example_custom_aggregate_query_loop]. unfold bind at 1.
      rewrite Hstep. cbn [Z.eqb SQLITE_DONE SQLITE_ROW Pos.eqb negb].
      unfold bind, sqlite3_column_blob, syslog. rewrite Hcur1. cbn [nth].
      destruct Hit as [_ Hne]. destruct b as [|b0 b]; [congruence|].
      match goal with
      | |- context [example_custom_aggregate_query_loop n id SQLITE_ROW ?w2] =>
          destruct (IH n id SQLITE_ROW w2) as (w' & Hloop & Hlog)
      end.
      * exact Hfl1.
      * destruct Hst1 as (c1 & st1 & H1 & H2 & H3). exists c1, st1. auto.
      * exists w'. rewrite Hloop. split.
        -- f_equal. f_equal. cbn [List.length]. 
           change (S (List.length bs) <? S n)%nat with (List.length bs <? n)%nat.
           destruct (List.length bs <? n)%nat; [reflexivity|]. destruct n; reflexivity.
        -- rewrite Hlog. cbn [log add_log firstn map]. rewrite Hlog1, <- app_assoc.
           reflexivity.
Qed.

Lemma query_items_push (st : sqlite3_stmt) (c : sqlite3) :
  open_cursor aggregate_select [] (push_stmt st c) = (query_items c, push_stmt st c).
Proof.
  unfold query_items, aggregate_select, open_cursor, resolve_table.
  cbn [main_db attached functions push_stmt].
  destruct (find_table "groups" (tables (main_db c))) as [t|].
  - destruct (find_function _ _ (functions c)); [|reflexivity].
    destruct (column_indexes _ (columns (tdef t))); [|reflexivity].
    destruct (column_index _ (columns (tdef t))); reflexivity.
  - destruct (resolve_attached "groups" (attached c)) as [[[sch d] t]|]; [|reflexivity].
    destruct (find_function _ _ (functions c)); [|reflexivity].
    destruct (column_indexes _ (columns (tdef t))); [|reflexivity].
    destruct (column_index _ (columns (tdef t))); reflexivity.
Qed.

(** The whole query over groups that all deliver a blob: below the cap
    every group is logged and the function succeeds; at the cap or above
    it stops after [EXAMPLE_MAX_QUERY_LOOP_STEPS] rows and fails. *)
Lemma aggregate_query_over_rows (w : world) (c : sqlite3) (bs : list (list byte)) :
  db (example w) = Some c ->
  faults w = [] ->
  compiles aggregate_select c = true ->
  Forall2 delivers_blob (query_items c) bs ->
  let n := Z.to_nat EXAMPLE_MAX_QUERY_LOOP_STEPS in
  ((List.length bs < n)%nat ->
   fst (example_custom_aggregate_query w) = 0
   /\ log (snd (example_custom_aggregate_query w)) = log w ++ map aggregate_line bs)
  /\ ((n <= List.length bs)%nat ->
      fst (example_custom_aggregate_query w) = -1
      /\ log (snd (example_custom_aggregate_query w))
         = log w ++ map aggregate_line (firstn n bs)
           ++ [entry LOG_ERR "example_custom_aggregate_query"
                     "sqlite3_step returned %d: %s" [ArgInt SQLITE_ROW]]).
Proof.
  intros Hdb Hfl Hcomp Hrows n.
  assert (Hn : (0 < n)%nat) by (subst n; unfold EXAMPLE_MAX_QUERY_LOOP_STEPS; lia).
  unfold example_custom_aggregate_query. fold aggregate_select. fold n. clearbody n.
  match goal with |- context [fst ?t] => set (q := t) end.
  assert (Hq : exists w',
             q = ((if (List.length bs <? n)%nat then 0 else -1), w')
             /\ log w'
                = log w ++ map aggregate_line (firstn n bs)
                  ++ (if (List.length bs <? n)%nat then []
                      else [entry LOG_ERR "example_custom_aggregate_query"
                                  "sqlite3_step returned %d: %s" [ArgInt SQLITE_ROW]])).
  { subst q.
    unfold bind at 1, sqlite3_prepare_v3, bind at 1, inject.
    rewrite Hfl. cbn [negb Z.eqb SQLITE_OK]. rewrite Hdb, Hcomp.
    cbn [negb Z.eqb SQLITE_OK]. unfold bind at 1.
    set (w1 := set_db (Some (push_stmt (new_stmt (next_stmt c) aggregate_select) c)) w).
    destruct (loop_over_rows (query_items c) bs Hrows n (next_stmt c) SQLITE_OK w1)
      as (w' & Hloop & Hlog).
    - exact Hfl.
    - exists (push_stmt (new_stmt (next_stmt c) aggregate_select) c),
             (new_stmt (next_stmt c) aggregate_select).
      split; [reflexivity|]. split.
      + cbn [stmts push_stmt find_stmt stmt_id new_stmt]. rewrite Nat.eqb_refl.
        reflexivity.
      + unfold cursor_of. cbn [pending new_stmt stmt_sql bound]. apply query_items_push.
    - rewrite Hloop. change (log w1) with (log w) in Hlog.
      destruct (List.length bs <? n)%nat.
      + exists w'. cbn. rewrite Hlog, app_nil_r. auto.
      + destruct n as [|n']; [lia|]. eexists. cbn. split; [reflexivity|].
        cbn. rewrite Hlog, <- app_assoc. reflexivity. }
  destruct Hq as (w' & Hq & Hlog). rewrite Hq. cbn [fst snd].
  split; intros Hlen.
  - apply Nat.ltb_lt in Hlen as Hb. rewrite Hb in Hlog |- *.
    rewrite Hlog, firstn_all2, app_nil_r by lia. auto.
  - apply Nat.ltb_ge in Hlen as Hb. rewrite Hb in Hlog |- *. auto.
Qed.

(** C8, as the code has it: the blob of a result row is read as the
    accumulator struct, guard at offset 0 and running sum at offset 4, and
    the running sum is logged; the length of the blob is never looked at,
    so every row is read this way and none is refused.  What
    [example_agg_f_final] returns is always the eight bytes of the struct. *)
Theorem rows_decoded_by_layout :
  (forall a : example_agg_f_s,
      Z.of_nat (List.length (example_agg_f_s_bytes a)) = sizeof_example_agg_f_s
      /\ load_int (example_agg_f_s_bytes a) = Some (int_wrap (sentinel a))
      /\ res_aggregate (Some (example_agg_f_s_bytes a)) = ArgInt (int_wrap (aggregate a)))
  /\ (forall (w : world) (c : sqlite3) (bs : list (list byte)),
         db (example w) = Some c ->
         faults w = [] ->
         compiles aggregate_select c = true ->
         Forall2 delivers_blob (query_items c) bs ->
         (List.length bs < Z.to_nat EXAMPLE_MAX_QUERY_LOOP_STEPS)%nat ->
         fst (example_custom_aggregate_query w) = 0
         /\ log (snd (example_custom_aggregate_query w))
            = log w ++ map aggregate_line bs).
Proof.
  split.
  - intros a. split; [reflexivity|]. split.
    + unfold example_agg_f_s_bytes. apply load_store_int.
    + unfold res_aggregate. rewrite load_aggregate. reflexivity.
  - intros w c bs Hdb Hfl Hcomp Hrows Hlen.
    apply (aggregate_query_over_rows w c bs Hdb Hfl Hcomp Hrows). exact Hlen.
Qed.

Lemma rows_decoded_by_layout_witness :
  fst (example_custom_aggregate_query sample_world) = 0
  /\ log (snd (example_custom_aggregate_query sample_world))
     = log sample_world
       ++ map aggregate_line [example_agg_f_s_bytes {| sentinel := 8091; aggregate := 85 |}].
Proof.
  destruct rows_decoded_by_layout as [_ H].
  apply (H sample_world (conn_of sample_world)).
  - apply conn_of_some. vm_compute. reflexivity.
  - vm_compute. reflexivity.
  - vm_compute. reflexivity.
  - constructor; [|constructor]. split; [vm_compute; reflexivity | discriminate].
  - unfold EXAMPLE_MAX_QUERY_LOOP_STEPS. cbn [List.length]. lia.
Defined.

(** The group of [sample_world], one row of group index 5, is logged
    as 85. *)
Example sample_query_logs_85 :
  log (snd (example_custom_aggregate_query sample_world))
  = log sample_world
    ++ [entry LOG_INFO "example_custom_aggregate_query" "res->aggregate=%d" [ArgInt 85]].
Proof. vm_compute. reflexivity. Qed.

(** C8 as stated fails: there is no decoding error.  A row whose blob is
    twelve bytes long, not the eight of the struct, is read like any other
    and the query succeeds. *)
Lemma padded_row_not_refused :
  exists b : list byte,
    Forall2 delivers_blob (query_items (conn_of padded_world)) [b]
    /\ Z.of_nat (List.length b) = 12
    /\ Z.of_nat (List.length b) <> sizeof_example_agg_f_s
    /\ fst (example_custom_aggregate_query padded_world) = 0
    /\ log (snd (example_custom_aggregate_query padded_world))
       = log padded_world
         ++ [entry LOG_INFO "example_custom_aggregate_query" "res->aggregate=%d"
                   [ArgInt 85]].
Proof.
  exists (example_agg_f_s_bytes {| sentinel := 8091; aggregate := 85 |} ++ [x00; x00; x00; x00]).
  split.
  - constructor; [|constructor]. split; [vm_compute; reflexivity | discriminate].
  - split; [reflexivity|]. split; [discriminate|].
    split; vm_compute; reflexivity.
Qed.

(** ** A whole run of [main] *)

Lemma bind_run {A B : Type} (m : M A) (k : A -> M B) (w : world) :
  bind m k w = k (fst (m w)) (snd (m w)).
Proof. unfold bind. destruct (m w); reflexivity. Qed.

(** With a connection and no failure from the engine, serializing
    succeeds and prints a non-negative length. *)
Lemma example_serialize_succeeds (image : database -> list byte) (w : world) (c : sqlite3) :
  db (example w) = Some c ->
  faults w = [] ->
  example_serialize image w
  = (0, add_stdout [("db_len=%lld", Z.of_nat (List.length (image (main_db c))))] w).
Proof.
  intros Hdb Hfl.
  unfold example_serialize, bind at 1, sqlite3_serialize, bind at 1, inject.
  rewrite Hfl. cbn [negb Z.eqb SQLITE_OK]. rewrite Hdb.
  change (get_schema "main" c) with (Some (main_db c)). cbv iota beta.
  destruct (Z.of_nat (List.length (image (main_db c)))) eqn:E; try reflexivity. lia.
Qed.

Lemma pair_fst {A B : Type} (p : A * B) (a : A) : fst p = a -> p = (a, snd p).
Proof. intros <-. destruct p; reflexivity. Qed.

(** [main] when each of its operations succeeds. *)
Lemma main_steps (image : database -> list byte) (w0 w1 w2 w3 : world) (c3 : sqlite3) :
  example_init w0 = (0, w1) ->
  example_device_new "0123456789012" 12 w1 = (0, w2) ->
  example_custom_aggregate_query w2 = (0, w3) ->
  db (example w3) = Some c3 ->
  faults w3 = [] ->
  main image w0
  = (0, add_log [entry LOG_INFO "main" "ok" []]
          (add_stdout [("db_len=%lld", Z.of_nat (List.length (image (main_db c3))))] w3)).
Proof.
  intros H1 H2 H3 Hdb Hfl. unfold main.
  unfold bind at 1. rewrite H1. change (-1 =? 0) with false. cbv iota.
  unfold bind at 1. rewrite H2. change (-1 =? 0) with false. cbv iota.
  unfold bind at 1. rewrite H3. change (-1 =? 0) with false. cbv iota.
  unfold bind at 1. rewrite (example_serialize_succeeds image w3 c3 Hdb Hfl).
  reflexivity.
Qed.

(** A run without failures goes through all four operations and returns
    0; what it leaves is the world before serializing plus one line on
    standard output and the final log line. *)
Lemma main_fault_free (image : database -> list byte) (fs : list (string * database)) :
  main image (initial_world fs [])
  = (0, add_log [entry LOG_INFO "main" "ok" []]
          (add_stdout [("db_len=%lld",
                        Z.of_nat (List.length
                                    (image (main_db (conn_of (before_serialize fs))))))]
             (before_serialize fs))).
Proof.
  unfold before_serialize.
  assert (H1 : fst (example_init (initial_world fs [])) = 0) by (vm_compute; reflexivity).
  assert (H2 : fst (example_device_new "0123456789012" 12
                      (snd (example_init (initial_world fs [])))) = 0)
    by (vm_compute; reflexivity).
  assert (H3 : fst (example_custom_aggregate_query
                      (snd (example_device_new "0123456789012" 12
                              (snd (example_init (initial_world fs [])))))) = 0)
    by (vm_compute; reflexivity).
  assert (Hdb : match db (example
                            (snd (example_custom_aggregate_query
                                    (snd (example_device_new "0123456789012" 12
                                            (snd (example_init (initial_world fs [])))))))) with
                | Some _ => true
                | None => false
                end = true) by (vm_compute; reflexivity).
  assert (Hfl : faults (snd (example_custom_aggregate_query
                               (snd (example_device_new "0123456789012" 12
                                       (snd (example_init (initial_world fs [])))))))
                = []) by (vm_compute; reflexivity).
  apply conn_of_some in Hdb.
  apply pair_fst in H1, H2, H3.
  exact (main_steps image _ _ _ _ _ H1 H2 H3 Hdb Hfl).
Qed.

Lemma run_fault_free (image : database -> list byte) (fs : list (string * database)) :
  run image fs [] = (0, fs).
Proof.
  unfold run. rewrite main_fault_free. cbv iota.
  change (files (add_log ?l (add_stdout ?o ?w))) with (files w).
  apply f_equal. vm_compute. reflexivity.
Qed.

(** ** Prepared statements that are never finalized *)

(** C7: the code does not keep this.  [example_custom_aggregate_query]
    has no [sqlite3_finalize] at all, so even a successful call leaves its
    statement live; [example_device_new] and
    [example_init_schema_migration] return early on a failed step and leave
    theirs.  (Evaluated on: the aggregate query on the initialised program;
    a second insert of the same device identifier; a migration whose step
    the environment fails with code 5.) *)
Theorem statements_left_unfinalized :
  live_statements ready_world = []
  /\ (fst (example_custom_aggregate_query ready_world) = 0
      /\ live_statements (snd (example_custom_aggregate_query ready_world)) = [1%nat])
  /\ (let w := snd (example_device_new "0123456789012" 12 ready_world) in
      live_statements w = []
      /\ fst (example_device_new "0123456789012" 12 w) = -1
      /\ live_statements (snd (example_device_new "0123456789012" 12 w)) = [2%nat])
  /\ (let w := set_db (Some (new_connection None empty_database))
                      (initial_world [] [SQLITE_OK; 5]) in
      fst (example_init_schema_migration w) = -1
      /\ live_statements (snd (example_init_schema_migration w)) = [0%nat]).
Proof. repeat split; vm_compute; reflexivity. Qed.

(** The same over a whole run of [main]: it exits with status 0 and the
    statement of the aggregate query is still live. *)
Lemma main_leaves_statement (image : database -> list byte) (fs : list (string * database)) :
  fst (main image (initial_world fs [])) = 0
  /\ live_statements (snd (main image (initial_world fs []))) = [2%nat].
Proof.
  rewrite main_fault_free. split; [reflexivity|].
  change (live_statements (snd (?r, add_log ?l (add_stdout ?o ?w))))
    with (live_statements w).
  vm_compute. reflexivity.
Qed.

(** ** Where the primary database lives *)

(** C3: the code does not open a file-backed store.  The flags
    [example_init] passes include [SQLITE_OPEN_MEMORY], so schema main is
    memory-resident whatever is on disk: a run never reads or writes a
    file, always finds the marker at 0 and applies the full schema, even
    when "db.sqlite" exists with another marker.  The measured and setpoint
    tables are in the attached memory database state, as claimed. *)
Theorem primary_database_memory_resident :
  Z.land example_open_flags SQLITE_OPEN_MEMORY <> 0
  /\ (forall (image : database -> list byte) (fs : list (string * database)),
         run image fs [] = (0, fs))
  /\ (forall fs : list (string * database),
         let w := snd (example_init (initial_world fs [])) in
         fst (example_init (initial_world fs [])) = 0
         /\ option_map backing (db (example w)) = Some None
         /\ log w = [entry LOG_INFO "example_init_schema_migration"
                           "doing full schema migration" []]
         /\ option_map (fun c => user_version (main_db c)) (db (example w)) = Some 1
         /\ option_map attached (db (example w))
            = Some [("state", {| user_version := 0;
                                 tables := [{| tdef := measured_table; rows := [] |};
                                            {| tdef := setpoint_table; rows := [] |}] |})])
  /\ run (fun _ => []) [("db.sqlite", newer_database)] []
     = (0, [("db.sqlite", newer_database)]).
Proof.
  split; [vm_compute; discriminate|].
  split; [exact run_fault_free|].
  split; [intros fs; repeat split; vm_compute; reflexivity|].
  apply run_fault_free.
Qed.

(** For contrast, the same initialisation with the flags of an ordinary
    file open: the first run creates "db.sqlite" with the schema and marker
    1, and a second run on those files finds marker 1 and migrates
    nothing. *)
Example file_backed_store_persists :
  let w1 := snd (example_init_with "db.sqlite" file_open_flags (initial_world [] [])) in
  let w2 := snd (example_init_with "db.sqlite" file_open_flags
                                   (initial_world (files w1) [])) in
  option_map user_version (find_file "db.sqlite" (files w1)) = Some 1
  /\ option_map (fun d => map (fun t => tname (tdef t)) (tables d))
                (find_file "db.sqlite" (files w1))
     = Some ["devices"; "outputs"; "groups"]
  /\ fst (example_init_with "db.sqlite" file_open_flags (initial_world (files w1) [])) = 0
  /\ log w2 = []
  /\ files w2 = files w1.
Proof. repeat split; vm_compute; reflexivity. Qed.

(** ** Inserting a device *)

(** An insert does not depend on the statements of the connection. *)
Lemma insert_row_frame (tbl : string) (cols : list string) (b : list (Z * value))
  (bk : option string) (md : database) (att : list (string * database)) (ac fk : bool)
  (fns : list function_def) (l l0 : list sqlite3_stmt) (n n0 : nat) :
  insert_row tbl cols b
    {| backing := bk; main_db := md; attached := att; autocommit := ac;
       foreign_keys := fk; functions := fns; stmts := l; next_stmt := n |}
  = option_map
      (fun c' => {| backing := backing c'; main_db := main_db c'; attached := attached c';
                    autocommit := autocommit c'; foreign_keys := foreign_keys c';
                    functions := functions c'; stmts := l; next_stmt := n |})
      (insert_row tbl cols b
         {| backing := bk; main_db := md; attached := att; autocommit := ac;
            foreign_keys := fk; functions := fns; stmts := l0; next_stmt := n0 |}).
Proof.
  unfold insert_row, resolve_table. cbn [main_db attached foreign_keys].
  destruct (match find_table tbl (tables md) with
            | Some t => Some ("main", md, t)
            | None => resolve_attached tbl att
            end) as [[[sch d] t]|]; [|reflexivity].
  match goal with |- (if ?g then _ else _) = _ => destruct g end; [|reflexivity].
  unfold set_schema. destruct (String.eqb sch "main"); reflexivity.
Qed.

Lemma insert_row_keeps (tbl : string) (cols : list string) (b : list (Z * value))
  (c c' : sqlite3) :
  insert_row tbl cols b c = Some c' ->
  backing c' = backing c /\ autocommit c' = autocommit c.
Proof.
  unfold insert_row. destruct (resolve_table tbl c) as [[[sch d] t]|]; [|discriminate].
  match goal with |- (if ?g then _ else _) = _ -> _ => destruct g end; [|discriminate].
  intros H. injection H as <-. unfold set_schema.
  destruct (String.eqb sch "main"); split; reflexivity.
Qed.

Lemma uint32_int_small (n : Z) :
  0 <= n < 2147483648 -> int_wrap (uint32_wrap n) = n.
Proof.
  intros H. unfold uint32_wrap. rewrite Z.mod_small by lia.
  apply int_wrap_id. unfold in_int, INT_MIN, INT_MAX. lia.
Qed.

(** C10: [example_device_new] binds exactly the first [deviceid_len] bytes
    of the caller's string, whatever the string's own length (for a length
    that lies within the string and fits the [int] parameter of
    [sqlite3_bind_text]): the call does what inserting that prefix into
    devices does, succeeding when the row is accepted and failing, with
    nothing stored, when a constraint refuses it.  [main] passes the
    13-character "0123456789012" with length 12: the insert succeeds and
    the row holds the 12-byte prefix "012345678901". *)
Theorem device_new_binds_prefix :
  (forall (w : world) (c : sqlite3) (deviceid : string) (deviceid_len : Z),
      db (example w) = Some c ->
      faults w = [] ->
      compiles (SqlInsert "devices" ["deviceid"]) c = true ->
      0 <= deviceid_len <= Z.of_nat (String.length deviceid) ->
      deviceid_len < 2147483648 ->
      let prefix := substring 0 (Z.to_nat deviceid_len) deviceid in
      let (ret, w') := example_device_new deviceid deviceid_len w in
      match insert_row "devices" ["deviceid"] [(1, VText prefix)] c with
      | Some c1 =>
          ret = 0
          /\ exists c', db (example w') = Some c'
                        /\ main_db c' = main_db c1 /\ attached c' = attached c1
                        /\ stmts c' = stmts c
      | None =>
          ret = -1
          /\ exists c', db (example w') = Some c'
                        /\ main_db c' = main_db c /\ attached c' = attached c
      end)
  /\ (forall (image : database -> list byte) (fs : list (string * database)),
         String.length "0123456789012" = 13%nat
         /\ fst (main image (initial_world fs [])) = 0
         /\ rows_of "devices" (snd (main image (initial_world fs [])))
            = [[VText "012345678901"]]).
Proof.
  split.
  - intros w c deviceid deviceid_len Hdb Hfl Hcomp Hlen Hint prefix.
    destruct w as [[sent dbo] fs lg out fl]. cbn in Hdb, Hfl. subst dbo fl.
    unfold example_device_new, bind at 1, sqlite3_prepare_v3, bind at 1, inject.
    cbn [faults db example negb Z.eqb SQLITE_OK]. rewrite Hcomp.
    cbn [negb Z.eqb SQLITE_OK].
    unfold bind at 1, sqlite3_bind_text, bind at 1, inject.
    cbn [faults db example set_db negb Z.eqb SQLITE_OK stmts push_stmt find_stmt
         stmt_id new_stmt].
    rewrite Nat.eqb_refl.
    cbn [stmt_sql new_stmt parameter_count List.length Z.of_nat Pos.of_succ_nat
         Z.leb Z.compare Pos.compare Pos.compare_cont andb].
    rewrite uint32_int_small by lia.
    destruct (Z.ltb_spec deviceid_len 0) as [Hneg|_]; [lia|].
    fold prefix. clearbody prefix. clear Hcomp.
    destruct c as [bk md att ac fk fns sts nx].
    cbn -[insert_row]. rewrite ?Nat.eqb_refl.
    unfold bind at 1, sqlite3_step, bind at 1, inject.
    cbn -[insert_row]. rewrite ?Nat.eqb_refl. cbn -[insert_row].
    unfold set_stmts, push_stmt, new_stmt. cbn -[insert_row].
    match goal with
    | |- context [insert_row ?t ?cs ?b
                    {| backing := _; main_db := _; attached := _; autocommit := _;
                       foreign_keys := _; functions := _;
                       stmts := ?x :: ?rest; next_stmt := ?n |}] =>
        rewrite (insert_row_frame t cs b bk md att ac fk fns (x :: rest) sts n nx)
    end.
    destruct (insert_row "devices" ["deviceid"] [(1, VText prefix)]
                {| backing := bk; main_db := md; attached := att; autocommit := ac;
                   foreign_keys := fk; functions := fns; stmts := sts;
                   next_stmt := nx |}) as [c1|] eqn:Hins.
    + cbn -[insert_row store_conn]. rewrite ?Nat.eqb_refl.
      unfold bind at 1, sqlite3_finalize, bind at 1, inject.
      rewrite add_log_faults, store_conn_faults. cbn [faults set_db].
      rewrite add_log_db, store_conn_db.
      cbn -[store_conn]. rewrite ?Nat.eqb_refl. cbn -[store_conn].
      split; [reflexivity|]. eexists. split; [reflexivity|].
      cbn. rewrite ?Nat.eqb_refl. repeat split; reflexivity.
    + cbn -[insert_row store_conn]. rewrite ?Nat.eqb_refl.
      split; [reflexivity|]. rewrite store_conn_db.
      eexists. split; [reflexivity|]. split; reflexivity.
  - intros image fs. split; [reflexivity|].
    rewrite main_fault_free. split; [reflexivity|].
    change (rows_of "devices" (snd (?r, add_log ?l (add_stdout ?o ?w))))
      with (rows_of "devices" w).
    vm_compute. reflexivity.
Qed.

Lemma device_new_binds_prefix_witness :
  fst (example_device_new "0123456789012" 12 ready_world) = 0.
Proof.
  destruct device_new_binds_prefix as [H _].
  assert (Hdb : db (example ready_world) = Some ready_conn)
    by (apply conn_of_some; vm_compute; reflexivity).
  assert (Hfl : faults ready_world = []) by (vm_compute; reflexivity).
  assert (Hcomp : compiles (SqlInsert "devices" ["deviceid"]) ready_conn = true)
    by (vm_compute; reflexivity).
  assert (Hlen : 0 <= 12 <= Z.of_nat (String.length "0123456789012")) by (cbn; lia).
  assert (Hint : 12 < 2147483648) by lia.
  specialize (H ready_world ready_conn "0123456789012" 12 Hdb Hfl Hcomp Hlen Hint).
  cbv zeta in H.
  destruct (example_device_new "0123456789012" 12 ready_world) as [ret w'].
  destruct (insert_row "devices" ["deviceid"]
              [(1, VText (substring 0 (Z.to_nat 12) "0123456789012"))] ready_conn)
    as [c1|] eqn:Hins.
  - apply H.
  - exfalso.
    assert (Hsome : match insert_row "devices" ["deviceid"]
                            [(1, VText (substring 0 (Z.to_nat 12) "0123456789012"))]
                            ready_conn with
                    | Some _ => true
                    | None => false
                    end = true) by (vm_compute; reflexivity).
    rewrite Hins in Hsome. discriminate Hsome.
Defined.

(** * Further properties *)

(** ** The aggregate over rows of any content *)

Lemma step_three_args (r : ctx_result) (acc : Z) (argv : list value) :
  List.length argv = 3%nat ->
  example_agg_f_step
    {| agg_mem := Some {| sentinel := EXAMPLE_AGG_F_SENTINEL; aggregate := int_wrap acc |};
       result := r |} argv
  = ({| agg_mem := Some {| sentinel := EXAMPLE_AGG_F_SENTINEL;
                           aggregate := int_wrap (acc + third_int argv) |};
        result := r |}, []).
Proof.
  intros Hlen. unfold example_agg_f_step, third_int. rewrite Hlen.
  cbn -[int_wrap Z.add sqlite3_value_int nth].
  rewrite int_wrap_add_l. reflexivity.
Qed.

Lemma step_three_args_first (argv : list value) :
  List.length argv = 3%nat ->
  example_agg_f_step new_context argv
  = ({| agg_mem := Some {| sentinel := EXAMPLE_AGG_F_SENTINEL;
                           aggregate := int_wrap (80 + third_int argv) |};
        result := ResultNone |}, []).
Proof.
  intros Hlen. unfold example_agg_f_step, third_int. rewrite Hlen.
  cbn -[int_wrap Z.add sqlite3_value_int nth]. reflexivity.
Qed.

Lemma steps_three_args (argvs : list (list value)) :
  Forall (fun argv => List.length argv = 3%nat) argvs ->
  forall (r : ctx_result) (acc : Z),
    is_error r = false ->
    aggregate_steps example_agg_f_step
      {| agg_mem := Some {| sentinel := EXAMPLE_AGG_F_SENTINEL; aggregate := int_wrap acc |};
         result := r |} argvs
    = ({| agg_mem := Some {| sentinel := EXAMPLE_AGG_F_SENTINEL;
                             aggregate := int_wrap (acc + sum_third argvs) |};
          result := r |}, []).
Proof.
  induction 1 as [|argv argvs Hlen _ IH]; intros r acc Hr.
  - cbn -[int_wrap]. rewrite Z.add_0_r. reflexivity.
  - cbn [aggregate_steps]. rewrite (step_three_args r acc argv Hlen). cbn [result].
    rewrite Hr, IH by assumption. cbn [app]. unfold sum_third. cbn [map fold_right].
    rewrite Z.add_assoc. reflexivity.
Qed.

Lemma steps_from_fresh (argv : list value) (argvs : list (list value)) :
  Forall (fun argv => List.length argv = 3%nat) (argv :: argvs) ->
  aggregate_steps example_agg_f_step new_context (argv :: argvs)
  = ({| agg_mem := Some {| sentinel := EXAMPLE_AGG_F_SENTINEL;
                           aggregate := int_wrap (80 + sum_third (argv :: argvs)) |};
        result := ResultNone |}, []).
Proof.
  intros Hall. inversion Hall as [|x l Hlen Hrest]; subst.
  cbn [aggregate_steps]. rewrite (step_three_args_first argv Hlen).
  cbn [result is_error]. rewrite (steps_three_args argvs Hrest) by reflexivity.
  cbn [app]. unfold sum_third. cbn [map fold_right].
  rewrite Z.add_assoc. reflexivity.
Qed.

(** With every running sum in range the sum is exact. *)
Lemma steps_in_range (argvs : list (list value)) :
  Forall (fun argv => List.length argv = 3%nat) argvs ->
  sums_in_int 80 (map third_int argvs) ->
  argvs <> [] ->
  aggregate_steps example_agg_f_step new_context argvs
  = ({| agg_mem := Some (group_accumulator argvs); result := ResultNone |}, []).
Proof.
  intros Hall Hsum Hne. destruct argvs as [|argv argvs]; [congruence|].
  rewrite (steps_from_fresh argv argvs Hall). cbn [group_accumulator].
  rewrite int_wrap_id; [reflexivity|].
  unfold sum_third. apply sums_in_int_total; [discriminate | exact Hsum].
Qed.

(** A group run with the callbacks of [example.c], under whatever
    registration carries them. *)
Lemma registered_group_result (f : function_def) (argvs : list (list value)) :
  xstep f = Some example_agg_f_step ->
  xfinal f = Some example_agg_f_final ->
  Forall (fun argv => List.length argv = 3%nat) argvs ->
  sums_in_int 80 (map third_int argvs) ->
  aggregate_group f argvs
  = (SRow [VBlob (example_agg_f_s_bytes (group_accumulator argvs))], []).
Proof.
  intros Hs Hf Hall Hsum. unfold aggregate_group. rewrite Hs, Hf.
  destruct argvs as [|argv argvs].
  - reflexivity.
  - rewrite (steps_in_range _ Hall Hsum) by discriminate. cbn [result is_error].
    unfold example_agg_f_final, sqlite3_aggregate_context. cbn [agg_mem]. reflexivity.
Qed.

(** X1: the aggregate over rows of any stored content.  Each row passes
    three arguments, each NULL, an integer, a text or a blob; the third is
    read as [sqlite3_value_int] reads it (NULL as 0, an integer by its low
    32 bits, a text or a blob by the decimal integer it starts with, after
    white space and a sign).  As long as no running sum leaves the range
    of an [int], no step sets an error or logs, the guard is the sentinel
    from the first row on, the sum is 80 plus those third arguments, and
    the group's result is a row holding the eight bytes of that
    accumulator.  A group without rows gives the eight zero bytes of fresh
    memory, not the baseline. *)
Theorem aggregate_over_any_rows :
  forall argvs : list (list value),
    Forall (fun argv => List.length argv = 3%nat) argvs ->
    sums_in_int 80 (map third_int argvs) ->
    (argvs <> [] ->
     aggregate_steps example_agg_f_step new_context argvs
     = ({| agg_mem := Some {| sentinel := EXAMPLE_AGG_F_SENTINEL;
                              aggregate := 80 + sum_third argvs |};
           result := ResultNone |}, []))
    /\ aggregate_group example_agg_f argvs
       = (SRow [VBlob (example_agg_f_s_bytes (group_accumulator argvs))], [])
    /\ (argvs = [] ->
        aggregate_group example_agg_f argvs
        = (SRow [VBlob (store_int 0 ++ store_int 0)], [])).
Proof.
  intros argvs Hall Hsum. split; [|split].
  - intros Hne. rewrite (steps_in_range argvs Hall Hsum Hne).
    destruct argvs; [congruence | reflexivity].
  - apply registered_group_result; [reflexivity | reflexivity | exact Hall | exact Hsum].
  - intros ->. reflexivity.
Qed.

Lemma aggregate_over_any_rows_witness :
  aggregate_group example_agg_f [[VText "012345678901"; VNull; VText " 7 apples"];
                                 [VBlob []; VInt 3; VBlob [x35]];
                                 [VNull; VNull; VInt (-2)]]
  = (SRow [VBlob (example_agg_f_s_bytes {| sentinel := 8091; aggregate := 90 |})], []).
Proof.
  apply (aggregate_over_any_rows [[VText "012345678901"; VNull; VText " 7 apples"];
                                  [VBlob []; VInt 3; VBlob [x35]];
                                  [VNull; VNull; VInt (-2)]]).
  - repeat constructor.
  - vm_compute. repeat split; discriminate.
Defined.

(** ** The aggregate query over any content of table groups *)

Lemma bytes_eqb_refl (b : list byte) : bytes_eqb b b = true.
Proof.
  induction b as [|x b IH]; [reflexivity|]. cbn [bytes_eqb].
  rewrite (Byte.byte_dec_lb (eq_refl x)). exact IH.
Qed.

Lemma value_eqb_refl (v : value) : value_eqb v v = true.
Proof.
  destruct v; cbn [value_eqb]; [reflexivity | apply Z.eqb_refl | apply String.eqb_refl
                               | apply bytes_eqb_refl].
Qed.

Lemma dedup_In (l : list value) :
  forall (seen : list value) (k : value), In k (dedup seen l) -> In k l.
Proof.
  induction l as [|v l IH]; intros seen k; cbn [dedup]; [tauto|].
  destruct (existsb (value_eqb v) seen).
  - intros H. right. eapply IH. exact H.
  - intros [H|H]; [left; exact H | right; eapply IH; exact H].
Qed.

Lemma bytes_eqb_eq (a b : list byte) : bytes_eqb a b = true -> a = b.
Proof.
  revert b. induction a as [|x a IH]; intros [|y b]; cbn [bytes_eqb];
    try discriminate; [reflexivity|].
  intros H. apply andb_true_iff in H. destruct H as [Hx Hab].
  apply Byte.byte_dec_bl in Hx. rewrite Hx, (IH b Hab). reflexivity.
Qed.

Lemma value_eqb_eq (a b : value) : value_eqb a b = true -> a = b.
Proof.
  destruct a, b; cbn [value_eqb]; try discriminate; intros H.
  - reflexivity.
  - apply Z.eqb_eq in H. rewrite H. reflexivity.
  - apply String.eqb_eq in H. rewrite H. reflexivity.
  - apply bytes_eqb_eq in H. rewrite H. reflexivity.
Qed.

Lemma existsb_value_eqb (v : value) (l : list value) :
  existsb (value_eqb v) l = true <-> In v l.
Proof.
  rewrite existsb_exists. split.
  - intros (x & Hin & Hx). apply value_eqb_eq in Hx. rewrite Hx. exact Hin.
  - intros H. exists v. split; [exact H | apply value_eqb_refl].
Qed.

Lemma dedup_spec (l : list value) :
  forall (seen : list value) (k : value),
    In k (dedup seen l) <-> In k l /\ ~ In k seen.
Proof.
  induction l as [|v l IH]; intros seen k; cbn [dedup]; [cbn; tauto|].
  destruct (existsb (value_eqb v) seen) eqn:E.
  - apply existsb_value_eqb in E. rewrite IH. cbn [In]. split.
    + intros [H1 H2]. split; [right; exact H1 | exact H2].
    + intros [[H1|H1] H2]; [subst k; contradiction | split; assumption].
  - assert (Hv : ~ In v seen).
    { intros H. apply existsb_value_eqb in H. rewrite H in E. discriminate E. }
    cbn [In]. rewrite IH. cbn [In]. split.
    + intros [H|[H1 H2]].
      * subst k. split; [left; reflexivity | exact Hv].
      * split; [right; exact H1 | intros H; apply H2; right; exact H].
    + intros [[H1|H1] H2].
      * left. exact H1.
      * destruct (existsb (value_eqb k) [v]) eqn:Ek.
        -- apply existsb_value_eqb in Ek. destruct Ek as [Ek|[]]. left. exact Ek.
        -- right. split; [exact H1|]. intros [H|H]; [|contradiction].
           subst k. cbn [existsb] in Ek. rewrite value_eqb_refl in Ek. discriminate Ek.
Qed.

Lemma dedup_NoDup (l : list value) : forall seen : list value, NoDup (dedup seen l).
Proof.
  induction l as [|v l IH]; intros seen; cbn [dedup]; [constructor|].
  destruct (existsb (value_eqb v) seen); [apply IH|].
  constructor; [|apply IH]. intros H. apply dedup_spec in H.
  apply (proj2 H). left. reflexivity.
Qed.

(** The order of values is a strict order on distinct values. *)
Lemma bytes_compare_flip (a b : list byte) :
  bytes_compare a b = Gt -> bytes_compare b a = Lt.
Proof.
  revert b. induction a as [|x a IH]; intros [|y b]; cbn [bytes_compare];
    try discriminate; [reflexivity|].
  rewrite (Z.compare_antisym (Z_of_byte x) (Z_of_byte y)).
  destruct (Z_of_byte x ?= Z_of_byte y); cbn [CompOpp];
    [apply IH | discriminate | reflexivity].
Qed.

Lemma Z_of_byte_inj (x y : byte) : Z_of_byte x = Z_of_byte y -> x = y.
Proof.
  unfold Z_of_byte. intros H. apply N2Z.inj in H.
  pose proof (Byte.of_to_N x) as Hx. rewrite H, Byte.of_to_N in Hx.
  injection Hx as Hx. symmetry. exact Hx.
Qed.

Lemma bytes_compare_eq (a b : list byte) : bytes_compare a b = Eq -> a = b.
Proof.
  revert b. induction a as [|x a IH]; intros [|y b]; cbn [bytes_compare];
    try discriminate; [reflexivity|].
  destruct (Z_of_byte x ?= Z_of_byte y) eqn:E; try discriminate.
  intros H. apply Z.compare_eq in E. apply Z_of_byte_inj in E.
  rewrite E, (IH b H). reflexivity.
Qed.

Lemma bytes_of_string_inj (s t : string) : bytes_of_string s = bytes_of_string t -> s = t.
Proof.
  unfold bytes_of_string. revert t. induction s as [|c s IH]; intros [|d t];
    cbn [list_ascii_of_string map]; try discriminate; [reflexivity|].
  intros H. injection H as Hc Hs.
  assert (E : ascii_of_byte (byte_of_ascii c) = ascii_of_byte (byte_of_ascii d))
    by (rewrite Hc; reflexivity).
  rewrite !ascii_of_byte_of_ascii in E. rewrite E, (IH t Hs). reflexivity.
Qed.

Lemma value_compare_flip (a b : value) :
  value_compare a b = Gt -> value_compare b a = Lt.
Proof.
  destruct a, b; cbn [value_compare]; try discriminate; try reflexivity.
  - intros H. rewrite Z.compare_antisym, H. reflexivity.
  - apply bytes_compare_flip.
  - apply bytes_compare_flip.
Qed.

Lemma value_compare_eq (a b : value) : value_compare a b = Eq -> a = b.
Proof.
  destruct a, b; cbn [value_compare]; try discriminate; intros H.
  - reflexivity.
  - apply Z.compare_eq in H. rewrite H. reflexivity.
  - apply bytes_compare_eq, bytes_of_string_inj in H. rewrite H. reflexivity.
  - apply bytes_compare_eq in H. rewrite H. reflexivity.
Qed.

Lemma insert_value_In (v k : value) (l : list value) :
  In k (insert_value v l) <-> k = v \/ In k l.
Proof.
  induction l as [|u l IH]; cbn [insert_value In]; [intuition congruence|].
  destruct (value_compare v u); cbn [In]; [intuition congruence | intuition congruence|].
  rewrite IH. intuition congruence.
Qed.

Lemma sort_values_In (k : value) (l : list value) : In k (sort_values l) <-> In k l.
Proof.
  unfold sort_values. induction l as [|v l IH]; cbn [fold_right In]; [tauto|].
  rewrite insert_value_In, IH. intuition congruence.
Qed.

Lemma insert_value_sorted (v : value) (l : list value) :
  Sorted (fun a b => value_compare a b = Lt) l ->
  ~ In v l ->
  Sorted (fun a b => value_compare a b = Lt) (insert_value v l).
Proof.
  induction l as [|u l IH]; intros Hs Hv; cbn [insert_value].
  - constructor; constructor.
  - destruct (value_compare v u) eqn:E.
    + apply value_compare_eq in E. exfalso. apply Hv. left. symmetry. exact E.
    + constructor; [exact Hs | constructor; exact E].
    + inversion Hs as [|x l0 Hs' Hhd]; subst.
      constructor.
      * apply IH; [exact Hs' | intros H; apply Hv; right; exact H].
      * destruct l as [|u' l']; cbn [insert_value].
        -- constructor. apply value_compare_flip. exact E.
        -- destruct (value_compare v u'); constructor;
             try (apply value_compare_flip; exact E).
           inversion Hhd; assumption.
Qed.

Lemma sort_values_sorted (l : list value) :
  NoDup l -> Sorted (fun a b => value_compare a b = Lt) (sort_values l).
Proof.
  unfold sort_values. induction 1 as [|v l Hv _ IH]; cbn [fold_right]; [constructor|].
  apply insert_value_sorted; [exact IH|].
  intros H. apply Hv. apply (sort_values_In v l). exact H.
Qed.

(** The group ids the query enumerates: each id present in the table,
    once, in ascending order. *)
Lemma group_keys_spec (rs : list (list value)) :
  Sorted (fun a b => value_compare a b = Lt) (group_keys rs)
  /\ forall k : value,
       In k (group_keys rs) <-> exists r, In r rs /\ nth 2 r VNull = k.
Proof.
  unfold group_keys. split.
  - apply sort_values_sorted, dedup_NoDup.
  - intros k. rewrite sort_values_In, dedup_spec, in_map_iff. cbn [In].
    split.
    + intros [(r & Hk & Hr) _]. exists r. split; assumption.
    + intros (r & Hr & Hk). split; [exists r; split; assumption | tauto].
Qed.

(** Every group the select enumerates has a member. *)
Lemma group_members_nonempty (rs : list (list value)) (k : value) :
  In k (group_keys rs) -> group_members k rs <> [].
Proof.
  intros H. apply group_keys_spec in H. destruct H as (r & Hr & Hk).
  unfold group_members. intros Hnil.
  assert (Hin : In r (filter (fun r0 => value_eqb (nth 2 r0 VNull) k) rs)).
  { apply filter_In. split; [exact Hr|]. rewrite Hk. apply value_eqb_refl. }
  rewrite Hnil in Hin. exact Hin.
Qed.

Lemma project_three (r : list value) :
  project [0%nat; 1%nat; 2%nat] r = [nth 0 r VNull; nth 1 r VNull; nth 2 r VNull].
Proof. reflexivity. Qed.

Lemma sum_third_project (rs : list (list value)) :
  sum_third (map (project [0%nat; 1%nat; 2%nat]) rs) = sum_third rs.
Proof.
  unfold sum_third. rewrite map_map. reflexivity.
Qed.

Lemma third_int_in_int (r : list value) : in_int (third_int r).
Proof. apply int_wrap_in_int. Qed.

(** Rows whose magnitudes fit overflow in no order, so not in the order
    of the table either. *)
Lemma sums_fit_in_int (gs : list Z) :
  forall acc : Z,
    Z.abs acc + fold_right Z.add 0 (map Z.abs gs) <= INT_MAX ->
    sums_in_int acc gs.
Proof.
  induction gs as [|g gs IH]; intros acc H; cbn [sums_in_int]; [exact I|].
  cbn [map fold_right] in H.
  assert (Hpos : 0 <= fold_right Z.add 0 (map Z.abs gs)).
  { clear. induction gs as [|x gs IH]; cbn [map fold_right]; lia. }
  unfold in_int, INT_MIN, INT_MAX in *.
  split; [lia|]. split; [lia|]. apply IH. lia.
Qed.

Lemma sums_fit_running (rs : list (list value)) :
  sums_fit rs ->
  sums_in_int 80 (map third_int (map (project [0%nat; 1%nat; 2%nat]) rs)).
Proof.
  unfold sums_fit. intros H. apply sums_fit_in_int.
  rewrite !map_map. exact H.
Qed.

Lemma registered_group_delivers (f : function_def) (rs : list (list value)) :
  xstep f = Some example_agg_f_step ->
  xfinal f = Some example_agg_f_final ->
  sums_fit rs ->
  delivers_blob (Group f (map (project [0%nat; 1%nat; 2%nat]) rs))
    (example_agg_f_s_bytes
       (group_accumulator (map (project [0%nat; 1%nat; 2%nat]) rs))).
Proof.
  intros Hs Hf Hfit. split; [|discriminate].
  cbn [deliver]. apply registered_group_result; [exact Hs | exact Hf | |].
  - apply Forall_forall. intros argv Hin. apply in_map_iff in Hin.
    destruct Hin as (r & <- & _). reflexivity.
  - apply sums_fit_running. exact Hfit.
Qed.

Lemma group_accumulator_line (rs : list (list value)) :
  rs <> [] ->
  sums_fit rs ->
  aggregate_line (example_agg_f_s_bytes
                    (group_accumulator (map (project [0%nat; 1%nat; 2%nat]) rs)))
  = group_line rs.
Proof.
  intros Hne Hfit. unfold aggregate_line, group_line, res_aggregate.
  rewrite load_aggregate. destruct rs as [|r rs]; [congruence|].
  cbn [map group_accumulator aggregate].
  change (project [0%nat; 1%nat; 2%nat] r :: map (project [0%nat; 1%nat; 2%nat]) rs)
    with (map (project [0%nat; 1%nat; 2%nat]) (r :: rs)).
  rewrite sum_third_project. rewrite int_wrap_id; [reflexivity|].
  pose proof (sums_fit_running (r :: rs) Hfit) as Hrun.
  rewrite <- (sum_third_project (r :: rs)). unfold sum_third.
  apply sums_in_int_total; [discriminate | exact Hrun].
Qed.

(** X2: the lines of the aggregate query.  On a store whose table groups
    is the one of [example_schema_full], holding rows of NULL, integer,
    text or blob values, and where example_agg_f is registered with the
    callbacks of [example.c], a query that meets no failure and fewer
    groups than the cap returns 0 and logs one line per distinct group id
    present, in ascending order of the ids (the order in which the engine
    forms the groups): 80 plus the group ids of that group's rows, read as
    [int]s.  Each group is taken to fit: 80 and the magnitudes of its ids
    add up to no more than an [int] holds, so that no running sum
    overflows in whichever order the group's rows reach the callback. *)
Theorem aggregate_query_logs_groups :
  forall (w : world) (c : sqlite3) (rs : list (list value)) (f : function_def),
    db (example w) = Some c ->
    faults w = [] ->
    find_table "groups" (tables (main_db c)) = Some {| tdef := groups_table; rows := rs |} ->
    find_function "example_agg_f" 3 (functions c) = Some f ->
    xstep f = Some example_agg_f_step ->
    xfinal f = Some example_agg_f_final ->
    (List.length (group_keys rs) < Z.to_nat EXAMPLE_MAX_QUERY_LOOP_STEPS)%nat ->
    (forall k : value, In k (group_keys rs) -> sums_fit (group_members k rs)) ->
    fst (example_custom_aggregate_query w) = 0
    /\ log (snd (example_custom_aggregate_query w))
       = log w ++ map (fun k => group_line (group_members k rs)) (group_keys rs)
    /\ Sorted (fun a b => value_compare a b = Lt) (group_keys rs)
    /\ (forall k : value,
           In k (group_keys rs) <-> exists r, In r rs /\ nth 2 r VNull = k).
Proof.
  intros w c rs f Hdb Hfl Htab Hfun Hs Hf Hlen Hfit.
  assert (Hitems : query_items c
                   = map (fun k => Group f (map (project [0%nat; 1%nat; 2%nat])
                                              (group_members k rs)))
                         (group_keys rs)).
  { unfold query_items, aggregate_select, open_cursor, resolve_table.
    rewrite Htab. cbn [List.length Z.of_nat Pos.of_succ_nat Pos.succ].
    rewrite Hfun. reflexivity. }
  assert (Hcomp : compiles aggregate_select c = true).
  { unfold compiles, aggregate_select, resolve_table. rewrite Htab.
    cbn [List.length Z.of_nat Pos.of_succ_nat Pos.succ]. rewrite Hfun.
    unfold is_aggregate. rewrite Hs, Hf. reflexivity. }
  assert (Hrows : Forall2 delivers_blob (query_items c)
                    (map (fun k => example_agg_f_s_bytes
                                     (group_accumulator
                                        (map (project [0%nat; 1%nat; 2%nat])
                                             (group_members k rs))))
                         (group_keys rs))).
  { rewrite Hitems. revert Hfit. generalize (group_keys rs) as ks.
    induction ks as [|k ks IH]; intros Hfit; cbn [map]; constructor.
    - apply registered_group_delivers; [assumption | assumption|].
      apply Hfit. left. reflexivity.
    - apply IH. intros k' Hk'. apply Hfit. right. exact Hk'. }
  pose proof (aggregate_query_over_rows w c _ Hdb Hfl Hcomp Hrows) as [Hok _].
  rewrite length_map in Hok. specialize (Hok Hlen). destruct Hok as [Hret Hlog].
  split; [exact Hret|]. split; [|apply group_keys_spec].
  rewrite Hlog, map_map. f_equal.
  apply map_ext_in. intros k Hk. apply group_accumulator_line.
  - apply group_members_nonempty. exact Hk.
  - apply Hfit. exact Hk.
Qed.

Lemma aggregate_query_logs_groups_witness :
  fst (example_custom_aggregate_query two_groups_world) = 0
  /\ log (snd (example_custom_aggregate_query two_groups_world))
     = log two_groups_world
       ++ [entry LOG_INFO "example_custom_aggregate_query" "res->aggregate=%d" [ArgInt 83];
           entry LOG_INFO "example_custom_aggregate_query" "res->aggregate=%d" [ArgInt 85]].
Proof.
  assert (Hdb : db (example two_groups_world) = Some (conn_of two_groups_world))
    by (apply conn_of_some; vm_compute; reflexivity).
  assert (Hfl : faults two_groups_world = []) by (vm_compute; reflexivity).
  assert (Htab : find_table "groups" (tables (main_db (conn_of two_groups_world)))
                 = Some {| tdef := groups_table;
                           rows := [[VText "012345678901"; VInt 0; VInt 5];
                                    [VText "012345678901"; VInt 1; VInt 3]] |})
    by (vm_compute; reflexivity).
  assert (Hfun : find_function "example_agg_f" 3 (functions (conn_of two_groups_world))
                 = Some example_agg_f) by reflexivity.
  assert (Hlen : (List.length (group_keys [[VText "012345678901"; VInt 0; VInt 5];
                                            [VText "012345678901"; VInt 1; VInt 3]])
                  < Z.to_nat EXAMPLE_MAX_QUERY_LOOP_STEPS)%nat).
  { unfold EXAMPLE_MAX_QUERY_LOOP_STEPS.
    change (List.length (group_keys [[VText "012345678901"; VInt 0; VInt 5];
                                     [VText "012345678901"; VInt 1; VInt 3]]))
      with 2%nat. lia. }
  assert (Hfit : forall k : value,
             In k (group_keys [[VText "012345678901"; VInt 0; VInt 5];
                               [VText "012345678901"; VInt 1; VInt 3]]) ->
             sums_fit (group_members k [[VText "012345678901"; VInt 0; VInt 5];
                                        [VText "012345678901"; VInt 1; VInt 3]])).
  { intros k [<-|[<-|[]]]; vm_compute; discriminate. }
  destruct (aggregate_query_logs_groups two_groups_world (conn_of two_groups_world) _
              example_agg_f Hdb Hfl Htab Hfun eq_refl eq_refl Hlen Hfit)
    as (Hret & Hlog & _).
  split; [exact Hret|]. rewrite Hlog. reflexivity.
Defined.

(** ** Reading the timestamp back *)

(** X3: the two halves of the packed word give back the seconds and the
    nanoseconds modulo 2^32, so two readings pack to the same word exactly
    when they agree modulo 2^32 in both fields; the signed integer handed
    to the engine is that word modulo 2^64 and is negative exactly when
    bit 31 of the seconds is set. *)
Theorem now_monotonic_unpacks :
  forall tp1 tp2 : timespec,
    Z.shiftr (now_monotonic_time tp1) 32 = tv_sec tp1 mod 4294967296
    /\ Z.land (now_monotonic_time tp1) 4294967295 = tv_nsec tp1 mod 4294967296
    /\ (now_monotonic_time tp1 = now_monotonic_time tp2
        <-> tv_sec tp1 mod 4294967296 = tv_sec tp2 mod 4294967296
            /\ tv_nsec tp1 mod 4294967296 = tv_nsec tp2 mod 4294967296)
    /\ (exists v, now_monotonic_value tp1 = Some v
                  /\ v mod 18446744073709551616 = now_monotonic_time tp1
                  /\ (v < 0 <-> 2147483648 <= tv_sec tp1 mod 4294967296)).
Proof.
  intros tp1 tp2.
  pose proof (Z.mod_pos_bound (tv_sec tp1) 4294967296 ltac:(lia)) as Hs1.
  pose proof (Z.mod_pos_bound (tv_nsec tp1) 4294967296 ltac:(lia)) as Hn1.
  pose proof (Z.mod_pos_bound (tv_sec tp2) 4294967296 ltac:(lia)) as Hs2.
  pose proof (Z.mod_pos_bound (tv_nsec tp2) 4294967296 ltac:(lia)) as Hn2.
  rewrite land_low32, !now_monotonic_time_packs.
  set (s1 := tv_sec tp1 mod 4294967296) in *.
  set (n1 := tv_nsec tp1 mod 4294967296) in *.
  set (s2 := tv_sec tp2 mod 4294967296) in *.
  set (n2 := tv_nsec tp2 mod 4294967296) in *.
  split; [|split; [|split]].
  - rewrite Z.shiftr_div_pow2 by lia. change (2 ^ 32) with 4294967296.
    Z.div_mod_to_equations. lia.
  - Z.div_mod_to_equations. lia.
  - split; [intros H | intros [-> ->]; reflexivity]. lia.
  - exists (int64_wrap (s1 * 4294967296 + n1)).
    split; [rewrite now_monotonic_value_eq, now_monotonic_time_packs; reflexivity|].
    unfold int64_wrap. split.
    + Z.div_mod_to_equations. lia.
    + Z.div_mod_to_equations. lia.
Qed.

(** ** A failed full migration *)

(** X4: [example_init_schema_migration_full] has no rollback.  Called while a
    transaction is open, its [begin] fails and nothing changes.  Called on
    a store that already has one of the three tables, the batch stops at
    that [create table]: the function returns -1 after logging the engine's
    code, the marker keeps its value, nothing reaches the file, and the
    connection is left inside the transaction the batch opened, holding the
    tables created before the failing statement. *)
Theorem migration_full_leaves_transaction_open :
  forall (w : world) (c : sqlite3),
    db (example w) = Some c ->
    faults w = [] ->
    (autocommit c = false ->
     let (ret, w') := example_init_schema_migration_full w in
     ret = -1 /\ same_store w w')
    /\ (autocommit c = true ->
        (exists t, In t fresh_tables
                   /\ find_table (tname (tdef t)) (tables (main_db c)) <> None) ->
        let (ret, w') := example_init_schema_migration_full w in
        ret = -1
        /\ files w' = files w
        /\ log w' = log w ++ [entry LOG_ERR "example_init_schema_migration_full"
                                    "sqlite3_exec returned %d: %s" [ArgInt SQLITE_ERROR]]
        /\ exists c' k,
             db (example w') = Some c'
             /\ autocommit c' = false
             /\ user_version (main_db c') = user_version (main_db c)
             /\ tables (main_db c') = tables (main_db c) ++ firstn k fresh_tables
             /\ attached c' = attached c).
Proof.
  intros w c Hdb Hfl.
  destruct w as [[sent dbo] fs lg out fl]. cbn in Hdb, Hfl. subst dbo fl.
  destruct c as [bk md att ac fk fns sts nx].
  cbn [autocommit main_db attached files log].
  split.
  - intros ->. unfold example_init_schema_migration_full, sqlite3_exec, bind, inject.
    destruct bk as [p|]; cbn; unfold same_store; cbn; rewrite ?app_nil_r;
      repeat split; reflexivity.
  - intros -> (t & Hin & Hex).
    unfold example_init_schema_migration_full, sqlite3_exec, bind, inject.
    destruct (find_table "devices" (tables md)) as [td|] eqn:Hd.
    { destruct bk as [p|]; cbn; rewrite Hd; cbn; rewrite ?app_nil_r;
        (split; [reflexivity|]); (split; [reflexivity|]); (split; [reflexivity|]);
        eexists; exists 0%nat; cbn; rewrite ?app_nil_r; repeat split; reflexivity. }
    destruct (find_table "outputs" (tables md)) as [to|] eqn:Ho.
    { destruct bk as [p|]; cbn; rewrite Hd; cbn; rewrite find_table_app, Ho; cbn;
        rewrite ?app_nil_r;
        (split; [reflexivity|]); (split; [reflexivity|]); (split; [reflexivity|]);
        eexists; exists 1%nat; cbn; repeat split; reflexivity. }
    destruct (find_table "groups" (tables md)) as [tg|] eqn:Hg.
    { destruct bk as [p|]; cbn; rewrite Hd; cbn; rewrite find_table_app, Ho; cbn;
        rewrite !find_table_app, Hg; cbn; rewrite ?app_nil_r;
        (split; [reflexivity|]); (split; [reflexivity|]); (split; [reflexivity|]);
        eexists; exists 2%nat; cbn; rewrite <- !app_assoc; repeat split; reflexivity. }
    exfalso. apply Hex. cbn in Hin.
    destruct Hin as [<- | [<- | [<- | []]]]; assumption.
Qed.

Lemma migration_full_leaves_transaction_open_witness :
  let c := new_connection None {| user_version := 0;
                                  tables := [{| tdef := outputs_table; rows := [] |}] |} in
  let w := set_db (Some c) (initial_world [] []) in
  fst (example_init_schema_migration_full w) = -1
  /\ option_map autocommit (db (example (snd (example_init_schema_migration_full w))))
     = Some false.
Proof.
  intros c w.
  destruct (migration_full_leaves_transaction_open w c eq_refl eq_refl) as [_ H].
  specialize (H eq_refl).
  assert (Hex : exists t, In t fresh_tables
                          /\ find_table (tname (tdef t)) (tables (main_db c)) <> None).
  { exists {| tdef := outputs_table; rows := [] |}. split; [cbn; tauto | discriminate]. }
  specialize (H Hex).
  destruct (example_init_schema_migration_full w) as [ret w'].
  destruct H as (Hret & _ & _ & c' & k & Hc' & Hac & _).
  cbn [fst snd]. rewrite Hc'. cbn. rewrite Hac. split; [exact Hret | reflexivity].
Defined.

(** ** The attached memory database *)

Lemma find_attached_app (n m : string) (d : database) (a : list (string * database)) :
  find_attached n (a ++ [(m, d)])
  = match find_attached n a with
    | Some x => Some x
    | None => if String.eqb m n then Some d else None
    end.
Proof.
  induction a as [|[k e] a IH]; cbn [app find_attached]; [reflexivity|].
  destruct (String.eqb k n); [reflexivity | exact IH].
Qed.

Lemma replace_attached_fresh (n : string) (d e : database) (a : list (string * database)) :
  find_attached n a = None ->
  replace_attached n d (a ++ [(n, e)]) = a ++ [(n, d)].
Proof.
  induction a as [|[k x] a IH]; cbn [app find_attached replace_attached].
  - intros _. rewrite String.eqb_refl. reflexivity.
  - destruct (String.eqb k n); [discriminate|]. intros H. rewrite IH by exact H.
    reflexivity.
Qed.

(** X5: [example_init_schema_memory] on a connection with no open
    transaction: when no database is attached as "state" it attaches a
    fresh memory database under that name with the empty measured and
    setpoint tables, leaves schema main as it was and returns 0; when
    "state" is attached already (a second call) the attach fails, the
    function logs the engine's code and returns -1, and nothing changes. *)
Theorem schema_memory_attaches_once :
  forall (w : world) (c : sqlite3),
    db (example w) = Some c ->
    faults w = [] ->
    autocommit c = true ->
    (find_attached "state" (attached c) = None ->
     let (ret, w') := example_init_schema_memory w in
     ret = 0
     /\ log w' = log w
     /\ files w' = match backing c with
                   | Some p => write_file p (main_db c) (files w)
                   | None => files w
                   end
     /\ exists c',
          db (example w') = Some c'
          /\ attached c' = attached c ++ [("state", state_database)]
          /\ main_db c' = main_db c
          /\ autocommit c' = true)
    /\ (find_attached "state" (attached c) <> None ->
        let (ret, w') := example_init_schema_memory w in
        ret = -1
        /\ same_store w w'
        /\ log w' = log w ++ [entry LOG_ERR "example_init_schema_memory"
                                    "sqlite3_exec returned %d: %s" [ArgInt SQLITE_ERROR]]).
Proof.
  intros w c Hdb Hfl Hac.
  destruct w as [[sent dbo] fs lg out fl]. cbn in Hdb, Hfl. subst dbo fl.
  destruct c as [bk md att ac fk fns sts nx]. cbn in Hac. subst ac.
  cbn [attached backing main_db files log].
  split.
  - intros Hnone.
    unfold example_init_schema_memory, sqlite3_exec, bind, inject.
    destruct bk as [p|]; cbn; rewrite Hnone; cbn;
      rewrite find_attached_app, Hnone; cbn;
      rewrite (replace_attached_fresh "state" _ _ att Hnone); cbn;
      rewrite find_attached_app, Hnone; cbn;
      rewrite (replace_attached_fresh "state" _ _ att Hnone); cbn;
      rewrite ?app_nil_r;
      (split; [reflexivity|]); (split; [reflexivity|]); (split; [reflexivity|]);
      eexists; repeat split; reflexivity.
  - intros Hsome.
    unfold example_init_schema_memory, sqlite3_exec, bind, inject.
    destruct (find_attached "state" att) as [d|] eqn:Hf; [|congruence].
    destruct bk as [p|]; cbn; rewrite Hf; cbn; unfold same_store; cbn;
      rewrite ?app_nil_r; repeat split; reflexivity.
Qed.

Lemma schema_memory_attaches_once_witness :
  let w := set_db (Some (new_connection None empty_database)) (initial_world [] []) in
  fst (example_init_schema_memory w) = 0
  /\ fst (example_init_schema_memory (snd (example_init_schema_memory w))) = -1.
Proof.
  intros w. split.
  - destruct (schema_memory_attaches_once w (new_connection None empty_database)
                eq_refl eq_refl eq_refl) as [H _].
    specialize (H eq_refl).
    destruct (example_init_schema_memory w) as [ret w']. apply H.
  - assert (Hdb : db (example (snd (example_init_schema_memory w)))
                  = Some (conn_of (snd (example_init_schema_memory w))))
      by (apply conn_of_some; vm_compute; reflexivity).
    assert (Hfl : faults (snd (example_init_schema_memory w)) = [])
      by (vm_compute; reflexivity).
    assert (Hac : autocommit (conn_of (snd (example_init_schema_memory w))) = true)
      by (vm_compute; reflexivity).
    destruct (schema_memory_attaches_once _ _ Hdb Hfl Hac) as [_ H].
    assert (Hatt : find_attached "state"
                     (attached (conn_of (snd (example_init_schema_memory w)))) <> None)
      by (vm_compute; discriminate).
    specialize (H Hatt).
    destruct (example_init_schema_memory (snd (example_init_schema_memory w)))
      as [ret w']. apply H.
Defined.

(** ** Registering the user functions *)

Lemma find_function_filter (name n : string) (m k : Z) (fs : list function_def) :
  String.eqb name n && (m =? k) = false ->
  find_function n k
    (filter (fun g => negb (String.eqb (fname g) name && (nargs g =? m))) fs)
  = find_function n k fs.
Proof.
  intros Hother. induction fs as [|g fs IH]; [reflexivity|].
  cbn [filter find_function].
  destruct (String.eqb (fname g) name && (nargs g =? m)) eqn:Hg; cbn [negb].
  - rewrite IH.
    destruct (String.eqb (fname g) n && (nargs g =? k)) eqn:Hgn; [|reflexivity].
    exfalso. apply andb_prop in Hg. destruct Hg as [Hg1 Hg2].
    apply andb_prop in Hgn. destruct Hgn as [Hn1 Hn2].
    apply String.eqb_eq in Hg1, Hn1. apply Z.eqb_eq in Hg2, Hn2. subst.
    rewrite String.eqb_refl, Z.eqb_refl in Hother. discriminate.
  - cbn [find_function]. rewrite IH. reflexivity.
Qed.

Lemma filter_idempotent {A : Type} (p : A -> bool) (l : list A) :
  filter p (filter p l) = filter p l.
Proof.
  induction l as [|x l IH]; [reflexivity|]. cbn [filter].
  destruct (p x) eqn:Hp; [|exact IH]. cbn [filter]. rewrite Hp, IH. reflexivity.
Qed.

(** What a successful registration does to a connection, and that
    registering the same function again changes nothing more. *)
Lemma create_function_registers (w : world) (c : sqlite3) (f : function_def) :
  db (example w) = Some c ->
  faults w = [] ->
  match xfunc f, xstep f, xfinal f with
  | Some _, None, None => true
  | None, Some _, Some _ => true
  | _, _, _ => false
  end = true ->
  -1 <= nargs f <= 127 ->
  let op := sqlite3_create_function_v2 (fname f) (nargs f) (fflags f)
              (xfunc f) (xstep f) (xfinal f) in
  fst (op w) = SQLITE_OK
  /\ (exists c', db (example (snd (op w))) = Some c'
                 /\ registers f c c'
                 /\ main_db c' = main_db c /\ attached c' = attached c
                 /\ stmts c' = stmts c)
  /\ log (snd (op w)) = log w
  /\ files (snd (op w)) = files w
  /\ fst (op (snd (op w))) = SQLITE_OK
  /\ snd (op (snd (op w))) = snd (op w).
Proof.
  intros Hdb Hfl Hshape Hn op. subst op.
  destruct f as [name n flags xf xs xfi]. cbn [fname nargs fflags xfunc xstep xfinal] in *.
  unfold sqlite3_create_function_v2, bind, inject.
  destruct w as [[sent dbo] fs lg out fl]. cbn in Hdb, Hfl. subst dbo fl.
  assert (H1 : (-1 <=? n) = true) by (apply Z.leb_le; lia).
  assert (H2 : (n <=? 127) = true) by (apply Z.leb_le; lia).
  destruct xf as [xf|], xs as [xs|], xfi as [xfi|]; try discriminate Hshape;
    cbn [faults db example negb Z.eqb SQLITE_OK fst snd];
    rewrite H1, H2;
    cbn [andb fst snd set_db db example log files faults negb Z.eqb SQLITE_OK];
    (split; [reflexivity|]);
    (split; [|split; [reflexivity|split; [reflexivity|split; [reflexivity|]]]]).
  all: try (eexists; split; [reflexivity|]; split; [|repeat split; reflexivity];
            intros m k; cbn [functions set_functions find_function fname nargs];
            destruct (String.eqb name m && (n =? k)) eqn:E; [reflexivity|];
            apply find_function_filter; exact E).
  all: cbn [functions set_functions filter fname nargs];
    rewrite String.eqb_refl, Z.eqb_refl; cbn [andb negb];
    rewrite filter_idempotent; reflexivity.
Qed.

(** X6: [example_init_custom_agg_function] and
    [example_init_custom_now_monotonic_function], on a connection and
    without a failure from the engine, return 0 and log nothing; afterwards
    the function is found under its name and arity with the callbacks of
    [example.c] (replacing an earlier registration), every other function
    is found as before, and tables and statements are untouched.  Calling
    either a second time leaves the world exactly as the first call left
    it. *)
Theorem custom_functions_registered :
  forall (w : world) (c : sqlite3),
    db (example w) = Some c ->
    faults w = [] ->
    (fst (example_init_custom_agg_function w) = 0
     /\ (exists c', db (example (snd (example_init_custom_agg_function w))) = Some c'
                    /\ registers example_agg_f c c'
                    /\ main_db c' = main_db c /\ attached c' = attached c
                    /\ stmts c' = stmts c)
     /\ log (snd (example_init_custom_agg_function w)) = log w
     /\ snd (example_init_custom_agg_function (snd (example_init_custom_agg_function w)))
        = snd (example_init_custom_agg_function w))
    /\ (fst (example_init_custom_now_monotonic_function w) = 0
        /\ (exists c',
               db (example (snd (example_init_custom_now_monotonic_function w))) = Some c'
               /\ registers now_monotonic_function c c'
               /\ main_db c' = main_db c /\ attached c' = attached c
               /\ stmts c' = stmts c)
        /\ log (snd (example_init_custom_now_monotonic_function w)) = log w
        /\ snd (example_init_custom_now_monotonic_function
                  (snd (example_init_custom_now_monotonic_function w)))
           = snd (example_init_custom_now_monotonic_function w)).
Proof.
  intros w c Hdb Hfl. split.
  - destruct (create_function_registers w c example_agg_f Hdb Hfl eq_refl)
      as (Hret & Hc & Hlog & _ & Hret2 & Hidem); [cbn; lia|].
    cbn [fname nargs fflags xfunc xstep xfinal example_agg_f] in *.
    assert (Hrun : forall w0,
               fst (sqlite3_create_function_v2 "example_agg_f" 3
                      (Z.lor SQLITE_UTF8 SQLITE_DETERMINISTIC)
                      None (Some example_agg_f_step) (Some example_agg_f_final) w0)
               = SQLITE_OK ->
               example_init_custom_agg_function w0
               = (0, snd (sqlite3_create_function_v2 "example_agg_f" 3
                            (Z.lor SQLITE_UTF8 SQLITE_DETERMINISTIC)
                            None (Some example_agg_f_step) (Some example_agg_f_final)
                            w0))).
    { intros w0 H0. unfold example_init_custom_agg_function.
      rewrite bind_run, H0. reflexivity. }
    rewrite (Hrun w Hret). cbn [fst snd]. rewrite (Hrun _ Hret2). cbn [fst snd].
    repeat split; assumption.
  - destruct (create_function_registers w c now_monotonic_function Hdb Hfl eq_refl)
      as (Hret & Hc & Hlog & _ & Hret2 & Hidem); [cbn; lia|].
    cbn [fname nargs fflags xfunc xstep xfinal now_monotonic_function] in *.
    assert (Hrun : forall w0,
               fst (sqlite3_create_function_v2 "now_monotonic" 0
                      (Z.lor SQLITE_UTF8 SQLITE_DETERMINISTIC)
                      (Some example_now_monotonic) None None w0)
               = SQLITE_OK ->
               example_init_custom_now_monotonic_function w0
               = (0, snd (sqlite3_create_function_v2 "now_monotonic" 0
                            (Z.lor SQLITE_UTF8 SQLITE_DETERMINISTIC)
                            (Some example_now_monotonic) None None w0))).
    { intros w0 H0. unfold example_init_custom_now_monotonic_function.
      rewrite bind_run, H0. reflexivity. }
    rewrite (Hrun w Hret). cbn [fst snd]. rewrite (Hrun _ Hret2). cbn [fst snd].
    repeat split; assumption.
Qed.

Lemma custom_functions_registered_witness :
  let w := set_db (Some (new_connection None empty_database)) (initial_world [] []) in
  fst (example_init_custom_agg_function w) = 0
  /\ fst (example_init_custom_now_monotonic_function w) = 0.
Proof.
  intros w.
  destruct (custom_functions_registered w (new_connection None empty_database)
              eq_refl eq_refl) as [[H1 _] [H2 _]].
  split; assumption.
Defined.

(** ** What every operation keeps *)

Section Keeps.

Variable R : world -> world -> Prop.
Hypothesis R_refl : forall w : world, R w w.
Hypothesis R_trans : forall a b c : world, R a b -> R b c -> R a c.

Lemma keeps_bind {A B : Type} (m : M A) (k : A -> M B) :
  keeps R m -> (forall a : A, keeps R (k a)) -> keeps R (bind m k).
Proof.
  intros Hm Hk w. rewrite bind_run.
  exact (R_trans _ _ _ (Hm w) (Hk (fst (m w)) (snd (m w)))).
Qed.

Lemma keeps_Return {A : Type} (a : A) : keeps R (Return a).
Proof. intros w. apply R_refl. Qed.

Lemma keeps_if {A : Type} (b : bool) (x y : M A) :
  keeps R x -> keeps R y -> keeps R (if b then x else y).
Proof. destruct b; auto. Qed.

End Keeps.

Lemma log_grows_refl (w : world) : log_grows w w.
Proof. exists []. symmetry. apply app_nil_r. Qed.

Lemma log_grows_trans (a b c : world) : log_grows a b -> log_grows b c -> log_grows a c.
Proof.
  intros [l1 H1] [l2 H2]. exists (l1 ++ l2). rewrite H2, H1. symmetry. apply app_assoc.
Qed.

Lemma log_grows_same (w w' : world) : log w' = log w -> log_grows w w'.
Proof. intros H. exists []. rewrite H. symmetry. apply app_nil_r. Qed.

Lemma syslog_grows (p : Z) (f m : string) (a : list log_arg) :
  keeps log_grows (syslog p f m a).
Proof. intros w. eexists. reflexivity. Qed.

Lemma printf_grows (fmt : string) (a : Z) : keeps log_grows (printf fmt a).
Proof. intros w. apply log_grows_same. reflexivity. Qed.

Lemma inject_log (w : world) : log (snd (inject w)) = log w.
Proof. unfold inject. destruct (faults w); reflexivity. Qed.

Lemma inject_grows : keeps log_grows inject.
Proof. intros w. apply log_grows_same, inject_log. Qed.

Ltac grows_bind :=
  apply (keeps_bind log_grows log_grows_trans); [exact inject_grows|intros ?f].

Lemma sqlite3_open_v2_grows (path : string) (flags : Z) :
  keeps log_grows (sqlite3_open_v2 path flags).
Proof.
  unfold sqlite3_open_v2. grows_bind. intros w. apply log_grows_same.
  destruct (negb (f =? SQLITE_OK)); [reflexivity|].
  destruct (Z.land flags SQLITE_OPEN_READWRITE =? 0); [reflexivity|].
  destruct (negb (Z.land flags SQLITE_OPEN_MEMORY =? 0)); [reflexivity|].
  destruct (find_file path (files w)); [reflexivity|].
  destruct (negb (Z.land flags SQLITE_OPEN_CREATE =? 0)); reflexivity.
Qed.

Lemma exec_all_grows (l : list sql) (c : sqlite3) (w : world) :
  log_grows w (snd (exec_all l c w)).
Proof.
  revert c w. induction l as [|s l IH]; intros c w; cbn [exec_all].
  - apply log_grows_refl.
  - destruct (open_cursor s [] c) as [q c']. destruct (drain q) as [rc lg].
    assert (H : log_grows w (add_log lg (store_conn s c' w))).
    { exists lg. rewrite add_log_log, store_conn_log. reflexivity. }
    destruct (rc =? SQLITE_OK).
    + eapply log_grows_trans; [exact H|apply IH].
    + exact H.
Qed.

Lemma sqlite3_exec_grows (l : list sql) : keeps log_grows (sqlite3_exec l).
Proof.
  unfold sqlite3_exec. grows_bind. intros w.
  destruct (negb (f =? SQLITE_OK)); [apply log_grows_refl|].
  destruct (db (example w)); [apply exec_all_grows|apply log_grows_refl].
Qed.

Lemma sqlite3_prepare_v3_grows (s : sql) (flags : Z) :
  keeps log_grows (sqlite3_prepare_v3 s flags).
Proof.
  unfold sqlite3_prepare_v3. grows_bind. intros w. apply log_grows_same.
  destruct (negb (f =? SQLITE_OK)); [reflexivity|].
  destruct (db (example w)) as [c|]; [|reflexivity].
  destruct (compiles s c); reflexivity.
Qed.

Lemma sqlite3_bind_text_grows (stmt : nat) (i : Z) (text : string) (n : Z) :
  keeps log_grows (sqlite3_bind_text stmt i text n).
Proof.
  unfold sqlite3_bind_text. grows_bind. intros w. apply log_grows_same.
  destruct (negb (f =? SQLITE_OK)); [reflexivity|].
  destruct (db (example w)) as [c|]; [|reflexivity].
  destruct (find_stmt stmt (stmts c)) as [st|]; [|reflexivity].
  destruct ((1 <=? i) && (i <=? parameter_count (stmt_sql st))); reflexivity.
Qed.

Lemma sqlite3_step_grows (stmt : nat) : keeps log_grows (sqlite3_step stmt).
Proof.
  unfold sqlite3_step. grows_bind. intros w.
  destruct (db (example w)) as [c|]; [|apply log_grows_refl].
  destruct (find_stmt stmt (stmts c)) as [st|]; [|apply log_grows_refl].
  destruct (negb (f =? SQLITE_OK)); [apply log_grows_same; reflexivity|].
  destruct (match pending st with
            | Some q => (q, c)
            | None => open_cursor (stmt_sql st) (bound st) c
            end) as [q c1].
  destruct q as [|it rest].
  - eexists. cbn [snd]. rewrite add_log_log, store_conn_log. reflexivity.
  - destruct (deliver it) as [[r|e] lg]; eexists; cbn [snd];
      rewrite add_log_log, store_conn_log; reflexivity.
Qed.

Lemma sqlite3_column_blob_grows (stmt : nat) (i : nat) :
  keeps log_grows (sqlite3_column_blob stmt i).
Proof. intros w. apply log_grows_refl. Qed.

Lemma sqlite3_column_int_grows (stmt : nat) (i : nat) :
  keeps log_grows (sqlite3_column_int stmt i).
Proof. intros w. apply log_grows_refl. Qed.

Lemma sqlite3_finalize_grows (stmt : nat) : keeps log_grows (sqlite3_finalize stmt).
Proof.
  unfold sqlite3_finalize. grows_bind. intros w. apply log_grows_same.
  destruct (db (example w)) as [c|]; [|reflexivity].
  destruct (find_stmt stmt (stmts c)); reflexivity.
Qed.

Lemma sqlite3_create_function_v2_grows (name : string) (n flags : Z)
  (xf : option scalar_callback) (xs : option step_callback) (xfi : option final_callback) :
  keeps log_grows (sqlite3_create_function_v2 name n flags xf xs xfi).
Proof.
  unfold sqlite3_create_function_v2. grows_bind. intros w. apply log_grows_same.
  destruct (negb (f =? SQLITE_OK)); [reflexivity|].
  destruct (db (example w)) as [c|]; [|reflexivity].
  match goal with |- context [if ?g then _ else _] => destruct g end; reflexivity.
Qed.

Lemma sqlite3_serialize_grows (image : database -> list byte) (schema : string) (mflags : Z) :
  keeps log_grows (sqlite3_serialize image schema mflags).
Proof.
  unfold sqlite3_serialize. grows_bind. intros w. apply log_grows_same.
  destruct (negb (f =? SQLITE_OK)); [reflexivity|].
  destruct (db (example w)) as [c|]; [|reflexivity].
  destruct (get_schema schema c); reflexivity.
Qed.

(** ** Failures are reported *)

Lemma reports_bind {A : Type} (name : string) (m : M A) (k : A -> M Z) :
  keeps log_grows m -> (forall a : A, reports name (k a)) -> reports name (bind m k).
Proof.
  intros Hm Hk w. rewrite bind_run.
  destruct (Hm w) as [l1 H1].
  destruct (Hk (fst (m w)) (snd (m w))) as (l2 & H2 & H3).
  exists (l1 ++ l2). split.
  - rewrite H2, H1. symmetry. apply app_assoc.
  - destruct H3 as [H3|(H3 & l0 & e & Hl & He)]; [left; exact H3|right].
    split; [exact H3|]. exists (l1 ++ l0), e. split; [|exact He].
    rewrite Hl. apply app_assoc.
Qed.

Lemma reports_fail (name msg : string) (a : list log_arg) :
  reports name (syslog LOG_ERR name msg a ;; Return (-1)).
Proof.
  intros w. eexists. split; [reflexivity|]. right. split; [reflexivity|].
  exists [], (entry LOG_ERR name msg a). repeat split.
Qed.

Lemma reports_done (name : string) : reports name (Return 0).
Proof.
  intros w. exists []. split; [symmetry; apply app_nil_r|left; reflexivity].
Qed.

Lemma reports_if (name : string) (b : bool) (x y : M Z) :
  reports name x -> reports name y -> reports name (if b then x else y).
Proof. destruct b; auto. Qed.

Lemma reports_grows (name : string) (m : M Z) : reports name m -> keeps log_grows m.
Proof. intros H w. destruct (H w) as (l & Hl & _). exists l. exact Hl. Qed.

Ltac reports_steps :=
  repeat first
    [ apply reports_fail
    | apply reports_done
    | apply reports_if
    | apply reports_bind;
      [ first [ apply syslog_grows | apply printf_grows | apply sqlite3_open_v2_grows
              | apply sqlite3_exec_grows | apply sqlite3_prepare_v3_grows
              | apply sqlite3_bind_text_grows | apply sqlite3_step_grows
              | apply sqlite3_column_blob_grows | apply sqlite3_column_int_grows
              | apply sqlite3_finalize_grows | apply sqlite3_create_function_v2_grows
              | apply sqlite3_serialize_grows | exact inject_grows
              | eapply reports_grows; eassumption ]
      | let a := fresh "a" in intros a;
        match type of a with
        | (_ * _)%type => destruct a as [? ?]
        | _ => idtac
        end ] ].

Lemma migration_full_reports :
  reports "example_init_schema_migration_full" example_init_schema_migration_full.
Proof. unfold example_init_schema_migration_full. reports_steps. Qed.

Lemma migration_reports :
  reports "example_init_schema_migration" example_init_schema_migration.
Proof.
  pose proof migration_full_reports as Hfull.
  unfold example_init_schema_migration. reports_steps.
Qed.

Lemma schema_memory_reports :
  reports "example_init_schema_memory" example_init_schema_memory.
Proof. unfold example_init_schema_memory. reports_steps. Qed.

Lemma custom_agg_function_reports :
  reports "example_init_custom_agg_function" example_init_custom_agg_function.
Proof. unfold example_init_custom_agg_function. reports_steps. Qed.

Lemma custom_now_monotonic_function_reports :
  reports "example_init_custom_now_monotonic_function"
          example_init_custom_now_monotonic_function.
Proof. unfold example_init_custom_now_monotonic_function. reports_steps. Qed.

Lemma init_with_reports (path : string) (flags : Z) :
  reports "example_init" (example_init_with path flags).
Proof.
  pose proof migration_reports as H1.
  pose proof schema_memory_reports as H2.
  pose proof custom_agg_function_reports as H3.
  unfold example_init_with, sqlite3_initialize. reports_steps.
Qed.

Lemma device_new_reports (deviceid : string) (deviceid_len : Z) :
  reports "example_device_new" (example_device_new deviceid deviceid_len).
Proof. unfold example_device_new. reports_steps. Qed.

(** The loop: a [return] from inside it is a reported -1. *)
Lemma query_loop_reports (n : nat) (stmt : nat) (ret : Z) (w : world) :
  exists l : list log_entry,
    log (snd (example_custom_aggregate_query_loop n stmt ret w)) = log w ++ l
    /\ match fst (example_custom_aggregate_query_loop n stmt ret w) with
       | inl v =>
           v = -1
           /\ exists (l0 : list log_entry) (e : log_entry),
                l = l0 ++ [e] /\ prio e = LOG_ERR
                /\ func e = "example_custom_aggregate_query"
       | inr _ => True
       end.
Proof.
  revert ret w. induction n as [|n IH]; intros ret w.
  - exists []. split; [symmetry; apply app_nil_r|exact I].
  - cbn [example_custom_aggregate_query_loop]. rewrite bind_run.
    destruct (sqlite3_step_grows stmt w) as [l1 H1].
    destruct (sqlite3_step stmt w) as [r w1]. cbn [fst snd] in *.
    destruct (SQLITE_DONE =? r).
    + exists l1. split; [exact H1|exact I].
    + destruct (negb (SQLITE_ROW =? r)).
      * eexists. split; [cbn; rewrite H1, <- app_assoc; reflexivity|].
        cbn. split; [reflexivity|]. eexists _, _. repeat split.
      * rewrite bind_run. cbn [sqlite3_column_blob fst snd]. rewrite bind_run.
        cbn [syslog fst snd].
        match goal with
        | |- context [example_custom_aggregate_query_loop n stmt r (add_log ?e ?w0)] =>
            destruct (IH r (add_log e w0)) as (l2 & H2 & H3);
            exists (l1 ++ e ++ l2); split;
            [ rewrite H2; cbn [log add_log]; rewrite H1, <- !app_assoc; reflexivity
            | destruct (fst (example_custom_aggregate_query_loop n stmt r (add_log e w0)))
                as [v|v]; [|exact I];
              destruct H3 as (Hv & l0 & e0 & Hl & He); split; [exact Hv|];
              exists (l1 ++ e ++ l0), e0; split; [|exact He];
              rewrite Hl, <- !app_assoc; reflexivity ]
        end.
Qed.

Lemma aggregate_query_reports :
  reports "example_custom_aggregate_query" example_custom_aggregate_query.
Proof.
  unfold example_custom_aggregate_query.
  apply reports_bind; [apply sqlite3_prepare_v3_grows|]. intros [ret stmt].
  apply reports_if; [apply reports_fail|].
  intros w. rewrite bind_run.
  destruct (query_loop_reports (Z.to_nat EXAMPLE_MAX_QUERY_LOOP_STEPS) stmt ret w)
    as (l & Hl & Hr).
  destruct (example_custom_aggregate_query_loop
              (Z.to_nat EXAMPLE_MAX_QUERY_LOOP_STEPS) stmt ret w) as [[v|r] w1].
  - cbn [fst snd] in *. exists l. split; [exact Hl|right]. exact Hr.
  - cbn [fst snd] in *. destruct (negb (SQLITE_DONE =? r)).
    + eexists. split; [cbn; rewrite Hl, <- app_assoc; reflexivity|].
      right. split; [reflexivity|]. eexists _, _. repeat split.
    + exists l. split; [exact Hl|left; reflexivity].
Qed.

Lemma serialize_reports (image : database -> list byte) :
  reports "example_serialize" (example_serialize image).
Proof. unfold example_serialize. reports_steps. Qed.

Lemma main_reports (image : database -> list byte) : reports "main" (main image).
Proof.
  pose proof (init_with_reports "db.sqlite" example_open_flags) as H1.
  pose proof (device_new_reports "0123456789012" 12) as H2.
  pose proof aggregate_query_reports as H3.
  pose proof (serialize_reports image) as H4.
  unfold main, example_init. reports_steps.
Qed.

(** X7: every operation of the program answers 0 or -1 and nothing else,
    whatever state the connection is in and whatever the engine fails
    with; the log is only appended to; and an operation that answers -1
    has written a [LOG_ERR] line under its own name as the last thing it
    logged.  So the callers' [-1 == ret] tests miss no failure of the
    program's own functions, and every failure can be traced in the log
    from [main] down to the function where it arose. *)
Theorem failures_are_reported :
  reports "example_init_schema_migration_full" example_init_schema_migration_full
  /\ reports "example_init_schema_migration" example_init_schema_migration
  /\ reports "example_init_schema_memory" example_init_schema_memory
  /\ reports "example_init_custom_agg_function" example_init_custom_agg_function
  /\ reports "example_init_custom_now_monotonic_function"
             example_init_custom_now_monotonic_function
  /\ reports "example_init" example_init
  /\ (forall (deviceid : string) (deviceid_len : Z),
         reports "example_device_new" (example_device_new deviceid deviceid_len))
  /\ reports "example_custom_aggregate_query" example_custom_aggregate_query
  /\ (forall image : database -> list byte,
         reports "example_serialize" (example_serialize image))
  /\ (forall image : database -> list byte, reports "main" (main image)).
Proof.
  split; [exact migration_full_reports|].
  split; [exact migration_reports|].
  split; [exact schema_memory_reports|].
  split; [exact custom_agg_function_reports|].
  split; [exact custom_now_monotonic_function_reports|].
  split; [exact (init_with_reports "db.sqlite" example_open_flags)|].
  split; [exact device_new_reports|].
  split; [exact aggregate_query_reports|].
  split; [exact serialize_reports|exact main_reports].
Qed.

(** ** What a run can never do *)

Lemma stays_sealed_refl (w : world) : stays_sealed w w.
Proof. intros H. split; [exact H|reflexivity]. Qed.

Lemma stays_sealed_trans (a b c : world) :
  stays_sealed a b -> stays_sealed b c -> stays_sealed a c.
Proof.
  intros H1 H2 Ha. destruct (H1 Ha) as [Hb Hf1]. destruct (H2 Hb) as [Hc Hf2].
  split; [exact Hc|]. rewrite Hf2. exact Hf1.
Qed.

(** Only the connection and the files matter. *)
Lemma stays_sealed_same (w w' : world) :
  db (example w') = db (example w) -> files w' = files w -> stays_sealed w w'.
Proof. intros Hd Hf H. split; [|exact Hf]. unfold sealed in *. rewrite Hd. exact H. Qed.

Lemma stays_sealed_conn (w w' : world) (c c' : sqlite3) :
  db (example w) = Some c ->
  db (example w') = Some c' ->
  (sealed_conn c -> sealed_conn c') ->
  files w' = files w ->
  stays_sealed w w'.
Proof.
  intros Hd Hd' Hc Hf H. split; [|exact Hf]. unfold sealed in *.
  rewrite Hd in H. rewrite Hd'. auto.
Qed.

Lemma set_schema_fixed (n : string) (d : database) (c : sqlite3) :
  backing (set_schema n d c) = backing c /\ functions (set_schema n d c) = functions c.
Proof. unfold set_schema. destruct (String.eqb n "main"); split; reflexivity. Qed.

Lemma insert_row_fixed (tbl : string) (cols : list string) (b : list (Z * value))
  (c c' : sqlite3) :
  insert_row tbl cols b c = Some c' ->
  backing c' = backing c /\ functions c' = functions c.
Proof.
  unfold insert_row. destruct (resolve_table tbl c) as [[[sch d] t]|]; [|discriminate].
  match goal with |- (if ?g then _ else _) = _ -> _ => destruct g end; [|discriminate].
  intros H. injection H as <-. apply set_schema_fixed.
Qed.

Lemma apply_sql_fixed (s : sql) (c : sqlite3) :
  backing (snd (apply_sql s c)) = backing c
  /\ functions (snd (apply_sql s c)) = functions c.
Proof.
  destruct s; cbn [apply_sql]; try (split; reflexivity).
  - destruct (autocommit c); split; reflexivity.
  - destruct (autocommit c); split; reflexivity.
  - destruct (get_schema schema c) as [d|]; [|split; reflexivity].
    destruct (find_table (tname def) (tables d)); [split; reflexivity|].
    cbn [snd]. apply set_schema_fixed.
  - destruct (autocommit c); split; reflexivity.
  - destruct (String.eqb alias "main" || String.eqb alias "temp"); [split; reflexivity|].
    destruct (find_attached alias (attached c)); split; reflexivity.
Qed.

Lemma open_cursor_fixed (s : sql) (b : list (Z * value)) (c : sqlite3) :
  backing (snd (open_cursor s b c)) = backing c
  /\ functions (snd (open_cursor s b c)) = functions c.
Proof.
  destruct s;
    try (unfold open_cursor;
         match goal with
         | |- context [apply_sql ?s c] =>
             pose proof (apply_sql_fixed s c) as H;
             destruct (apply_sql s c) as [rc c']; exact H
         end).
  - split; reflexivity.
  - cbn [open_cursor]. destruct (insert_row tbl cols b c) as [c'|] eqn:E;
      [|split; reflexivity].
    cbn [snd]. eapply insert_row_fixed. exact E.
  - cbn [open_cursor]. destruct (resolve_table tbl c) as [[[sch d] t]|];
      [|split; reflexivity].
    destruct (find_function fn _ (functions c)); [|split; reflexivity].
    destruct (column_indexes fargs (columns (tdef t))); [|split; reflexivity].
    destruct (column_index group_by (columns (tdef t))); split; reflexivity.
Qed.

Lemma open_cursor_sealed (s : sql) (b : list (Z * value)) (c : sqlite3) :
  sealed_conn c -> sealed_conn (snd (open_cursor s b c)).
Proof.
  intros [Hb Hf]. destruct (open_cursor_fixed s b c) as [H1 H2].
  split; [rewrite H1; exact Hb|rewrite H2; exact Hf].
Qed.

(** Putting back a memory-resident connection writes no file. *)
Lemma store_conn_sealed (s : sql) (c : sqlite3) (w : world) :
  sealed_conn c ->
  db (example (store_conn s c w)) = Some c /\ files (store_conn s c w) = files w.
Proof.
  intros [Hb _]. unfold store_conn. rewrite Hb. split; reflexivity.
Qed.

Lemma syslog_sealed (p : Z) (f m : string) (a : list log_arg) :
  keeps stays_sealed (syslog p f m a).
Proof. intros w. apply stays_sealed_same; reflexivity. Qed.

Lemma printf_sealed (fmt : string) (a : Z) : keeps stays_sealed (printf fmt a).
Proof. intros w. apply stays_sealed_same; reflexivity. Qed.

Lemma inject_sealed : keeps stays_sealed inject.
Proof.
  intros w. unfold inject. destruct (faults w); apply stays_sealed_same; reflexivity.
Qed.

Ltac sealed_bind :=
  apply (keeps_bind stays_sealed stays_sealed_trans); [exact inject_sealed|intros ?f].

(** With [SQLITE_OPEN_MEMORY] among the flags no file is opened or
    created. *)
Lemma sqlite3_open_v2_sealed (path : string) (flags : Z) :
  Z.land flags SQLITE_OPEN_MEMORY <> 0 ->
  keeps stays_sealed (sqlite3_open_v2 path flags).
Proof.
  intros Hm. unfold sqlite3_open_v2. sealed_bind. intros w.
  destruct (negb (f =? SQLITE_OK)); [apply stays_sealed_refl|].
  destruct (Z.land flags SQLITE_OPEN_READWRITE =? 0); [apply stays_sealed_refl|].
  destruct (Z.eqb_spec (Z.land flags SQLITE_OPEN_MEMORY) 0) as [E|_]; [contradiction|].
  cbn [negb snd]. intros _. split; [|reflexivity].
  unfold sealed. cbn. split; [reflexivity|]. intros g [].
Qed.

Lemma exec_all_sealed (l : list sql) (c : sqlite3) (w : world) :
  sealed_conn c -> stays_sealed w (snd (exec_all l c w)).
Proof.
  revert c w. induction l as [|s l IH]; intros c w Hc; cbn [exec_all].
  - apply stays_sealed_refl.
  - pose proof (open_cursor_sealed s [] c Hc) as Hc'.
    destruct (open_cursor s [] c) as [q c']. cbn [snd] in Hc'.
    destruct (drain q) as [rc lg].
    destruct (store_conn_sealed s c' w Hc') as [Hd Hf].
    assert (H : stays_sealed w (add_log lg (store_conn s c' w))).
    { intros _. split; [|exact Hf]. unfold sealed. rewrite add_log_db, Hd. exact Hc'. }
    destruct (rc =? SQLITE_OK).
    + eapply stays_sealed_trans; [exact H|apply IH; exact Hc'].
    + exact H.
Qed.

Lemma sqlite3_exec_sealed (l : list sql) : keeps stays_sealed (sqlite3_exec l).
Proof.
  unfold sqlite3_exec. sealed_bind. intros w.
  destruct (negb (f =? SQLITE_OK)); [apply stays_sealed_refl|].
  destruct (db (example w)) as [c|] eqn:Hd; [|apply stays_sealed_refl].
  intros Hs. apply exec_all_sealed; [|exact Hs].
  unfold sealed in Hs. rewrite Hd in Hs. exact Hs.
Qed.

Lemma sqlite3_prepare_v3_sealed (s : sql) (flags : Z) :
  keeps stays_sealed (sqlite3_prepare_v3 s flags).
Proof.
  unfold sqlite3_prepare_v3. sealed_bind. intros w.
  destruct (negb (f =? SQLITE_OK)); [apply stays_sealed_refl|].
  destruct (db (example w)) as [c|] eqn:Hd; [|apply stays_sealed_refl].
  destruct (compiles s c); [|apply stays_sealed_refl].
  eapply stays_sealed_conn; [exact Hd|reflexivity| |reflexivity].
  intros H. exact H.
Qed.

Lemma sqlite3_bind_text_sealed (stmt : nat) (i : Z) (text : string) (n : Z) :
  keeps stays_sealed (sqlite3_bind_text stmt i text n).
Proof.
  unfold sqlite3_bind_text. sealed_bind. intros w.
  destruct (negb (f =? SQLITE_OK)); [apply stays_sealed_refl|].
  destruct (db (example w)) as [c|] eqn:Hd; [|apply stays_sealed_refl].
  destruct (find_stmt stmt (stmts c)) as [st|]; [|apply stays_sealed_refl].
  destruct ((1 <=? i) && (i <=? parameter_count (stmt_sql st)));
    [|apply stays_sealed_refl].
  eapply stays_sealed_conn; [exact Hd|reflexivity| |reflexivity].
  intros H. exact H.
Qed.

Lemma sqlite3_step_sealed (stmt : nat) : keeps stays_sealed (sqlite3_step stmt).
Proof.
  unfold sqlite3_step. sealed_bind. intros w.
  destruct (db (example w)) as [c|] eqn:Hd; [|apply stays_sealed_refl].
  destruct (find_stmt stmt (stmts c)) as [st|]; [|apply stays_sealed_refl].
  destruct (negb (f =? SQLITE_OK)).
  { eapply stays_sealed_conn; [exact Hd|reflexivity| |reflexivity]. intros H. exact H. }
  intros Hs. assert (Hc : sealed_conn c) by (unfold sealed in Hs; rewrite Hd in Hs; exact Hs).
  assert (Hc1 : sealed_conn (snd (match pending st with
                                  | Some q => (q, c)
                                  | None => open_cursor (stmt_sql st) (bound st) c
                                  end))).
  { destruct (pending st); [exact Hc|apply open_cursor_sealed; exact Hc]. }
  destruct (match pending st with
            | Some q => (q, c)
            | None => open_cursor (stmt_sql st) (bound st) c
            end) as [q c1].
  cbn [snd] in Hc1.
  assert (Hput : forall (st' : sqlite3_stmt) (lg : list log_entry),
             let w' := add_log lg (store_conn (stmt_sql st)
                                     (set_stmts (update_stmt st' (stmts c1)) c1) w) in
             sealed w' /\ files w' = files w).
  { intros st' lg.
    assert (Hc2 : sealed_conn (set_stmts (update_stmt st' (stmts c1)) c1)) by exact Hc1.
    destruct (store_conn_sealed (stmt_sql st) _ w Hc2) as [Hd2 Hf2].
    split; [|exact Hf2]. unfold sealed. rewrite add_log_db, Hd2. exact Hc2. }
  destruct q as [|it rest].
  - apply Hput.
  - destruct (deliver it) as [[r|e] lg]; apply Hput.
Qed.

Lemma sqlite3_column_blob_sealed (stmt : nat) (i : nat) :
  keeps stays_sealed (sqlite3_column_blob stmt i).
Proof. intros w. apply stays_sealed_refl. Qed.

Lemma sqlite3_column_int_sealed (stmt : nat) (i : nat) :
  keeps stays_sealed (sqlite3_column_int stmt i).
Proof. intros w. apply stays_sealed_refl. Qed.

Lemma sqlite3_finalize_sealed (stmt : nat) : keeps stays_sealed (sqlite3_finalize stmt).
Proof.
  unfold sqlite3_finalize. sealed_bind. intros w.
  destruct (db (example w)) as [c|] eqn:Hd; [|apply stays_sealed_refl].
  destruct (find_stmt stmt (stmts c)) as [st|]; [|apply stays_sealed_refl].
  eapply stays_sealed_conn; [exact Hd|reflexivity| |reflexivity].
  intros H. exact H.
Qed.

(** Registering under the name example_agg_f adds no other name. *)
Lemma sqlite3_create_function_v2_sealed (n flags : Z)
  (xf : option scalar_callback) (xs : option step_callback) (xfi : option final_callback) :
  keeps stays_sealed (sqlite3_create_function_v2 "example_agg_f" n flags xf xs xfi).
Proof.
  unfold sqlite3_create_function_v2. sealed_bind. intros w.
  destruct (negb (f =? SQLITE_OK)); [apply stays_sealed_refl|].
  destruct (db (example w)) as [c|] eqn:Hd; [|apply stays_sealed_refl].
  match goal with |- context [if ?g then _ else _] => destruct g end;
    [|apply stays_sealed_refl].
  eapply stays_sealed_conn; [exact Hd|reflexivity| |reflexivity].
  intros [Hb Hf]. split; [exact Hb|].
  cbn [functions set_functions]. intros g [<-|Hg]; [reflexivity|].
  apply filter_In in Hg. apply Hf, Hg.
Qed.

Lemma sqlite3_serialize_sealed (image : database -> list byte) (schema : string)
  (mflags : Z) :
  keeps stays_sealed (sqlite3_serialize image schema mflags).
Proof.
  unfold sqlite3_serialize. sealed_bind. intros w.
  destruct (negb (f =? SQLITE_OK)); [apply stays_sealed_refl|].
  destruct (db (example w)) as [c|]; [|apply stays_sealed_refl].
  destruct (get_schema schema c); apply stays_sealed_refl.
Qed.

Ltac sealed_steps :=
  repeat first
    [ apply (keeps_Return stays_sealed stays_sealed_refl)
    | apply keeps_if
    | eassumption
    | apply (keeps_bind stays_sealed stays_sealed_trans);
      [ first [ eassumption
              | apply syslog_sealed | apply printf_sealed
              | apply sqlite3_exec_sealed | apply sqlite3_prepare_v3_sealed
              | apply sqlite3_bind_text_sealed | apply sqlite3_step_sealed
              | apply sqlite3_column_blob_sealed | apply sqlite3_column_int_sealed
              | apply sqlite3_finalize_sealed | apply sqlite3_create_function_v2_sealed
              | apply sqlite3_serialize_sealed | exact inject_sealed ]
      | let a := fresh "a" in intros a;
        match type of a with
        | (_ * _)%type => destruct a as [? ?]
        | _ => idtac
        end ] ].

Lemma migration_full_sealed : keeps stays_sealed example_init_schema_migration_full.
Proof. unfold example_init_schema_migration_full. sealed_steps. Qed.

Lemma migration_sealed : keeps stays_sealed example_init_schema_migration.
Proof.
  pose proof migration_full_sealed as Hfull.
  unfold example_init_schema_migration. sealed_steps.
Qed.

Lemma schema_memory_sealed : keeps stays_sealed example_init_schema_memory.
Proof. unfold example_init_schema_memory. sealed_steps. Qed.

Lemma custom_agg_function_sealed : keeps stays_sealed example_init_custom_agg_function.
Proof. unfold example_init_custom_agg_function. sealed_steps. Qed.

Lemma init_sealed : keeps stays_sealed example_init.
Proof.
  pose proof migration_sealed as H1.
  pose proof schema_memory_sealed as H2.
  pose proof custom_agg_function_sealed as H3.
  assert (H4 : keeps stays_sealed (sqlite3_open_v2 "db.sqlite" example_open_flags)).
  { apply sqlite3_open_v2_sealed. vm_compute. discriminate. }
  unfold example_init, example_init_with, sqlite3_initialize. sealed_steps.
Qed.

Lemma device_new_sealed (deviceid : string) (deviceid_len : Z) :
  keeps stays_sealed (example_device_new deviceid deviceid_len).
Proof. unfold example_device_new. sealed_steps. Qed.

Lemma query_loop_sealed (n : nat) (stmt : nat) (ret : Z) :
  keeps stays_sealed (example_custom_aggregate_query_loop n stmt ret).
Proof.
  revert ret. induction n as [|n IH]; intros ret;
    cbn [example_custom_aggregate_query_loop]; sealed_steps.
  apply IH.
Qed.

Lemma aggregate_query_sealed : keeps stays_sealed example_custom_aggregate_query.
Proof.
  unfold example_custom_aggregate_query.
  apply (keeps_bind stays_sealed stays_sealed_trans);
    [apply sqlite3_prepare_v3_sealed|]. intros [ret stmt].
  apply keeps_if; [sealed_steps|].
  apply (keeps_bind stays_sealed stays_sealed_trans); [apply query_loop_sealed|].
  intros [v|r]; sealed_steps.
Qed.

Lemma serialize_sealed (image : database -> list byte) :
  keeps stays_sealed (example_serialize image).
Proof. unfold example_serialize. sealed_steps. Qed.

Lemma main_sealed (image : database -> list byte) : keeps stays_sealed (main image).
Proof.
  pose proof init_sealed as H1.
  pose proof (device_new_sealed "0123456789012" 12) as H2.
  pose proof aggregate_query_sealed as H3.
  pose proof (serialize_sealed image) as H4.
  unfold main. sealed_steps.
Qed.

Lemma initial_world_sealed (fs : list (string * database)) (script : list Z) :
  sealed (initial_world fs script).
Proof. exact I. Qed.

(** X8: whatever the engine fails with, and at whichever call, a run of
    the program leaves every file as it found it: the exit status may be 0
    or -1, but [main] neither reads, creates nor writes "db.sqlite" or any
    other file, because the one connection it ever opens is
    memory-resident. *)
Theorem run_never_touches_files :
  forall (image : database -> list byte) (fs : list (string * database))
         (script : list Z),
    snd (run image fs script) = fs
    /\ match db (example (snd (main image (initial_world fs script)))) with
       | Some c => backing c = None
       | None => True
       end.
Proof.
  intros image fs script.
  destruct (main_sealed image (initial_world fs script) (initial_world_sealed fs script))
    as [Hs Hf].
  split.
  - unfold run. destruct (main image (initial_world fs script)) as [r w]. exact Hf.
  - unfold sealed in Hs.
    destruct (db (example (snd (main image (initial_world fs script))))); [apply Hs|exact I].
Qed.

(** X9: the scalar now_monotonic is never made available: after any run
    of [main], and after [example_init] on its own, under every failure
    script, the connection offers no function under another name than
    example_agg_f, so a lookup of now_monotonic finds nothing.
    [example_init_custom_now_monotonic_function] is not among the calls
    [example_init] makes. *)
Theorem now_monotonic_never_registered :
  forall (image : database -> list byte) (fs : list (string * database))
         (script : list Z) (c : sqlite3),
    (db (example (snd (main image (initial_world fs script)))) = Some c
     \/ db (example (snd (example_init (initial_world fs script)))) = Some c) ->
    (forall (n : string) (k : Z) (g : function_def),
        find_function n k (functions c) = Some g -> n = "example_agg_f")
    /\ find_function "now_monotonic" 0 (functions c) = None.
Proof.
  intros image fs script c Hc.
  assert (Hs : sealed_conn c).
  { destruct Hc as [Hc|Hc].
    - destruct (main_sealed image (initial_world fs script)
                  (initial_world_sealed fs script)) as [Hs _].
      unfold sealed in Hs. rewrite Hc in Hs. exact Hs.
    - destruct (init_sealed (initial_world fs script)
                  (initial_world_sealed fs script)) as [Hs _].
      unfold sealed in Hs. rewrite Hc in Hs. exact Hs. }
  destruct Hs as [_ Hf].
  assert (Hfind : forall (n : string) (k : Z) (g : function_def),
             find_function n k (functions c) = Some g -> n = "example_agg_f").
  { revert Hf. generalize (functions c) as fns.
    induction fns as [|h fns IH]; intros Hf n k g; cbn [find_function]; [discriminate|].
    destruct (String.eqb_spec (fname h) n) as [E|E]; cbn [andb].
    - destruct (nargs h =? k).
      + intros _. rewrite <- E. apply Hf. left. reflexivity.
      + apply IH. intros g' Hg'. apply Hf. right. exact Hg'.
    - apply IH. intros g' Hg'. apply Hf. right. exact Hg'. }
  split; [exact Hfind|].
  destruct (find_function "now_monotonic" 0 (functions c)) as [g|] eqn:E; [|reflexivity].
  apply Hfind in E. discriminate E.
Qed.

Lemma now_monotonic_never_registered_witness :
  find_function "now_monotonic" 0
    (functions (conn_of (snd (main (fun _ => []) (initial_world [] [0; 0; 0; 7])))))
  = None.
Proof.
  apply (now_monotonic_never_registered (fun _ => []) [] [0; 0; 0; 7]).
  left. apply conn_of_some. vm_compute. reflexivity.
Defined.

(** ** Device ids *)

(** [example_device_new] when the engine fails nowhere: the insert of the
    bound prefix decides. *)
Lemma device_new_runs_insert (w : world) (c : sqlite3) (deviceid : string)
  (deviceid_len : Z) :
  db (example w) = Some c ->
  faults w = [] ->
  compiles (SqlInsert "devices" ["deviceid"]) c = true ->
  0 <= deviceid_len <= Z.of_nat (String.length deviceid) ->
  deviceid_len < 2147483648 ->
  let prefix := substring 0 (Z.to_nat deviceid_len) deviceid in
  let (ret, w') := example_device_new deviceid deviceid_len w in
  match insert_row "devices" ["deviceid"] [(1, VText prefix)] c with
  | Some c1 =>
      ret = 0 /\ log w' = log w /\ faults w' = []
      /\ exists c', db (example w') = Some c'
                    /\ main_db c' = main_db c1 /\ attached c' = attached c1
                    /\ stmts c' = stmts c
  | None =>
      ret = -1
      /\ log w' = log w ++ [device_step_line SQLITE_CONSTRAINT]
      /\ faults w' = []
      /\ exists c', db (example w') = Some c'
                    /\ main_db c' = main_db c /\ attached c' = attached c
                    /\ map stmt_id (stmts c') = next_stmt c :: map stmt_id (stmts c)
  end.
Proof.
  intros Hdb Hfl Hcomp Hlen Hint prefix.
  destruct w as [[sent dbo] fs lg out fl]. cbn in Hdb, Hfl. subst dbo fl.
  unfold example_device_new, bind at 1, sqlite3_prepare_v3, bind at 1, inject.
  cbn [faults db example negb Z.eqb SQLITE_OK]. rewrite Hcomp.
  cbn [negb Z.eqb SQLITE_OK].
  unfold bind at 1, sqlite3_bind_text, bind at 1, inject.
  cbn [faults db example set_db negb Z.eqb SQLITE_OK stmts push_stmt find_stmt
       stmt_id new_stmt].
  rewrite Nat.eqb_refl.
  cbn [stmt_sql new_stmt parameter_count List.length Z.of_nat Pos.of_succ_nat
       Z.leb Z.compare Pos.compare Pos.compare_cont andb].
  rewrite uint32_int_small by lia.
  destruct (Z.ltb_spec deviceid_len 0) as [Hneg|_]; [lia|].
  fold prefix. clearbody prefix. clear Hcomp.
  destruct c as [bk md att ac fk fns sts nx].
  cbn -[insert_row]. rewrite ?Nat.eqb_refl.
  unfold bind at 1, sqlite3_step, bind at 1, inject.
  cbn -[insert_row]. rewrite ?Nat.eqb_refl. cbn -[insert_row].
  unfold set_stmts, push_stmt, new_stmt. cbn -[insert_row].
  match goal with
  | |- context [insert_row ?t ?cs ?b
                  {| backing := _; main_db := _; attached := _; autocommit := _;
                     foreign_keys := _; functions := _;
                     stmts := ?x :: ?rest; next_stmt := ?n |}] =>
      rewrite (insert_row_frame t cs b bk md att ac fk fns (x :: rest) sts n nx)
  end.
  destruct (insert_row "devices" ["deviceid"] [(1, VText prefix)]
              {| backing := bk; main_db := md; attached := att; autocommit := ac;
                 foreign_keys := fk; functions := fns; stmts := sts;
                 next_stmt := nx |}) as [c1|] eqn:Hins.
  + cbn -[insert_row store_conn]. rewrite ?Nat.eqb_refl.
    unfold bind at 1, sqlite3_finalize, bind at 1, inject.
    rewrite add_log_faults, store_conn_faults. cbn [faults set_db].
    rewrite add_log_db, store_conn_db.
    cbn -[store_conn]. rewrite ?Nat.eqb_refl. cbn -[store_conn].
    split; [reflexivity|].
    rewrite store_conn_log, store_conn_faults. cbn [log faults set_db].
    split; [apply app_nil_r|]. split; [reflexivity|].
    eexists. split; [reflexivity|].
    cbn. rewrite ?Nat.eqb_refl. repeat split; reflexivity.
  + cbn -[insert_row store_conn]. rewrite ?Nat.eqb_refl.
    split; [reflexivity|].
    rewrite store_conn_log, store_conn_db, store_conn_faults. cbn [log faults set_db].
    split; [rewrite app_nil_r; reflexivity|]. split; [reflexivity|].
    eexists. split; [reflexivity|]. cbn. rewrite ?Nat.eqb_refl. repeat split; reflexivity.
Qed.

Lemma find_table_replace (n : string) (t t' : table) (ts : list table) :
  find_table n ts = Some t ->
  tname (tdef t') = n ->
  find_table n (replace_table t' ts) = Some t'.
Proof.
  intros Hfind Hn. induction ts as [|u ts IH]; [discriminate Hfind|].
  cbn [find_table replace_table] in *. rewrite Hn.
  destruct (String.eqb (tname (tdef u)) n) eqn:E.
  - cbn [find_table]. rewrite Hn, String.eqb_refl. reflexivity.
  - cbn [find_table]. rewrite E. apply IH, Hfind.
Qed.

Lemma key_conflict_devices (id : string) (rs : list (list value)) :
  existsb (fun r => values_eqb (project [0%nat] r) (project [0%nat] [VText id])) rs
  = device_known id rs.
Proof.
  unfold device_known. induction rs as [|r rs IH]; [reflexivity|].
  cbn [existsb]. rewrite IH. f_equal. cbn [project map values_eqb nth].
  apply andb_true_r.
Qed.

(** What the constraints of table devices let in: a text of SQL length 12
    that is not there yet. *)
Lemma insert_device (id : string) (rs : list (list value)) (c : sqlite3) :
  devices_are rs c ->
  insert_row "devices" ["deviceid"] [(1, VText id)] c
  = if (sql_length_text false id =? 12) && negb (device_known id rs)
    then Some (set_main_db
                 {| user_version := user_version (main_db c);
                    tables := replace_table
                                {| tdef := devices_table; rows := rs ++ [[VText id]] |}
                                (tables (main_db c)) |} c)
    else None.
Proof.
  intros Hd. unfold devices_are in Hd. unfold insert_row, resolve_table. rewrite Hd.
  cbn [tdef rows]. unfold key_conflict.
  cbn [tdef rows devices_table columns primary_key fkeys insert_values map col cname
       index_of String.eqb Ascii.eqb Bool.eqb lookup_param Z.of_nat Z.add Z.eqb
       Pos.eqb columns_ok column_ok notnull ccheck check_holds column_index
       column_indexes nth sql_length is_null negb orb andb forallb].
  rewrite key_conflict_devices, orb_true_r, !andb_true_r.
  destruct (sql_length_text false id =? 12); [|reflexivity].
  destruct (device_known id rs); reflexivity.
Qed.

(** An unbound parameter is NULL, which the column refuses. *)
Lemma insert_device_unbound (rs : list (list value)) (c : sqlite3) :
  devices_are rs c -> insert_row "devices" ["deviceid"] [] c = None.
Proof.
  intros Hd. unfold devices_are in Hd. unfold insert_row, resolve_table. rewrite Hd.
  reflexivity.
Qed.

Lemma devices_compile (rs : list (list value)) (c : sqlite3) :
  devices_are rs c -> compiles (SqlInsert "devices" ["deviceid"]) c = true.
Proof.
  intros Hd. unfold devices_are in Hd. unfold compiles, resolve_table. rewrite Hd.
  reflexivity.
Qed.

Lemma device_known_last (id : string) (rs : list (list value)) :
  device_known id (rs ++ [[VText id]]) = true.
Proof.
  unfold device_known. rewrite existsb_app. cbn [existsb nth value_eqb].
  rewrite String.eqb_refl. apply orb_true_r.
Qed.

(** X10: table devices takes each id once.  With no failure from the
    engine, [example_device_new] answers 0 exactly when the bound prefix
    of the caller's string has SQL length 12 and is not a device id
    already stored; the row is then appended, nothing is logged and no
    statement is left behind.  Otherwise it answers -1, the table is as
    it was and the log gains the line of the failed [sqlite3_step] with
    [SQLITE_CONSTRAINT].  Either way a second call with the same
    arguments answers -1 and leaves the rows as the first call left
    them. *)
Theorem devices_take_each_id_once :
  forall (w : world) (c : sqlite3) (rs : list (list value)) (deviceid : string)
         (deviceid_len : Z),
    db (example w) = Some c ->
    faults w = [] ->
    devices_are rs c ->
    0 <= deviceid_len <= Z.of_nat (String.length deviceid) ->
    deviceid_len < 2147483648 ->
    let id := substring 0 (Z.to_nat deviceid_len) deviceid in
    let (ret, w') := example_device_new deviceid deviceid_len w in
    (if (sql_length_text false id =? 12) && negb (device_known id rs)
     then ret = 0 /\ rows_of "devices" w' = rs ++ [[VText id]]
          /\ log w' = log w /\ live_statements w' = live_statements w
     else ret = -1 /\ rows_of "devices" w' = rs
          /\ log w' = log w ++ [device_step_line SQLITE_CONSTRAINT])
    /\ let (ret2, w2) := example_device_new deviceid deviceid_len w' in
       ret2 = -1 /\ rows_of "devices" w2 = rows_of "devices" w'.
Proof.
  intros w c rs deviceid deviceid_len Hdb Hfl Hd Hlen Hint id.
  pose proof (device_new_runs_insert w c deviceid deviceid_len Hdb Hfl
                (devices_compile rs c Hd) Hlen Hint) as H1.
  cbv zeta in H1. fold id in H1.
  destruct (example_device_new deviceid deviceid_len w) as [ret w'].
  rewrite (insert_device id rs c Hd) in H1.
  assert (Hnext : forall (rs' : list (list value)) (c' : sqlite3),
             db (example w') = Some c' -> faults w' = [] -> devices_are rs' c' ->
             (sql_length_text false id =? 12) && negb (device_known id rs') = false ->
             let (ret2, w2) := example_device_new deviceid deviceid_len w' in
             ret2 = -1 /\ rows_of "devices" w2 = rs').
  { intros rs' c' Hdb' Hfl' Hd' Hno.
    pose proof (device_new_runs_insert w' c' deviceid deviceid_len Hdb' Hfl'
                  (devices_compile rs' c' Hd') Hlen Hint) as H2.
    cbv zeta in H2. fold id in H2.
    destruct (example_device_new deviceid deviceid_len w') as [ret2 w2].
    rewrite (insert_device id rs' c' Hd'), Hno in H2.
    destruct H2 as (Hr & _ & _ & c2 & Hdb2 & Hm2 & _). split; [exact Hr|].
    unfold rows_of. rewrite Hdb2, Hm2. unfold devices_are in Hd'. rewrite Hd'.
    reflexivity. }
  destruct ((sql_length_text false id =? 12) && negb (device_known id rs)) eqn:Hok.
  - destruct H1 as (Hr & Hlog & Hfl' & c' & Hdb' & Hm & _ & Hst).
    assert (Hd' : devices_are (rs ++ [[VText id]]) c').
    { unfold devices_are. rewrite Hm. cbn [main_db set_main_db tables].
      eapply find_table_replace; [exact Hd|reflexivity]. }
    assert (Hrows : rows_of "devices" w' = rs ++ [[VText id]]).
    { unfold rows_of. rewrite Hdb'. unfold devices_are in Hd'. rewrite Hd'. reflexivity. }
    split.
    + split; [exact Hr|]. split; [exact Hrows|]. split; [exact Hlog|].
      unfold live_statements. rewrite Hdb', Hdb, Hst. reflexivity.
    + rewrite Hrows. apply (Hnext _ c' Hdb' Hfl' Hd').
      rewrite device_known_last. apply andb_false_r.
  - destruct H1 as (Hr & Hlog & Hfl' & c' & Hdb' & Hm & _).
    assert (Hd' : devices_are rs c') by (unfold devices_are; rewrite Hm; exact Hd).
    assert (Hrows : rows_of "devices" w' = rs).
    { unfold rows_of. rewrite Hdb'. unfold devices_are in Hd'. rewrite Hd'. reflexivity. }
    split.
    + split; [exact Hr|]. split; [exact Hrows|exact Hlog].
    + rewrite Hrows. apply (Hnext _ c' Hdb' Hfl' Hd'). exact Hok.
Qed.

Lemma devices_take_each_id_once_witness :
  fst (example_device_new "0123456789012" 12 ready_world) = 0
  /\ fst (example_device_new "0123456789012" 12
            (snd (example_device_new "0123456789012" 12 ready_world))) = -1.
Proof.
  assert (Hdb : db (example ready_world) = Some ready_conn)
    by (apply conn_of_some; vm_compute; reflexivity).
  assert (Hfl : faults ready_world = []) by (vm_compute; reflexivity).
  assert (Hd : devices_are [] ready_conn) by (vm_compute; reflexivity).
  assert (Hlen : 0 <= 12 <= Z.of_nat (String.length "0123456789012")) by (cbn; lia).
  assert (Hint : 12 < 2147483648) by lia.
  pose proof (devices_take_each_id_once ready_world ready_conn [] "0123456789012" 12
                Hdb Hfl Hd Hlen Hint) as H.
  cbv zeta in H.
  destruct (example_device_new "0123456789012" 12 ready_world) as [ret w'].
  destruct H as [H1 H2]. cbn [fst snd].
  destruct (example_device_new "0123456789012" 12 w') as [ret2 w2].
  split; [|apply H2].
  assert (Hok : (sql_length_text false (substring 0 (Z.to_nat 12) "0123456789012") =? 12)
                && negb (device_known (substring 0 (Z.to_nat 12) "0123456789012") [])
                = true) by (vm_compute; reflexivity).
  rewrite Hok in H1. apply H1.
Defined.

(** X11: a failed [sqlite3_bind_text] goes unnoticed.  The engine's
    result codes are never -1, the one value the test after the call
    looks for.  When binding fails with any other code the function goes
    on to step the statement with its parameter unbound, that is NULL;
    the column refuses it, and what is logged is a failed [sqlite3_step]
    with [SQLITE_CONSTRAINT], not the bind failure and not its code.  The
    function answers -1, stores nothing and leaves the statement
    unfinalized. *)
Theorem bind_failure_goes_unnoticed :
  forall (w : world) (c : sqlite3) (rs : list (list value)) (deviceid : string)
         (deviceid_len f : Z) (rest : list Z),
    db (example w) = Some c ->
    devices_are rs c ->
    faults w = SQLITE_OK :: f :: SQLITE_OK :: rest ->
    f <> SQLITE_OK ->
    f <> -1 ->
    let (ret, w') := example_device_new deviceid deviceid_len w in
    ret = -1
    /\ log w' = log w ++ [device_step_line SQLITE_CONSTRAINT]
    /\ rows_of "devices" w' = rs
    /\ live_statements w' = next_stmt c :: live_statements w
    /\ faults w' = rest.
Proof.
  intros w c rs deviceid deviceid_len f rest Hdb Hd Hfl Hf0 Hf1.
  pose proof (devices_compile rs c Hd) as Hcomp.
  destruct w as [[sent dbo] fs lg out fl]. cbn in Hdb, Hfl. subst dbo fl.
  unfold example_device_new, bind at 1, sqlite3_prepare_v3, bind at 1, inject.
  cbn [faults db example set_faults negb Z.eqb SQLITE_OK]. rewrite Hcomp.
  cbn [negb Z.eqb SQLITE_OK].
  unfold bind at 1, sqlite3_bind_text, bind at 1, inject.
  cbn [faults db example set_db set_faults].
  destruct (Z.eqb_spec f SQLITE_OK) as [E|_]; [contradiction|]. cbn [negb].
  change (match f with
          | Z.neg q => (1 =? q)%positive
          | _ => false
          end) with (-1 =? f).
  destruct (Z.eqb_spec (-1) f) as [E|_]; [symmetry in E; contradiction|].
  clear Hcomp. pose proof (insert_device_unbound rs c Hd) as Hins.
  unfold devices_are in Hd.
  destruct c as [bk md att ac fk fns sts nx]. cbn [main_db] in Hd.
  unfold bind at 1, sqlite3_step, bind at 1, inject.
  cbn -[insert_row]. rewrite ?Nat.eqb_refl. cbn -[insert_row].
  unfold set_stmts, push_stmt, new_stmt. cbn -[insert_row].
  match goal with
  | |- context [insert_row ?t ?cs ?b
                  {| backing := _; main_db := _; attached := _; autocommit := _;
                     foreign_keys := _; functions := _;
                     stmts := ?x :: ?rest; next_stmt := ?n |}] =>
      rewrite (insert_row_frame t cs b bk md att ac fk fns (x :: rest) sts n nx)
  end.
  rewrite Hins. cbn -[store_conn]. rewrite ?Nat.eqb_refl.
  split; [reflexivity|].
  rewrite store_conn_log. cbn [log set_db set_faults].
  split; [rewrite app_nil_r; reflexivity|].
  unfold rows_of, live_statements. cbn [example add_log].
  rewrite store_conn_db, store_conn_faults. cbn [main_db stmts map stmt_id].
  rewrite Hd. repeat split; reflexivity.
Qed.

Lemma bind_failure_goes_unnoticed_witness :
  fst (example_device_new "0123456789012" 12 (set_faults [0; 7; 0] ready_world)) = -1.
Proof.
  assert (Hdb : db (example (set_faults [0; 7; 0] ready_world)) = Some ready_conn)
    by (apply (conn_of_some ready_world); vm_compute; reflexivity).
  assert (Hd : devices_are [] ready_conn) by (vm_compute; reflexivity).
  assert (Hfl : faults (set_faults [0; 7; 0] ready_world) = SQLITE_OK :: 7 :: SQLITE_OK :: [])
    by reflexivity.
  assert (Hf0 : 7 <> SQLITE_OK) by (cbv; discriminate).
  assert (Hf1 : 7 <> -1) by discriminate.
  pose proof (bind_failure_goes_unnoticed (set_faults [0; 7; 0] ready_world) ready_conn []
                "0123456789012" 12 7 [] Hdb Hd Hfl Hf0 Hf1) as H.
  destruct (example_device_new "0123456789012" 12 (set_faults [0; 7; 0] ready_world))
    as [ret w'].
  apply H.
Defined.
